(* ===== verification/_CoqProject ===== *)
-Q . S2P
Prelude.v
Config.v
Uri.v
Store.v
LruCache.v
RefCache.v
GhApi.v
Resolver.v
Json.v
Routes.v
Server.v
Http.v
Wire.v
ServerProps.v
WireProps.v
Deploy.v
DeployHttp.v
DeployWire.v
