(* ===== verification/Prelude.v ===== *)
(** * A verification development of nm-anonservices (src/index.js)

    The program is a small Express server that turns a symbolic Git
    reference (a branch name) of a GitHub repository into the commit
    hash it points to, and caches that answer for five seconds.  This
    development models [src/index.js] as Rocq functions and relations,
    from start-up to the HTTP requests, and proves what makes it
    correct.

    ** The program and how its parts interact

    - Start-up (lines 9-19, 116, 134-136): [PORT] and [GH_KEY] are read
      from the environment; without a truthy [GH_KEY] the process exits,
      otherwise octokit is authenticated, [api.json] is read (an
      unreadable file kills the process) and the server listens.
    - The route table (lines 115-131): express-openapi registers the
      paths [/{service}/{user}/{repo}/resolve] and [.../pathderef];
      Express matches a request path against them and decodes the
      parameters with [decodeURIComponent] (400 when that fails).
    - The lru-cache store ([LRU({max: 5000, maxAge: 1000 * 5})], line 34).
      The library is not part of the repository; its contract is the
      spec's Cache Store (section 4.1): a get that treats an entry of age
      >= maxAge as absent and removes it, a set that overwrites and
      refreshes, least-recently-used eviction beyond [max] entries.
    - The cache wrapper (lines 35-55): [ref_cache_getkey] builds the
      string key ["service/user/repo/head"], [ref_cache_enter] writes
      only when all five strings are truthy, [ref_cache_read] reads only
      when the four key strings are truthy and turns a falsy value into
      [false].
    - The GitHub call (lines 72-90): the handler asks
      [octokit.gitdata.getReference] for ["heads/" + ref] and continues
      in the callback [cb], which accepts the answer only when
      [data.object.type == "commit"].
    - The handlers (lines 22-31 and 58-104): [resolve.get] (checks the
      query, reads the cache, dispatches on the service, issues the
      GitHub call) and [pathderef.get] (always "Unknown service").
      [req.query.ref] is whatever Express's query parser gives: a
      string, an array or an object.  The code observes it only through
      its truthiness and its conversion to a string, which throws for an
      object with its own [toString] ([?ref[toString]=x]); the
      exception leaves the handler, and Express answers 500.
    - The HTTP layer (lines 106-113, 133): Express runs for every
      request its [expressInit], the [cors] middleware with
      [cors_options] (every origin, preflights allowing GET), the GET
      routes and its final handler (404, or the status of an error);
      [res.json] sends [JSON.stringify] of the body, with ETags turned
      off by [app.disable("etag")].
    - Concurrency: many requests run at once; the only suspension point
      is the GitHub call, so a request is a first step (up to issuing
      the call) and, on a miss, a callback step that runs later,
      interleaved with any other steps.

    ** Files, in dependency order

    - [Prelude] (this file): JavaScript truthiness of strings, the
      values of a query parameter ([QueryVal]) with their truthiness
      and their partial conversion to a string ([js_string]), the
      splitting of a string at its first ['/'], the [anon_scope]
      notations, the [anon] hint database and the shared tactics.
    - [Config]: start-up as the list of its observable effects
      ([startup]), with [config_port] keeping the JavaScript type of
      the port (the string of [PORT] or the number 9999) and the read
      of [api.json] ([read_api_doc]).
    - [Uri]: [decodeURIComponent] (the ECMAScript Decode algorithm with
      its UTF-8 checks, on fuel) and the client's [encodeURIComponent].
    - [Store]: the interface a cache store promises to the code that
      uses it (the typeclasses [RefStore] and [RefStoreLaws]).
    - [LruCache]: the lru-cache model (Module [Lru]): entries in
      recency order, [lru_get], [lru_set], well-formedness, expiry,
      eviction, the refinement of an ideal TTL map ([IdealCache], a
      [gmap]) and the [RefStore] instance.
    - [RefCache]: [ref_cache_getkey], [ref_cache_enter],
      [ref_cache_read] over any [RefStore], throwing ([None]) when the
      head does not convert; the key collision.
    - [GhApi]: the data of an octokit [getReference] answer and the
      classification done by [cb].
    - [Resolver]: the responses, [resolve.get] split at the GitHub call
      into [resolve_get] (a response, a pending call, or [Raise]) and
      [resolve_cb], and [pathderef_get].
    - [Json]: [JSON.stringify] of the three bodies and a client's
      reader of them.
    - [Routes]: the path table, path-to-regexp's matching with
      Express's defaults (ASCII case-insensitive literals, one optional
      trailing ['/']) under any base path, and the decoding of the
      parameters: [route].
    - [Server]: the process as a step relation over a shared cache, the
      pending GitHub calls, the requests and the responses sent;
      invariants by induction on reachability.  A request whose handler
      throws is no step of the application ([server_request] is [None]).
    - [Http]: the same process driven by raw HTTP requests through
      [route], Express's 400 and 500 answers; its steps project onto
      steps of [Server].
    - [Wire]: the messages on the wire: the cors middleware, Express's
      own answers, [res.json] with the ETag setting and conditional
      GET, HEAD; a step relation over the HTTP state and the requests
      waiting for [resolve.get]'s response, whose steps project onto
      steps of [Http].
    - [ServerProps]: the cause of every response sent (a hash, a
      service other than "gh", a missing [ref] or an answer of GitHub
      that is no commit), and invariants of the cache inherited from
      the store.
    - [WireProps]: the composition of the layers: what a client reads
      on the wire.
    - [Deploy], [DeployHttp], [DeployWire]: the instance the program
      runs ([ref_cache] = [LRU 5000 (1000 * 5)]): the spec's scenario
      for any user, repository, branch, hash and times, concrete runs
      evaluated with [vm_compute] (the key collision from the
      application and from HTTP, the 500 of [?ref[toString]=x], the
      GitHub call for [heads/] of [?ref[]=], a run on the wire), the
      bound on the deployed cache, and a witness for every theorem with
      hypotheses.

    ** What the theorems show

    - Hashes (C1-C3): in every state reachable from an empty cache,
      under any interleaving of requests and GitHub answers, every hash
      sent and every value the cache may return is one GitHub gave, in
      an answer of type "commit" to the call [getReference] for
      [heads/h] of the request's user and repository, where the cache
      key of (user, repo, h) is the request's key ([Server.confirmed]
      states this in the answer's own terms, not through the code's
      classification); every JSON text [{ref: v}] a client reads on the
      wire is such a hash.
    - Caching and the deployed process (C4-C6, C9): a commit written
      through by the callback makes the same request a hit while its
      age is below the time to live; the spec's scenario holds on the
      deployed configuration for any inputs (a miss, a hit before 5000
      ms, a miss again at 5000 ms); the key collision of
      [ref_cache_getkey] makes the request for repository [r/a] and
      branch [b] answer the hash cached for repository [r] and branch
      [a/b]; the deployed cache never exceeds 5000 entries.
    - Errors (C7, C8, C10, C29-C32): a request for another service is
      never answered with a hash; [resolve.get] throws exactly when the
      [ref] value does not convert to a string, leaving the cache as it
      was (Express answers 500, outside the spec's error classes); every
      response sent is a hash, Unknown service for a service other than
      "gh", or Unknown repository/reference for a missing [ref] or an
      answer of GitHub that is no commit; a commit without [sha] is
      answered 200 with [{}]; [?ref[]=] passes the missing-ref check and
      asks GitHub for [heads/].
    - Bodies and the wire (C11-C14): a client reads back the exact body;
      every response on the wire allows every origin and has no ETag;
      conditional headers change nothing but [If-None-Match: *];
      methods other than GET and HEAD never reach the application.
    - Start-up (C15-C17) and routing (C18-C21): the process listens
      only once authenticated with a non-empty key and once [api.json]
      has been read; the port's type; which paths reach [resolve] with
      which parameters, the 400 on a bad escape, the independence of
      the order of the table, the answers sent without a response of
      [resolve.get].
    - Cache store (C22-C26): [Lru.lru_get] refines the ideal TTL map
      exactly and [Lru.lru_set] as a simulation (up to eviction);
      expiry at age >= maxAge, eviction of the least recently used
      entry, well-formedness.
    - Cache wrapper (C27, C28): [ref_cache_enter] writes nothing when a
      string is falsy, and a hash written with a complete key is read
      back within the time to live.

    ** Bounds and fuel

    Capacity and time to live are the values of line 34 (5000 entries,
    5000 ms) in [Deploy], and arbitrary everywhere else.  Times are
    unbounded integers, as JavaScript numbers are exact at the
    magnitudes of [Date.now()].  The only fuel is that of
    [decodeURIComponent]: one more than the length of the input, which
    [decode_fuel_irrel] shows is enough (every step consumes a
    character).  Everything else is structurally recursive.

    ** What is not modelled

    The libraries behind the HTTP layer (cors, fresh, finalhandler,
    Express's [res.send]) are modelled from their documented behaviour,
    and only the headers some property reads: Date, Connection and the
    Content-Length of a body are left out.  The API document
    [api.json] is not in the repository: its base path is a parameter
    of [Routes], and the request validation and the API-docs route that
    express-openapi derives from it are not modelled (a validation that
    rejects requests only removes behaviours, so the safety theorems
    still hold).  The query parser (qs) is a library the code only
    calls: its parsing of the URL is not modelled, and the handlers are
    stated for every value it can produce ([QueryVal]); an array is
    represented by the conversions of its elements, which is all the
    code can observe of it.  The callback's own conversion of the
    [ref] (in [ref_cache_enter]) cannot throw once the handler's
    succeeded; its throwing branch, where the callback sends nothing,
    is kept and shown unreachable.  The HTTP transport and the octokit client are oracles:
    any answer, or an error, may come back.  Times are given with each
    step and the clock is not assumed monotone.  No package file pins
    the version of lru-cache; the store follows the spec's contract
    (an entry of age >= maxAge is stale).  Should the library compare
    with > instead, an entry would live one millisecond longer, which
    changes only C5's and C24's boundary instant. *)

From stdpp Require Export base strings list relations.
From Stdlib Require Export ZArith Lia.
From Stdlib Require Import Ascii.

Open Scope string_scope.
Open Scope list_scope.
Open Scope nat_scope.

(** Times are milliseconds, as returned by [Date.now()]. *)
Abbreviation Time := Z (only parsing).

Declare Scope anon_scope.
Delimit Scope anon_scope with anon.

(** The separator of the cache key, the character ['/']. *)
Definition slash : Ascii.ascii := "/"%char.

(** [a </> b] is the JavaScript [a + "/" + b]. *)
Notation "a </> b" := (String.append a (String.append "/" b))
  (at level 60, right associativity) : anon_scope.

Open Scope anon_scope.

(** ** JavaScript truthiness of strings *)

(** A string is truthy in JavaScript exactly when it is not empty. *)
Definition str_truthy (s : string) : bool :=
  match s with
  | EmptyString => false
  | String _ _ => true
  end.

(** An optional string: [undefined] is falsy. *)
Definition opt_truthy (o : option string) : bool :=
  match o with
  | Some s => str_truthy s
  | None => false
  end.

(** ** JavaScript values of a query parameter *)

(** [req.query.ref] as Express's query parser (qs, with
    [allowPrototypes: true]) gives it: a string; an array
    ([?ref=a&ref=b], [?ref[]=a]), of which the code only ever sees the
    elements converted to strings, [None] standing for an element whose
    conversion throws; or an object ([?ref[k]=a]), which may have an own
    property [toString] ([?ref[toString]=a]).  The code converts the
    value to a boolean ([!req.query.ref], [if(... && head)]) and to a
    string (the [+] of [ref_cache_getkey] and of ["heads/" + ...]). *)
Inductive QueryVal :=
| QStr (s : string)
| QArr (elems : list (option string))
| QObj (own_to_string : bool).

(** [ToBoolean]: an array or an object is truthy, even when empty. *)
Definition js_truthy (v : QueryVal) : bool :=
  match v with
  | QStr s => str_truthy s
  | QArr _ | QObj _ => true
  end.

(** [Array.prototype.join(",")] of the converted elements. *)
Fixpoint join_comma (l : list string) : string :=
  match l with
  | [] => ""
  | [x] => x
  | x :: r => x +:+ "," +:+ join_comma r
  end.

(** [ToString], [None] when it throws a TypeError.  An object's
    conversion calls its [toString]; an own [toString] that qs set is a
    string or an object, not callable, and [valueOf] returns the object
    itself, so [OrdinaryToPrimitive] throws.  Otherwise it is
    [Object.prototype.toString].  An array joins its elements, and
    throws when one of them does. *)
Definition js_string (v : QueryVal) : option string :=
  match v with
  | QStr s => Some s
  | QArr l => join_comma <$> mapM id l
  | QObj true => None
  | QObj false => Some "[object Object]"
  end.

(** ** Strings and the separator *)

Fixpoint has_slash (s : string) : bool :=
  match s with
  | EmptyString => false
  | String c s' => if Ascii.ascii_dec c slash then true else has_slash s'
  end.

(** Cut a string at its first ['/']: [Some (before, after)]. *)
Fixpoint split_slash (s : string) : option (string * string) :=
  match s with
  | EmptyString => None
  | String c s' =>
      if Ascii.ascii_dec c slash then Some (EmptyString, s')
      else match split_slash s' with
           | Some (a, b) => Some (String c a, b)
           | None => None
           end
  end.

Create HintDb anon discriminated.
Create Rewrite HintDb anon_rw.

Lemma str_truthy_iff s : str_truthy s = true ↔ s ≠ "".
Proof. destruct s; simpl; split; congruence. Qed.

Lemma str_truthy_false s : str_truthy s = false ↔ s = "".
Proof. destruct s; simpl; split; congruence. Qed.

Lemma opt_truthy_iff o : opt_truthy o = true ↔ ∃ s, o = Some s ∧ s ≠ "".
Proof.
  destruct o as [s|]; simpl.
  - rewrite str_truthy_iff. naive_solver.
  - naive_solver.
Qed.

#[export] Instance QueryVal_eq_dec : EqDecision QueryVal.
Proof. solve_decision. Defined.

(** The only falsy query value is the empty string. *)
Lemma js_truthy_false v : js_truthy v = false ↔ v = QStr "".
Proof.
  destruct v as [s| |]; simpl; [|split; [done | discriminate]..].
  rewrite str_truthy_false. naive_solver.
Qed.

(** The conversion fails only on an object with its own [toString], or
    an array with such an element. *)
Lemma js_string_None v :
  js_string v = None ↔ v = QObj true ∨ ∃ l, v = QArr l ∧ None ∈ l.
Proof.
  destruct v as [s|l|[]]; simpl; [naive_solver| |naive_solver..].
  rewrite fmap_None, mapM_None, Exists_exists. naive_solver.
Qed.

(** A string joined with a separator is never empty. *)
Lemma str_truthy_sep a b : str_truthy (a </> b) = true.
Proof. by destruct a. Qed.

Lemma js_string_None_truthy v : js_string v = None → js_truthy v = true.
Proof. by destruct v. Qed.

(** stdpp makes [String.append] opaque to [simpl]; its two equations. *)
Lemma str_app_nil (t : string) : "" +:+ t = t.
Proof. reflexivity. Qed.

Lemma str_app_cons c (s t : string) : String c s +:+ t = String c (s +:+ t).
Proof. reflexivity. Qed.

#[export] Hint Rewrite str_app_nil str_app_cons : anon_rw.

Lemma string_app_assoc (a b c : string) :
  (a +:+ b) +:+ c = a +:+ (b +:+ c).
Proof. induction a as [|ch a IH]; autorewrite with anon_rw; [done | by f_equal]. Qed.

(** The decoder inverts [</>] when the left part has no separator. *)
Lemma split_slash_join a b :
  has_slash a = false → split_slash (a </> b) = Some (a, b).
Proof.
  induction a as [|c a IH]; [done|].
  rewrite str_app_cons; simpl.
  destruct (Ascii.ascii_dec c slash); [done|].
  intros H. by rewrite IH.
Qed.

Lemma split_slash_spec s a b :
  split_slash s = Some (a, b) → s = a </> b ∧ has_slash a = false.
Proof.
  revert a. induction s as [|c s IH]; intros a; simpl; [done|].
  destruct (Ascii.ascii_dec c slash) as [->|Hc].
  - intros [= <- <-]. done.
  - destruct (split_slash s) as [[a' b']|] eqn:E; [|done].
    intros [= <- <-]. destruct (IH a' eq_refl) as [-> Ha'].
    rewrite str_app_cons. simpl.
    destruct (Ascii.ascii_dec c slash); done.
Qed.

(** [</>] is injective when the left parts have no separator. *)
Lemma join_inj a b a' b' :
  has_slash a = false → has_slash a' = false →
  a </> b = a' </> b' → a = a' ∧ b = b'.
Proof.
  intros Ha Ha' E.
  pose proof (split_slash_join a b Ha) as S.
  rewrite E, split_slash_join in S by done. by injection S as -> ->.
Qed.


(** A step that is simulated by any number of steps lifts to runs:
    the shape of every refinement between the layers of the model. *)
Lemma rtc_lift {A B} (f : A → B) (R : relation A) (S : relation B) :
  (∀ x y, R x y → rtc S (f x) (f y)) → ∀ x y, rtc R x y → rtc S (f x) (f y).
Proof. intros HRS x y Hxy. induction Hxy as [|x y z Hxy _ IH]; [done|]. etrans; eauto. Qed.

(** An invariant of the steps holds along every run. *)
Lemma rtc_invariant {A} (R : relation A) (P : A → Prop) :
  (∀ x y, R x y → P x → P y) → ∀ x y, rtc R x y → P x → P y.
Proof. intros HP x y Hxy. induction Hxy; eauto. Qed.

#[export] Hint Resolve split_slash_join : anon.

(** ** Tactics shared by the development *)

(** Case on every [if]/[match] of a boolean test in the goal, keeping
    the equation. *)
Ltac case_if :=
  match goal with
  | |- context [if ?b then _ else _] =>
      let E := fresh "E" in destruct b eqn:E
  end.

(** Turn truthiness facts in the context into (dis)equalities. *)
Ltac truthy_hyps :=
  repeat match goal with
  | H : str_truthy _ = true |- _ => apply str_truthy_iff in H
  | H : str_truthy _ = false |- _ => apply str_truthy_false in H
  end.
