(* ===== verification/Config.v ===== *)
(** * Start-up of [src/index.js] (lines 9-19, 116 and 134-136)

    The process reads [PORT] and [GH_KEY] from [process.env], stops
    with ["Huh?"] on stderr and exit code 1 when [GH_KEY] is falsy,
    and otherwise authenticates octokit with the token, listens on the
    port and logs it.  [process.env] is a map from names to strings;
    [config_port] keeps the JavaScript type of its value, the string of
    [PORT] or the number [9999].  [startup] is the list of the
    observable effects, in the order the code performs them.  Between
    the authentication and [app.listen], building [openapi_args] reads
    [api.json] (line 116); when the file cannot be read, [readFileSync]
    throws, nothing catches the exception, and Node prints it and exits
    with code 1.  The rest of that code (the route table, modelled in
    [Routes]) has no effect of its own in this list; the validation of
    the document by [openapi.initialize] is not modelled. *)

From stdpp Require Import gmap.
From S2P Require Import Prelude.

(** [process.env]: every value is a string. *)
Abbreviation env := (gmap string string) (only parsing).

(** [config_port]: [process.env.PORT] when truthy, else the number 9999. *)
Inductive Port :=
| PortString (s : string)
| PortNumber (n : Z).

(** The argument of [octokit.authenticate]. *)
Record Auth := mk_auth { auth_type : string; auth_token : string }.

(** The files of the directory of [src/index.js], by name. *)
Abbreviation files := (gmap string string) (only parsing).

(** The observable effects of start-up; [Uncaught] is Node printing an
    uncaught exception. *)
Inductive Event :=
| ConsoleError (msg : string)
| Uncaught (err : string)
| ProcessExit (code : Z)
| Authenticate (a : Auth)
| Listen (p : Port)
| ConsoleLog (msg : string) (p : Port).

(** Line 10. *)
Definition config_port (e : env) : Port :=
  match e !! "PORT" with
  | Some p => if str_truthy p then PortString p else PortNumber 9999
  | None => PortNumber 9999
  end.

(** Line 11. *)
Definition config_gh_key (e : env) : option string := e !! "GH_KEY".

(** Line 116: [fs.readFileSync(path.resolve(__dirname, "api.json"), "utf8")],
    the contents of the file, [None] when it throws (ENOENT). *)
Definition read_api_doc (fs : files) : option string := fs !! "api.json".

(** Lines 134-136: [app.listen(config_port)] and the log line. *)
Definition listen_events (p : Port) : list Event := [Listen p; ConsoleLog "Listening at" p].

(** Lines 13-19, the read of line 116, then [listen_events]. *)
Definition startup (e : env) (fs : files) : list Event :=
  if opt_truthy (config_gh_key e) then
    match config_gh_key e with
    | Some k =>
        Authenticate (mk_auth "token" k) ::
          match read_api_doc fs with
          | Some _ => listen_events (config_port e)
          | None => [Uncaught "ENOENT"; ProcessExit 1]
          end
    | None => []
    end
  else [ConsoleError "Huh?"; ProcessExit 1].

(** ** Theorems *)

(** C16: Without a truthy [GH_KEY], start-up prints Huh? on stderr, exits
    with code 1 and never listens. *)
Theorem startup_without_key e fs :
  opt_truthy (config_gh_key e) = false →
  startup e fs = [ConsoleError "Huh?"; ProcessExit 1].
Proof. unfold startup. by intros ->. Qed.

(** With a non-empty [GH_KEY], start-up authenticates with it as a
    token, then listens on [config_port] and logs the port when
    [api.json] can be read, and dies of the uncaught ENOENT otherwise. *)
Theorem startup_with_key e fs k :
  config_gh_key e = Some k → k ≠ "" →
  startup e fs =
    Authenticate (mk_auth "token" k) ::
      match read_api_doc fs with
      | Some _ => [Listen (config_port e); ConsoleLog "Listening at" (config_port e)]
      | None => [Uncaught "ENOENT"; ProcessExit 1]
      end.
Proof.
  intros Hk Hne. unfold startup. rewrite Hk. simpl.
  apply str_truthy_iff in Hne. by rewrite Hne.
Qed.

(** C17: [config_port] is the number 9999 when [PORT] is unset or empty,
    and otherwise the non-empty string of [PORT] itself. *)
Theorem config_port_type e :
  (config_port e = PortNumber 9999 ∧ opt_truthy (e !! "PORT") = false) ∨
  (∃ p, config_port e = PortString p ∧ e !! "PORT" = Some p ∧ p ≠ "").
Proof.
  unfold config_port. destruct (e !! "PORT") as [p|]; simpl; [|by left].
  destruct (str_truthy p) eqn:Hp.
  - right. apply str_truthy_iff in Hp. eauto.
  - by left.
Qed.

(** C15: The process listens only after authenticating octokit with a non-
    empty [GH_KEY] as token, only once [api.json] has been read, and only
    on [config_port]. *)
Theorem startup_listen_authenticated e fs p :
  Listen p ∈ startup e fs →
  ∃ k, config_gh_key e = Some k ∧ k ≠ "" ∧ is_Some (read_api_doc fs) ∧ p = config_port e ∧
    ∃ pre post, startup e fs = pre ++ Listen p :: post ∧
      Authenticate (mk_auth "token" k) ∈ pre.
Proof.
  unfold startup. destruct (opt_truthy (config_gh_key e)) eqn:Hk.
  - apply opt_truthy_iff in Hk as (k & Hk & Hne). rewrite Hk. simpl.
    destruct (read_api_doc fs) as [doc|] eqn:Hd.
    + intros Hin. assert (p = config_port e) as ->.
      { repeat (apply elem_of_cons in Hin as [Hin|Hin]; [by simplify_eq|]).
        by apply elem_of_nil in Hin. }
      exists k. split_and!; [done|done|by eexists|done|].
      exists [Authenticate (mk_auth "token" k)], [ConsoleLog "Listening at" (config_port e)].
      split; [done | by left].
    + intros Hin. repeat (apply elem_of_cons in Hin as [Hin|Hin]; [done|]).
      by apply elem_of_nil in Hin.
  - intros Hin. repeat (apply elem_of_cons in Hin as [Hin|Hin]; [done|]).
    by apply elem_of_nil in Hin.
Qed.
