(* ===== verification/Uri.v ===== *)
(** * [decodeURIComponent], as Express applies it to path parameters

    Express decodes every route parameter with [decodeURIComponent]
    ([decode_param] of its router) and answers 400 when that throws.
    The library is not part of the repository: this file models the
    ECMAScript algorithm Decode(string, "") from its specification.
    Strings are byte strings: the raw path of an HTTP request is ASCII,
    and the decoded parameter is the UTF-8 encoding of the JavaScript
    string [decodeURIComponent] returns (UTF-8 is injective, so equality
    of keys is preserved).  [None] is the [URIError].

    An escape [%XY] gives a byte.  A byte below 0x80 is a character;
    otherwise it must start a UTF-8 sequence of 2 to 4 bytes, each
    further byte an escape of the form 10xxxxxx, and the sequence must
    be the shortest encoding of a code point that is not a surrogate
    and is at most U+10FFFF.  The decoder runs on fuel, which
    [decode_fuel_enough] shows is never exhausted by the fuel
    [decodeURIComponent] gives. *)

From S2P Require Import Prelude.
From Stdlib Require Import Ascii.

Definition byte_of (c : ascii) : Z := Z.of_nat (nat_of_ascii c).
Definition char_of (b : Z) : ascii := ascii_of_nat (Z.to_nat b).

Definition is_pct (c : ascii) : bool := Ascii.eqb c "%"%char.

(** A hexadecimal digit, in either case. *)
Definition hex_val (c : ascii) : option Z :=
  let n := byte_of c in
  if (48 <=? n)%Z && (n <=? 57)%Z then Some (n - 48)%Z
  else if (65 <=? n)%Z && (n <=? 70)%Z then Some (n - 55)%Z
  else if (97 <=? n)%Z && (n <=? 102)%Z then Some (n - 87)%Z
  else None.

(** The two hexadecimal digits after a ['%']: the byte and the rest. *)
Definition read_hex2 (s : string) : option (Z * string) :=
  match s with
  | String h1 (String h2 rest) =>
      match hex_val h1, hex_val h2 with
      | Some a, Some b => Some (16 * a + b, rest)%Z
      | _, _ => None
      end
  | _ => None
  end.

(** A whole escape ["%XY"] at the head of the string. *)
Definition read_escape (s : string) : option (Z * string) :=
  match s with
  | String c rest => if is_pct c then read_hex2 rest else None
  | EmptyString => None
  end.

(** The length of the UTF-8 sequence a byte starts: the number of its
    leading 1 bits, 1 for an ASCII byte, and 0 when that number is 1
    or more than 4 (the URIError cases). *)
Definition utf8_length (b : Z) : nat :=
  if (Z.land b 128 =? 0)%Z then 1
  else if (Z.land b 224 =? 192)%Z then 2
  else if (Z.land b 240 =? 224)%Z then 3
  else if (Z.land b 248 =? 240)%Z then 4
  else 0.

(** [n] continuation bytes, each an escape of the form 10xxxxxx. *)
Fixpoint read_conts (n : nat) (s : string) : option (list Z * string) :=
  match n with
  | O => Some ([], s)
  | S n' =>
      match read_escape s with
      | Some (b, rest) =>
          if (Z.land b 192 =? 128)%Z then
            match read_conts n' rest with
            | Some (bs, r) => Some (b :: bs, r)
            | None => None
            end
          else None
      | None => None
      end
  end.

(** The code point of a lead byte and its continuation bytes. *)
Definition code_point (b : Z) (bs : list Z) : Z :=
  foldl (λ v c, Z.lor (Z.shiftl v 6) (Z.land c 63))
    (Z.land b (Z.ones (6 - Z.of_nat (length bs)))) bs.

(** The sequence of [n] bytes is the shortest encoding of a scalar value. *)
Definition utf8_valid (n : nat) (v : Z) : bool :=
  match n with
  | 2 => (128 <=? v)%Z
  | 3 => (2048 <=? v)%Z && negb ((55296 <=? v)%Z && (v <=? 57343)%Z)
  | 4 => (65536 <=? v)%Z && (v <=? 1114111)%Z
  | _ => false
  end.

Definition bytes_string (bs : list Z) : string :=
  foldr (λ b t, String (char_of b) t) EmptyString bs.

Fixpoint decode_fuel (fuel : nat) (s : string) : option string :=
  match fuel with
  | O => None
  | S fuel' =>
      match s with
      | EmptyString => Some EmptyString
      | String c rest =>
          if is_pct c then
            match read_hex2 rest with
            | None => None
            | Some (b, rest1) =>
                match utf8_length b with
                | O => None
                | 1 => String (char_of b) <$> decode_fuel fuel' rest1
                | n =>
                    match read_conts (n - 1) rest1 with
                    | Some (bs, rest2) =>
                        if utf8_valid n (code_point b bs) then
                          (λ t, bytes_string (b :: bs) +:+ t) <$> decode_fuel fuel' rest2
                        else None
                    | None => None
                    end
                end
            end
          else String c <$> decode_fuel fuel' rest
      end
  end.

(** Every step consumes a character: one more than the length is enough. *)
Definition decodeURIComponent (s : string) : option string :=
  decode_fuel (S (String.length s)) s.

(** ** [encodeURIComponent] on ASCII strings, the client's side *)

Definition uri_unreserved (c : ascii) : bool :=
  let n := byte_of c in
  ((48 <=? n)%Z && (n <=? 57)%Z) || ((65 <=? n)%Z && (n <=? 90)%Z) ||
  ((97 <=? n)%Z && (n <=? 122)%Z) ||
  bool_decide (c ∈ ["-"; "_"; "."; "!"; "~"; "*"; "'"; "("; ")"]%char).

Definition hex_digit (v : Z) : ascii :=
  if (v <? 10)%Z then char_of (48 + v)%Z else char_of (55 + v)%Z.

Fixpoint encodeURIComponent (s : string) : string :=
  match s with
  | EmptyString => EmptyString
  | String c r =>
      if uri_unreserved c then String c (encodeURIComponent r)
      else String "%" (String (hex_digit (byte_of c / 16)%Z)
                         (String (hex_digit (byte_of c mod 16)%Z) (encodeURIComponent r)))
  end.

Fixpoint is_ascii (s : string) : bool :=
  match s with
  | EmptyString => true
  | String c r => (byte_of c <? 128)%Z && is_ascii r
  end.

(** ** Lemmas on the pieces *)

(** [lia] with the equations of division and remainder by constants. *)
Ltac div_lia := Z.to_euclidean_division_equations; lia.

Lemma str_length_app (a b : string) :
  String.length (a +:+ b) = String.length a + String.length b.
Proof. induction a as [|c a IH]; [done|]. rewrite str_app_cons. simpl. by rewrite IH. Qed.

Lemma bytes_string_length bs : String.length (bytes_string bs) = length bs.
Proof. induction bs as [|b bs IH]; [done|]. simpl. by rewrite IH. Qed.

Lemma read_hex2_length s b r :
  read_hex2 s = Some (b, r) → String.length s = 2 + String.length r.
Proof.
  destruct s as [|h1 [|h2 r']]; simpl; [done|done|].
  destruct (hex_val h1), (hex_val h2); [|done..]. by intros [= _ <-].
Qed.

Lemma read_escape_length s b r :
  read_escape s = Some (b, r) → String.length s = 3 + String.length r.
Proof.
  destruct s as [|c s]; simpl; [done|]. destruct (is_pct c); [|done].
  intros H. apply read_hex2_length in H. lia.
Qed.

Lemma read_conts_spec n s bs r :
  read_conts n s = Some (bs, r) →
  length bs = n ∧ String.length s = 3 * n + String.length r.
Proof.
  revert s bs. induction n as [|n IH]; intros s bs; simpl.
  - by intros [= <- <-].
  - destruct (read_escape s) as [[b rest]|] eqn:E; [|done].
    destruct (Z.land b 192 =? 128)%Z; [|done].
    destruct (read_conts n rest) as [[bs' r']|] eqn:E'; [|done].
    intros [= <- <-]. apply read_escape_length in E.
    destruct (IH _ _ E') as [<- Hr]. simpl. lia.
Qed.

#[local] Hint Resolve read_hex2_length read_conts_spec : anon.

(** The step of the decoder, written once for the two fuel lemmas. *)
Lemma decode_fuel_step f s :
  decode_fuel (S f) s =
  match s with
  | EmptyString => Some EmptyString
  | String c rest =>
      if is_pct c then
        match read_hex2 rest with
        | None => None
        | Some (b, rest1) =>
            match utf8_length b with
            | O => None
            | 1 => String (char_of b) <$> decode_fuel f rest1
            | n =>
                match read_conts (n - 1) rest1 with
                | Some (bs, rest2) =>
                    if utf8_valid n (code_point b bs) then
                      (λ t, bytes_string (b :: bs) +:+ t) <$> decode_fuel f rest2
                    else None
                | None => None
                end
            end
        end
      else String c <$> decode_fuel f rest
  end.
Proof. reflexivity. Qed.

Lemma decode_fuel_irrel f1 f2 s :
  String.length s < f1 → String.length s < f2 → decode_fuel f1 s = decode_fuel f2 s.
Proof.
  revert f2 s. induction f1 as [|f1 IH]; intros [|f2] s H1 H2; [lia..|].
  rewrite !decode_fuel_step. destruct s as [|c rest]; [done|]. simpl in H1, H2.
  destruct (is_pct c); [|by rewrite (IH f2) by lia].
  destruct (read_hex2 rest) as [[b rest1]|] eqn:E; [|done].
  apply read_hex2_length in E.
  destruct (utf8_length b) as [|[|n]]; [done|by rewrite (IH f2) by lia|].
  cbv zeta. case_match eqn:E2; [|done]. destruct p as [bs rest2].
  apply read_conts_spec in E2 as [_ E2].
  case_match; [|done]. by rewrite (IH f2) by lia.
Qed.

Lemma decode_fuel_length f s t :
  decode_fuel f s = Some t → String.length t ≤ String.length s.
Proof.
  revert s t. induction f as [|f IH]; intros s t; [done|].
  rewrite decode_fuel_step. destruct s as [|c rest]; [by intros [= <-]|]. cbn [String.length].
  destruct (is_pct c).
  2:{ intros (t' & H & ->)%fmap_Some. simpl. apply IH in H. lia. }
  destruct (read_hex2 rest) as [[b rest1]|] eqn:E; [|done].
  apply read_hex2_length in E.
  destruct (utf8_length b) as [|[|n]]; [done| |].
  { intros (t' & H & ->)%fmap_Some. simpl. apply IH in H. lia. }
  cbv zeta. case_match eqn:E2; [|done]. destruct p as [bs rest2].
  apply read_conts_spec in E2 as [Hl E2].
  case_match; [|done]. intros (t' & Ht & ->)%fmap_Some. apply IH in Ht.
  rewrite str_length_app, bytes_string_length. simpl. lia.
Qed.

(** ** The client's encoding *)

Lemma uri_unreserved_pct c : uri_unreserved c = true → is_pct c = false.
Proof.
  destruct (is_pct c) eqn:E; [|done].
  apply Ascii.eqb_eq in E as ->. by vm_compute.
Qed.

Lemma hex_val_digit v : (0 ≤ v < 16)%Z → hex_val (hex_digit v) = Some v.
Proof.
  intros Hv.
  assert (v = 0 ∨ v = 1 ∨ v = 2 ∨ v = 3 ∨ v = 4 ∨ v = 5 ∨ v = 6 ∨ v = 7 ∨ v = 8 ∨
          v = 9 ∨ v = 10 ∨ v = 11 ∨ v = 12 ∨ v = 13 ∨ v = 14 ∨ v = 15)%Z as Hcases by lia.
  repeat (destruct Hcases as [->|Hcases]; [reflexivity|]). subst. reflexivity.
Qed.

Lemma byte_of_range c : (0 ≤ byte_of c < 256)%Z.
Proof. unfold byte_of. pose proof (Ascii.nat_ascii_bounded c). lia. Qed.

Lemma char_of_byte c : char_of (byte_of c) = c.
Proof. unfold char_of, byte_of. by rewrite Nat2Z.id, Ascii.ascii_nat_embedding. Qed.

(** An ASCII byte has its high bit clear. *)
Lemma land_128_ascii b : (0 ≤ b < 128)%Z → Z.land b 128 = 0%Z.
Proof.
  intros Hb. apply Z.bits_inj'. intros n Hn. rewrite Z.land_spec, Z.bits_0.
  destruct (Z.eq_dec n 7) as [->|Hne].
  - destruct (Z.eq_dec b 0) as [->|Hb0]; [done|].
    rewrite (Z.bits_above_log2 b 7); [done|lia|].
    apply Z.log2_lt_pow2; [lia|]. simpl. lia.
  - change 128%Z with (2 ^ 7)%Z. rewrite Z.pow2_bits_false by done. apply andb_false_r.
Qed.

Lemma utf8_length_ascii c : (byte_of c < 128)%Z → utf8_length (byte_of c) = 1.
Proof.
  intros Hc. unfold utf8_length. rewrite land_128_ascii; [done|].
  pose proof (byte_of_range c). lia.
Qed.

Lemma decode_encode_fuel s f :
  is_ascii s = true → String.length (encodeURIComponent s) < f →
  decode_fuel f (encodeURIComponent s) = Some s.
Proof.
  revert f. induction s as [|c r IH]; intros f Ha Hf; (destruct f as [|f]; [lia|]); [done|].
  simpl in Ha. apply andb_true_iff in Ha as [Hc Hr]. apply Z.ltb_lt in Hc.
  cbn [encodeURIComponent] in *. rewrite decode_fuel_step. cbv beta iota.
  destruct (uri_unreserved c) eqn:U.
  - rewrite (uri_unreserved_pct c U), IH; [done|done|]. simpl in Hf. lia.
  - pose proof (byte_of_range c). unfold read_hex2. simpl is_pct. cbv iota beta.
    rewrite !hex_val_digit by div_lia.
    replace (16 * (byte_of c / 16) + byte_of c mod 16)%Z with (byte_of c) by div_lia.
    rewrite utf8_length_ascii by done. rewrite char_of_byte, IH; [done|done|]. simpl in Hf. lia.
Qed.

Lemma decode_encode_ascii s :
  is_ascii s = true → decodeURIComponent (encodeURIComponent s) = Some s.
Proof.
  intros Ha. apply decode_encode_fuel; [done|lia].
Qed.

Lemma hex_digit_not_slash v : (0 ≤ v < 16)%Z → hex_digit v ≠ slash.
Proof. intros Hv E. pose proof (hex_val_digit v Hv) as H. by rewrite E in H. Qed.

Lemma has_slash_encode s : has_slash (encodeURIComponent s) = false.
Proof.
  induction s as [|c r IH]; [done|]. cbn [encodeURIComponent].
  pose proof (byte_of_range c). destruct (uri_unreserved c) eqn:U; simpl.
  - destruct (Ascii.ascii_dec c slash) as [->|]; [by vm_compute in U|done].
  - destruct (Ascii.ascii_dec (hex_digit (byte_of c / 16)) slash) as [E|].
    { exfalso. revert E. apply hex_digit_not_slash. div_lia. }
    destruct (Ascii.ascii_dec (hex_digit (byte_of c mod 16)) slash) as [E|]; [|done].
    exfalso. revert E. apply hex_digit_not_slash. div_lia.
Qed.

Lemma encode_nonempty s : s ≠ "" → encodeURIComponent s ≠ "".
Proof. destruct s as [|c r]; [done|]. cbn [encodeURIComponent]. by case_if. Qed.
