(* ===== verification/Store.v ===== *)
(** * The cache-store interface

    What the cache wrapper of [src/index.js] (lines 33-55) needs from
    the store behind [ref_cache]: a [get] that may also reorganise the
    store, a [set], and an abstraction [store_holds c k v] of the pairs
    the store may hand out.  The laws say that a store only ever hands
    out what was put into it, and that a value just put is read back
    while it is younger than the store's time-to-live.

    The client's theorems ([RefCache], [Resolver], [Server]) are proved
    against these classes; [LruCache] discharges them for the
    lru-cache model. *)

From S2P Require Import Prelude.

Class RefStore (C : Type) := {
  store_get : string → Time → C → option string * C;
  store_set : string → string → Time → C → C;
  (** [store_holds c k v]: [c] may answer [v] for [k]. *)
  store_holds : C → string → string → Prop;
  (** The time-to-live of the entries, in milliseconds. *)
  store_ttl : C → Time;
  (** The configuration can hold an entry (capacity at least one). *)
  store_ready : C → Prop;
}.

Class RefStoreLaws (C : Type) `{!RefStore C} := {
  store_get_sound k t c v c' :
    store_get k t c = (Some v, c') → store_holds c k v;
  store_get_holds k t c r c' k' v' :
    store_get k t c = (r, c') → store_holds c' k' v' → store_holds c k' v';
  store_set_holds k v t c k' v' :
    store_holds (store_set k v t c) k' v' → (k' = k ∧ v' = v) ∨ store_holds c k' v';
  store_set_get k v (t t' : Time) c :
    store_ready c → (t' - t < store_ttl c)%Z →
    (store_get k t' (store_set k v t c)).1 = Some v;
  store_get_config k t c :
    (store_ready (store_get k t c).2 ↔ store_ready c) ∧
    store_ttl (store_get k t c).2 = store_ttl c;
  store_set_config k v t c :
    (store_ready (store_set k v t c) ↔ store_ready c) ∧
    store_ttl (store_set k v t c) = store_ttl c;
}.

Section StoreFacts.
Context `{RefStoreLaws C}.

(** A store obtained by any number of gets never holds more. *)
Lemma store_get_holds' k t c k' v' :
  store_holds (store_get k t c).2 k' v' → store_holds c k' v'.
Proof.
  destruct (store_get k t c) as [r c'] eqn:E. simpl.
  by apply store_get_holds with (k := k) (t := t) (r := r).
Qed.

Lemma store_ready_get k t c :
  store_ready c → store_ready (store_get k t c).2.
Proof. apply (proj1 (store_get_config k t c)). Qed.

Lemma store_ready_set k v t c :
  store_ready c → store_ready (store_set k v t c).
Proof. apply (proj1 (store_set_config k v t c)). Qed.
End StoreFacts.

#[export] Hint Resolve store_ready_get store_ready_set : anon.
