(* ===== verification/LruCache.v ===== *)
(** * The lru-cache store behind [ref_cache]

    [src/index.js] line 34 creates [LRU({ max: 5000, maxAge: 1000 * 5 })].
    The lru-cache package is a dependency, not code of the repository,
    so Module [Lru] models the contract the spec gives it (section 4.1):
    - the entries are kept in recency order, most recent first;
    - [get] of an entry whose age is at least [maxAge] removes it and
      misses; a fresh hit moves the entry to the front;
    - [set] removes any entry of the same key, puts the new entry with
      age zero at the front and drops the least recently used entries
      beyond [max].

    Module [IdealCache] is the abstract specification: an unbounded
    [gmap] from keys to (value, insertion time) with the same expiry.
    [Lru.lru_abs] maps a cache onto it; gets always commute with the
    abstraction, sets do when they evict nothing, and in every case the
    cache holds a sub-map of the ideal one. *)

From stdpp Require Import gmap.
From S2P Require Import Prelude Store.

(** ** The abstract specification: an unbounded map with expiry *)

Module IdealCache.

(** Each key maps to its value and the time it was set. *)
Abbreviation ideal := (gmap string (string * Time)).

(** A lookup misses, and forgets the key, once the age reaches [ttl]. *)
Definition ideal_get (ttl : Time) (k : string) (now : Time) (m : ideal)
    : option string * ideal :=
  match m !! k with
  | None => (None, m)
  | Some (v, t) =>
      if bool_decide (ttl ≤ now - t)%Z then (None, delete k m) else (Some v, m)
  end.

Definition ideal_set (k v : string) (now : Time) (m : ideal) : ideal :=
  <[k := (v, now)]> m.

End IdealCache.

Module Lru.
Import IdealCache.

Record entry := mk_entry { e_key : string; e_value : string; e_now : Time }.

(** [lru_list] is the doubly-linked list of lru-cache, head first. *)
Record lru := mk_lru { lru_max : nat; lru_maxAge : Time; lru_list : list entry }.

(** [LRU({max, maxAge})]: an empty cache. *)
Definition LRU (max : nat) (maxAge : Time) : lru := mk_lru max maxAge [].

Definition with_list (c : lru) (l : list entry) : lru :=
  mk_lru (lru_max c) (lru_maxAge c) l.

Definition keys (l : list entry) : list string := e_key <$> l.

Fixpoint find_entry (k : string) (l : list entry) : option entry :=
  match l with
  | [] => None
  | e :: l' => if decide (e_key e = k) then Some e else find_entry k l'
  end.

Fixpoint del_entry (k : string) (l : list entry) : list entry :=
  match l with
  | [] => []
  | e :: l' => if decide (e_key e = k) then del_entry k l' else e :: del_entry k l'
  end.

(** An entry is stale when its age has reached [maxAge]. *)
Definition is_stale (c : lru) (e : entry) (now : Time) : bool :=
  bool_decide (lru_maxAge c ≤ now - e_now e)%Z.

Definition lru_get (k : string) (now : Time) (c : lru) : option string * lru :=
  match find_entry k (lru_list c) with
  | None => (None, c)
  | Some e =>
      if is_stale c e now then (None, with_list c (del_entry k (lru_list c)))
      else (Some (e_value e), with_list c (e :: del_entry k (lru_list c)))
  end.

(** Evict from the tail until at most [max] entries remain. *)
Definition trim (max : nat) (l : list entry) : list entry := take max l.

Definition lru_set (k v : string) (now : Time) (c : lru) : lru :=
  with_list c (trim (lru_max c) (mk_entry k v now :: del_entry k (lru_list c))).

(** The invariant: keys are unique and the bound is respected. *)
Definition lru_wf (c : lru) : Prop :=
  NoDup (keys (lru_list c)) ∧ length (lru_list c) ≤ lru_max c.

(** The abstraction function: the map the entry list denotes. *)
Definition ent_pair (e : entry) : string * (string * Time) :=
  (e_key e, (e_value e, e_now e)).

Definition abs_list (l : list entry) : ideal := list_to_map (ent_pair <$> l).

Definition lru_abs (c : lru) : ideal := abs_list (lru_list c).

(** The simulation relation: a well-formed cache with the same time to
    live whose map is contained in the ideal one. *)
Definition lru_sim (c : lru) (m : ideal) : Prop :=
  lru_wf c ∧ lru_abs c ⊆ m.

(** ** Lemmas on the entry list *)

Lemma find_entry_Some k l e :
  find_entry k l = Some e → e ∈ l ∧ e_key e = k.
Proof.
  induction l as [|e' l IH]; simpl; [done|].
  case_decide; [intros [= ->]; split; [left | done]|].
  intros H'. destruct (IH H'). split; [by right | done].
Qed.

Lemma find_entry_None k l : find_entry k l = None ↔ k ∉ keys l.
Proof.
  induction l as [|e l IH]; simpl; [set_solver|].
  unfold keys in *. rewrite ?fmap_cons, elem_of_cons.
  case_decide; [naive_solver|]. rewrite IH. naive_solver.
Qed.

Lemma find_entry_elem k l e :
  NoDup (keys l) → e ∈ l → e_key e = k → find_entry k l = Some e.
Proof.
  induction l as [|e' l IH]; simpl; [set_solver|].
  unfold keys in *. rewrite ?fmap_cons, NoDup_cons, elem_of_cons.
  intros [Hn Hd] [->|Hin] Hk; case_decide; subst; try done.
  - exfalso. apply Hn. rewrite H. apply list_elem_of_fmap. eauto.
  - by apply IH.
Qed.

Lemma elem_of_del_entry k l e : e ∈ del_entry k l ↔ e ∈ l ∧ e_key e ≠ k.
Proof.
  induction l as [|e' l IH]; simpl; [set_solver|].
  case_decide; rewrite ?elem_of_cons, IH; naive_solver.
Qed.

Lemma keys_del_entry k l x : x ∈ keys (del_entry k l) ↔ x ∈ keys l ∧ x ≠ k.
Proof.
  unfold keys. rewrite !list_elem_of_fmap.
  setoid_rewrite elem_of_del_entry. naive_solver.
Qed.

Lemma NoDup_del_entry k l : NoDup (keys l) → NoDup (keys (del_entry k l)).
Proof.
  induction l as [|e l IH]; simpl; [done|].
  intros Hl. pose proof Hl as Hl'. unfold keys in Hl'.
  rewrite ?fmap_cons, NoDup_cons in Hl'. destruct Hl' as [Hn Hd].
  case_decide; [by apply IH|].
  unfold keys. rewrite ?fmap_cons, NoDup_cons. split; [|by apply IH].
  rewrite (keys_del_entry k l (e_key e)). naive_solver.
Qed.

Lemma length_del_entry_le k l : length (del_entry k l) ≤ length l.
Proof. induction l; simpl; [done|]. case_decide; simpl; lia. Qed.

Lemma del_entry_notin k l : k ∉ keys l → del_entry k l = l.
Proof.
  induction l as [|e l IH]; simpl; [done|].
  unfold keys in *. rewrite ?fmap_cons, elem_of_cons. intros Hk.
  case_decide; [naive_solver|]. f_equal. apply IH; naive_solver.
Qed.

(** Deleting a key that is present shortens a duplicate-free list. *)
Lemma length_del_entry_in k l :
  NoDup (keys l) → k ∈ keys l → S (length (del_entry k l)) = length l.
Proof.
  induction l as [|e l IH]; simpl; [set_solver|].
  unfold keys in *. rewrite ?fmap_cons, NoDup_cons, elem_of_cons.
  intros [Hn Hd] Hk. case_decide as He; simpl.
  - subst k. by rewrite del_entry_notin.
  - f_equal. apply IH; naive_solver.
Qed.

Lemma keys_take n l x : x ∈ keys (take n l) → x ∈ keys l.
Proof.
  unfold keys. rewrite !list_elem_of_fmap. intros (e & -> & He).
  exists e. split; [done|]. apply elem_of_take in He as (i & Hi & _).
  by eapply list_elem_of_lookup_2.
Qed.

Lemma NoDup_keys_take n l : NoDup (keys l) → NoDup (keys (take n l)).
Proof. unfold keys. rewrite fmap_take. intros; eapply sublist_NoDup; [done | apply sublist_take]. Qed.

#[local] Hint Resolve NoDup_del_entry NoDup_keys_take length_del_entry_le : anon.

(** ** The invariant is preserved *)

Lemma lru_get_wf k now c : lru_wf c → lru_wf (lru_get k now c).2.
Proof.
  unfold lru_get, lru_wf. destruct (find_entry k (lru_list c)) as [e|] eqn:F; [|done].
  apply find_entry_Some in F as [He <-].
  intros [Hd Hl]. case_if; simpl; split; eauto with anon.
  - pose proof (length_del_entry_le (e_key e) (lru_list c)). lia.
  - unfold keys. rewrite ?fmap_cons, NoDup_cons. split; [|eauto with anon].
    rewrite (keys_del_entry (e_key e)). naive_solver.
  - assert (e_key e ∈ keys (lru_list c)) as Hk by (apply list_elem_of_fmap; eauto).
    pose proof (length_del_entry_in (e_key e) (lru_list c) Hd Hk). lia.
Qed.

Lemma lru_set_wf k v now c : lru_wf c → lru_wf (lru_set k v now c).
Proof.
  unfold lru_set, lru_wf, trim. simpl. intros [Hd Hl]. split.
  - apply NoDup_keys_take. unfold keys. rewrite ?fmap_cons, NoDup_cons. simpl.
    split; [rewrite (keys_del_entry k); naive_solver | eauto with anon].
  - rewrite length_take. lia.
Qed.

(** ** Lemmas on the abstraction *)

Lemma find_entry_del k k' l :
  find_entry k' (del_entry k l) = if decide (k = k') then None else find_entry k' l.
Proof.
  induction l as [|e l IH]; simpl; [by case_decide|].
  repeat (case_decide; simpl); subst; try congruence.
Qed.

Lemma find_entry_take n k l e :
  find_entry k (take n l) = Some e → find_entry k l = Some e.
Proof.
  revert n. induction l as [|e' l IH]; intros [|n]; simpl; try done.
  case_decide; [done|]. apply IH.
Qed.

Lemma abs_list_lookup l k :
  abs_list l !! k = (λ e, (e_value e, e_now e)) <$> find_entry k l.
Proof.
  unfold abs_list. induction l as [|e l IH]; [done|].
  rewrite fmap_cons. unfold ent_pair at 1. rewrite list_to_map_cons, lookup_insert.
  simpl. destruct (decide (e_key e = k)); [done | exact IH].
Qed.

Lemma abs_list_del k l : abs_list (del_entry k l) = delete k (abs_list l).
Proof.
  apply map_eq. intros k'. rewrite lookup_delete, !abs_list_lookup, find_entry_del.
  by case_decide.
Qed.

Lemma abs_list_take n l : abs_list (take n l) ⊆ abs_list l.
Proof.
  apply map_subseteq_spec. intros k x. rewrite !abs_list_lookup.
  destruct (find_entry k (take n l)) eqn:F; [|done].
  by rewrite (find_entry_take _ _ _ _ F).
Qed.

(** Putting an entry in front of the others of its key is an insert. *)
Lemma abs_list_front e l :
  abs_list (e :: del_entry (e_key e) l) = <[e_key e := (e_value e, e_now e)]> (abs_list l).
Proof.
  unfold abs_list at 1. rewrite fmap_cons. unfold ent_pair at 1.
  rewrite list_to_map_cons.
  fold (abs_list (del_entry (e_key e) l)). rewrite abs_list_del. apply insert_delete_eq.
Qed.

Lemma elem_of_lru_set k v now c e :
  e ∈ lru_list (lru_set k v now c) → e = mk_entry k v now ∨ (e ∈ lru_list c ∧ e_key e ≠ k).
Proof.
  unfold lru_set, trim. simpl. intros He.
  apply elem_of_take in He as (i & Hi & _). apply list_elem_of_lookup_2 in Hi.
  rewrite elem_of_cons, elem_of_del_entry in Hi. naive_solver.
Qed.

#[local] Hint Resolve abs_list_take : anon.

(** C26: Well-formedness (distinct keys, at most [max] entries) is
    preserved by get and by set. *)
Theorem lru_wf_preserved k v now now' c :
  lru_wf c → lru_wf (lru_get k now c).2 ∧ lru_wf (lru_set k v now' c).
Proof. intros Hwf. split; [by apply lru_get_wf | by apply lru_set_wf]. Qed.

(** ** Functional behaviour *)

(** Reading an entry: a hit is a fresh entry of the key. *)
Lemma lru_get_cases k now c :
  lru_get k now c =
    match find_entry k (lru_list c) with
    | None => (None, c)
    | Some e => if is_stale c e now then (None, with_list c (del_entry k (lru_list c)))
               else (Some (e_value e), with_list c (e :: del_entry k (lru_list c)))
    end.
Proof. reflexivity. Qed.

Lemma lru_get_hit_entry k now c v c' :
  lru_get k now c = (Some v, c') →
  ∃ t, mk_entry k v t ∈ lru_list c ∧ (now - t < lru_maxAge c)%Z.
Proof.
  unfold lru_get, is_stale. destruct (find_entry k (lru_list c)) as [e|] eqn:F; [|done].
  apply find_entry_Some in F as [He <-]. case_bool_decide; [done|].
  intros [= <- _]. exists (e_now e). destruct e. split; [done | simpl in *; lia].
Qed.

(** C24: A value set at [now] is gone at [now'] once [maxAge] has elapsed. *)
Theorem lru_get_expired k v now now' c :
  (lru_maxAge c ≤ now' - now)%Z → (lru_get k now' (lru_set k v now c)).1 = None.
Proof.
  intros Hage. unfold lru_get, lru_set, trim, is_stale. simpl.
  destruct (lru_max c); simpl; [done|]. case_decide; [|done].
  simpl. by rewrite bool_decide_true.
Qed.

Lemma lru_set_get_fresh k v now now' c :
  0 < lru_max c → (now' - now < lru_maxAge c)%Z →
  (lru_get k now' (lru_set k v now c)).1 = Some v.
Proof.
  intros Hmax Hage. unfold lru_get, lru_set, trim, is_stale. simpl.
  destruct (lru_max c); simpl; [lia|]. case_decide; [|done].
  simpl. by rewrite bool_decide_false by lia.
Qed.

(** C25: A set of a new key into a full cache drops exactly the least
    recently used entry, the last of the list, and keeps the others in
    their order. *)
Theorem lru_set_evicts_lru k v now c :
  lru_wf c → length (lru_list c) = lru_max c → 0 < lru_max c →
  k ∉ keys (lru_list c) →
  ∃ rest victim, lru_list c = rest ++ [victim] ∧
    lru_list (lru_set k v now c) = mk_entry k v now :: rest.
Proof.
  intros _ Hlen Hpos Hk. unfold lru_set, trim. simpl.
  rewrite del_entry_notin by done.
  destruct (exists_last (l := lru_list c)) as (rest & victim & Hl).
  { intros Hnil. rewrite Hnil in Hlen. simpl in Hlen. lia. }
  exists rest, victim. split; [done|].
  rewrite <- Hlen, Hl, length_app. simpl.
  replace (length rest + 1) with (S (length rest)) by lia. simpl.
  by rewrite take_app_length.
Qed.

(** ** Refinement of the ideal cache *)

(** Every get, hit, miss or expiry, is the ideal get on the abstraction. *)
Lemma lru_get_abs k now c :
  let '(r, c') := lru_get k now c in
  ideal_get (lru_maxAge c) k now (lru_abs c) = (r, lru_abs c').
Proof.
  unfold lru_get, ideal_get, lru_abs, is_stale. rewrite abs_list_lookup.
  destruct (find_entry k (lru_list c)) as [e|] eqn:F; simpl; [|done].
  pose proof (find_entry_Some _ _ _ F) as [_ <-].
  case_bool_decide; simpl.
  - by rewrite abs_list_del.
  - rewrite abs_list_front, insert_id; [done|]. by rewrite abs_list_lookup, F.
Qed.

(** C22: The get of the LRU model refines the ideal get on its
    abstraction: same answer, and the abstraction of the new cache is the
    new ideal map (a stale entry is deleted in both). *)
Theorem lru_get_refines k now c :
  let '(r, c') := lru_get k now c in
  ideal_get (lru_maxAge c) k now (lru_abs c) = (r, lru_abs c').
Proof. exact (lru_get_abs k now c). Qed.

(** A set that evicts nothing is the ideal set on the abstraction. *)
Theorem lru_set_refines k v now c :
  lru_wf c → (length (lru_list c) < lru_max c ∨ k ∈ keys (lru_list c)) →
  lru_abs (lru_set k v now c) = ideal_set k v now (lru_abs c).
Proof.
  intros [Hd Hl] Hroom. unfold lru_set, lru_abs, ideal_set, trim. simpl.
  rewrite take_ge.
  - apply (abs_list_front (mk_entry k v now)).
  - simpl. destruct Hroom as [Hlt|Hin].
    + pose proof (length_del_entry_le k (lru_list c)). lia.
    + pose proof (length_del_entry_in k _ Hd Hin). lia.
Qed.

Lemma lru_sim_init max maxAge : lru_sim (LRU max maxAge) ∅.
Proof.
  split; [split; [constructor | simpl; lia]|]. apply map_subseteq_spec. done.
Qed.

(** C23: Simulation of a set: the cache stays inside the ideal map. *)
Theorem lru_sim_set k v now c m :
  lru_sim c m → lru_sim (lru_set k v now c) (ideal_set k v now m).
Proof.
  intros [Hwf Hsub]. split; [by apply lru_set_wf|].
  unfold lru_set, lru_abs, ideal_set, trim. simpl.
  etrans; [apply abs_list_take|].
  rewrite (abs_list_front (mk_entry k v now)). simpl. by apply insert_mono.
Qed.

(** Simulation of a get: the cache stays inside the ideal map, and a
    hit of the cache is a hit of the ideal map with the same value. *)
Theorem lru_sim_get k now c m :
  lru_sim c m →
  let '(r, c') := lru_get k now c in
  let '(r', m') := ideal_get (lru_maxAge c) k now m in
  lru_sim c' m' ∧ (∀ v, r = Some v → r' = Some v).
Proof.
  intros [Hwf Hsub]. pose proof (lru_get_wf k now c Hwf) as Hwf'.
  pose proof (lru_get_abs k now c) as Href.
  destruct (lru_get k now c) as [r c'] eqn:G. simpl in Hwf', Href.
  unfold lru_sim. unfold ideal_get in *.
  destruct (lru_abs c !! k) as [[v t]|] eqn:A.
  - rewrite (lookup_weaken _ _ _ _ A Hsub).
    case_bool_decide; injection Href as <- Hc; rewrite <- Hc.
    + split; [|done]. split; [done|]. by apply delete_mono.
    + split; [by split|]. naive_solver.
  - injection Href as <- Hc. rewrite <- Hc.
    destruct (m !! k) as [[v' t']|] eqn:M; [case_bool_decide|];
      (split; [split; [done|]|done]).
    + apply map_subseteq_spec. intros i x Hi. rewrite lookup_delete_ne.
      * by eapply lookup_weaken.
      * intros ->. congruence.
    + done.
    + done.
Qed.

End Lru.

Import Lru.

(** ** The lru-cache model implements the store interface *)

#[export] Instance lru_store : RefStore lru := {
  store_get := lru_get;
  store_set := lru_set;
  store_holds c k v := ∃ t, mk_entry k v t ∈ lru_list c;
  store_ttl := lru_maxAge;
  store_ready c := 0 < lru_max c;
}.

Lemma lru_get_list k now c e :
  e ∈ lru_list (lru_get k now c).2 → e ∈ lru_list c.
Proof.
  unfold lru_get. destruct (find_entry k (lru_list c)) as [e'|] eqn:F; [|done].
  apply find_entry_Some in F as [He _].
  case_if; simpl; rewrite ?elem_of_cons, elem_of_del_entry; naive_solver.
Qed.

Lemma lru_get_config k now c :
  lru_max (lru_get k now c).2 = lru_max c ∧ lru_maxAge (lru_get k now c).2 = lru_maxAge c.
Proof. unfold lru_get. destruct (find_entry k (lru_list c)); [case_if|]; done. Qed.

#[export] Instance lru_store_laws : RefStoreLaws lru.
Proof.
  split; simpl.
  - intros k t c v c' G. destruct (lru_get_hit_entry _ _ _ _ _ G) as (t' & He & _). eauto.
  - intros k t c r c' k' v' G [t' He]. exists t'.
    apply (lru_get_list k t). by rewrite G.
  - intros k v t c k' v' [t' He]. apply elem_of_lru_set in He as [[= -> -> ->]|[He _]]; eauto.
  - intros k v t t' c. apply lru_set_get_fresh.
  - intros k t c. by rewrite (proj1 (lru_get_config k t c)), (proj2 (lru_get_config k t c)).
  - done.
Qed.

