(* ===== verification/RefCache.v ===== *)
(** * The cache wrapper of [src/index.js] (lines 35-55)

    [ref_cache_getkey] joins service, user, repository and head with
    ['/'] into one string; [ref_cache_enter] writes only when all its
    arguments are truthy; [ref_cache_read] reads only when the four key
    parts are truthy, and answers [false] (here the answer [None]) for
    a falsy value.  The [+] of [ref_cache_getkey] converts the head, a
    query value, to a string; when that conversion throws, so do
    [ref_cache_read] and [ref_cache_enter], which then return [None]
    before the store is touched.  The functions are stated over any
    store of the [Store] interface, with the time of the call passed
    explicitly (lru-cache reads [Date.now()] itself).

    The key is a plain concatenation, so it decodes back only when the
    first three parts contain no ['/']; otherwise two different
    requests share a key, which [ref_cache_key_collision] shows. *)

From S2P Require Import Prelude Store.

Section RefCache.
Context `{RefStoreLaws C}.

Definition ref_cache_getkey (service user repo head : string) : string :=
  service </> user </> repo </> head.

(** [head] is [req.query.ref], a query value; the [+] of
    [ref_cache_getkey] converts it to a string, and the call throws a
    TypeError ([None]) when the conversion does, before the store is
    touched.  The value is [apiresult.data.object.sha], which may be
    undefined. *)
Definition ref_cache_enter (service user repo : string) (head : QueryVal) (ref : option string)
    (now : Time) (c : C) : option C :=
  match ref with
  | Some r =>
      if str_truthy service && str_truthy user && str_truthy repo && js_truthy head
         && str_truthy r
      then (λ h, store_set (ref_cache_getkey service user repo h) r now c) <$> js_string head
      else Some c
  | None => Some c
  end.

Definition ref_cache_read (service user repo : string) (head : QueryVal) (now : Time) (c : C)
    : option (option string * C) :=
  if str_truthy service && str_truthy user && str_truthy repo && js_truthy head then
    (λ h, let '(r, c') := store_get (ref_cache_getkey service user repo h) now c in
          (if opt_truthy r then r else None, c')) <$> js_string head
  else Some (None, c).

(** The inverse of [ref_cache_getkey], cutting at the first three ['/']. *)
Definition decode_key (k : string) : option (string * string * string * string) :=
  match split_slash k with
  | Some (s, k1) =>
      match split_slash k1 with
      | Some (u, k2) =>
          match split_slash k2 with
          | Some (r, h) => Some (s, u, r, h)
          | None => None
          end
      | None => None
      end
  | None => None
  end.

(** All four key parts are present. *)
Definition key_truthy (service user repo : string) (head : QueryVal) : bool :=
  str_truthy service && str_truthy user && str_truthy repo && js_truthy head.

(** ** The key *)

(** The key decodes back to its four parts when the first three contain no ['/']. *)
Theorem decode_getkey s u r h :
  has_slash s = false → has_slash u = false → has_slash r = false →
  decode_key (ref_cache_getkey s u r h) = Some (s, u, r, h).
Proof.
  intros Hs Hu Hr. unfold decode_key, ref_cache_getkey.
  by rewrite !split_slash_join.
Qed.

(** The key is injective on parts whose first three contain no ['/']. *)
Lemma getkey_inj s u r h s' u' r' h' :
  has_slash s = false → has_slash u = false → has_slash r = false →
  has_slash s' = false → has_slash u' = false → has_slash r' = false →
  ref_cache_getkey s u r h = ref_cache_getkey s' u' r' h' →
  s = s' ∧ u = u' ∧ r = r' ∧ h = h'.
Proof.
  unfold ref_cache_getkey. intros Hs Hu Hr Hs' Hu' Hr' E.
  apply join_inj in E as [-> E]; [|done|done]. apply join_inj in E as [-> E]; [|done|done].
  by apply join_inj in E as [-> ->].
Qed.

(** Every key starts with its service and a separator. *)
Lemma getkey_service s u r h s' u' r' h' :
  has_slash s = false → has_slash s' = false →
  ref_cache_getkey s u r h = ref_cache_getkey s' u' r' h' → s = s'.
Proof. intros Hs Hs' E. by apply join_inj in E as [-> _]. Qed.

(** Two different (repository, branch) pairs of the same user and
    service have the same cache key. *)
Theorem ref_cache_key_collision :
  ref_cache_getkey "gh" "octo" "hello" "feature/x" =
    ref_cache_getkey "gh" "octo" "hello/feature" "x" ∧
  ("hello", "feature/x") ≠ ("hello/feature", "x").
Proof. split; [reflexivity | discriminate]. Qed.

(** ** Writes *)

(** C27: [ref_cache_enter] writes nothing when one of its five arguments is missing or empty. *)
Theorem ref_cache_enter_partial service user repo head ref now c :
  key_truthy service user repo head && opt_truthy ref = false →
  ref_cache_enter service user repo head ref now c = Some c.
Proof.
  unfold key_truthy, ref_cache_enter. destruct ref as [r|]; simpl; [|done].
  intros ->. done.
Qed.

(** A head whose conversion succeeds never makes [ref_cache_enter] throw. *)
Lemma ref_cache_enter_some service user repo head ref now c :
  is_Some (js_string head) → is_Some (ref_cache_enter service user repo head ref now c).
Proof.
  intros [h Hh]. unfold ref_cache_enter. destruct ref; [case_if|]; [|done..].
  rewrite Hh. done.
Qed.

Lemma ref_cache_enter_holds service user repo head ref now c c' k v :
  ref_cache_enter service user repo head ref now c = Some c' → store_holds c' k v →
  (∃ h, js_string head = Some h ∧ k = ref_cache_getkey service user repo h ∧
     ref = Some v ∧ v ≠ "") ∨
  store_holds c k v.
Proof.
  unfold ref_cache_enter. destruct ref as [r|]; [|intros [= <-]; by right].
  case_if; [|intros [= <-]; by right]. rewrite !andb_true_iff in E. destruct E as [_ Hr].
  intros (h & Hh & ->)%fmap_Some Hs. simpl in Hs. apply store_set_holds in Hs as [[-> ->]|Hs]; [|by right].
  left. exists h. split_and!; [done | done | done | by apply str_truthy_iff].
Qed.

Lemma ref_cache_enter_ready service user repo head ref now c c' :
  ref_cache_enter service user repo head ref now c = Some c' → store_ready c → store_ready c'.
Proof.
  unfold ref_cache_enter. destruct ref; [case_if|]; [|by intros [= <-]..].
  intros (h & _ & ->)%fmap_Some. simpl. eauto with anon.
Qed.

(** ** Reads *)

(** [ref_cache_read] with a missing or empty key part answers false and leaves the cache untouched. *)
Theorem ref_cache_read_partial service user repo head now c :
  key_truthy service user repo head = false →
  ref_cache_read service user repo head now c = Some (None, c).
Proof. unfold key_truthy, ref_cache_read. by intros ->. Qed.

(** With a complete key, the read throws exactly when the head does not convert. *)
Lemma ref_cache_read_throws service user repo head now c :
  key_truthy service user repo head = true →
  ref_cache_read service user repo head now c = None ↔ js_string head = None.
Proof. unfold key_truthy, ref_cache_read. intros ->. apply fmap_None. Qed.

(** A read that throws had a complete key. *)
Lemma ref_cache_read_None service user repo head now c :
  ref_cache_read service user repo head now c = None →
  key_truthy service user repo head = true ∧ js_string head = None.
Proof.
  unfold key_truthy, ref_cache_read. case_if; [|done]. intros ?%fmap_None. done.
Qed.

(** A hit is a non-empty value the store holds for the key. *)
Lemma ref_cache_read_hit_holds service user repo head now c v c' :
  ref_cache_read service user repo head now c = Some (Some v, c') →
  v ≠ "" ∧ ∃ h, js_string head = Some h ∧
    store_holds c (ref_cache_getkey service user repo h) v.
Proof.
  unfold ref_cache_read. case_if; [|done]. intros (h & Hh & Hr)%fmap_Some.
  destruct (store_get _ now c) as [r c''] eqn:G.
  destruct (opt_truthy r) eqn:T; [|done]. simplify_eq.
  apply opt_truthy_iff in T as (s & [= ->] & Hs). split; [done|].
  exists h. split; [done|]. by eapply store_get_sound.
Qed.

Lemma ref_cache_read_hit_key service user repo head now c v c' :
  ref_cache_read service user repo head now c = Some (Some v, c') →
  key_truthy service user repo head = true.
Proof. unfold key_truthy, ref_cache_read. by case_if. Qed.

(** The cache after a read that returns. *)
Lemma ref_cache_read_after service user repo head now c r c' :
  ref_cache_read service user repo head now c = Some (r, c') →
  c' = c ∨ ∃ k, c' = (store_get k now c).2.
Proof.
  unfold ref_cache_read. case_if; [|intros [= _ <-]; by left].
  intros (h & _ & Hr)%fmap_Some. right. exists (ref_cache_getkey service user repo h).
  destruct (store_get _ now c). by simplify_eq.
Qed.

Lemma ref_cache_read_holds service user repo head now c r c' k v :
  ref_cache_read service user repo head now c = Some (r, c') →
  store_holds c' k v → store_holds c k v.
Proof.
  intros [->|[k' ->]]%ref_cache_read_after; [done|].
  destruct (store_get k' now c) as [r' c''] eqn:G. simpl. by eapply store_get_holds.
Qed.

Lemma ref_cache_read_ready service user repo head now c r c' :
  ref_cache_read service user repo head now c = Some (r, c') →
  store_ready c → store_ready c'.
Proof.
  intros [->|[k ->]]%ref_cache_read_after; [done|].
  pose proof (store_ready_get k now c). destruct (store_get k now c). eauto.
Qed.

Lemma ref_cache_read_ttl service user repo head now c r c' :
  ref_cache_read service user repo head now c = Some (r, c') → store_ttl c' = store_ttl c.
Proof.
  intros [->|[k ->]]%ref_cache_read_after; [done|].
  pose proof (proj2 (store_get_config k now c)). destruct (store_get k now c). done.
Qed.

(** A value written with a complete key is read back under that key
    while it is younger than the time to live; neither call throws. *)
Lemma ref_cache_enter_read_back service user repo head sha now now' c :
  key_truthy service user repo head = true → is_Some (js_string head) → sha ≠ "" →
  store_ready c → (now' - now < store_ttl c)%Z →
  fst <$> (ref_cache_enter service user repo head (Some sha) now c ≫=
           ref_cache_read service user repo head now') = Some (Some sha).
Proof.
  unfold key_truthy, ref_cache_read, ref_cache_enter. intros Hk [h Hh] Hsha Hr Ht.
  rewrite Hk. apply str_truthy_iff in Hsha. rewrite Hsha, Hh. simpl.
  pose proof (store_set_get (ref_cache_getkey service user repo h) sha now now' c Hr Ht) as G.
  destruct (store_get _ now' _) as [r c'']. simpl in *. subst r. simpl. by rewrite Hsha.
Qed.

(** Two reads with complete keys whose strings are equal read the same entry. *)
Lemma ref_cache_read_key s u r h s' u' r' h' x x' now c :
  key_truthy s u r h = true → key_truthy s' u' r' h' = true →
  js_string h = Some x → js_string h' = Some x' →
  ref_cache_getkey s u r x = ref_cache_getkey s' u' r' x' →
  ref_cache_read s u r h now c = ref_cache_read s' u' r' h' now c.
Proof.
  unfold key_truthy, ref_cache_read. intros -> -> -> -> E. simpl. by rewrite E.
Qed.

(** C28: A hash written with a complete key is read back under that key
    while it is younger than the time to live of the store. *)
Theorem ref_cache_enter_read service user repo head sha now now' c :
  key_truthy service user repo head = true → is_Some (js_string head) → sha ≠ "" →
  store_ready c → (now' - now < store_ttl c)%Z →
  fst <$> (ref_cache_enter service user repo head (Some sha) now c ≫=
           ref_cache_read service user repo head now') = Some (Some sha).
Proof. exact (ref_cache_enter_read_back service user repo head sha now now' c). Qed.

End RefCache.
