(* ===== verification/GhApi.v ===== *)
(** * The GitHub call of [resolve.get] (src/index.js lines 72-90)

    The handler calls [octokit.gitdata.getReference({owner: user,
    repo: repo, ref: "heads/" + req.query.ref}, cb)].  The transport is
    not modelled: the answer is an [ApiOutcome], either an error or a
    result whose [data], [data.object], [data.object.type] and
    [data.object.sha] may each be absent.  [commit_object] is the test
    of lines 78-79. *)

From S2P Require Import Prelude.

(** [apiresult.data.object]: its declared type and its hash. *)
Record GitObject := mk_object { obj_type : option string; obj_sha : option string }.

(** [apiresult.data]. *)
Record RefData := mk_data { data_object : option GitObject }.

(** [apiresult]. *)
Record ApiResult := mk_result { api_data : option RefData }.

(** The two arguments of [cb(error, apiresult)]: a truthy [error], or a
    result. *)
Inductive ApiOutcome :=
| ApiError
| ApiOk (r : ApiResult).

(** The argument object of [octokit.gitdata.getReference]. *)
Record GetReferenceParams := mk_params {
  gp_owner : string;
  gp_repo : string;
  gp_ref : string;
}.

(** [var ref = "heads/" + req.query.ref]: only branches are resolved. *)
Definition gh_ref (origref : string) : string := "heads/" +:+ origref.

Definition get_reference_params (user repo origref : string) : GetReferenceParams :=
  mk_params user repo (gh_ref origref).

(** [apiresult.data && apiresult.data.object
     && apiresult.data.object.type == "commit"]: the object, when the
    test passes. *)
Definition commit_object (r : ApiResult) : option GitObject :=
  match api_data r with
  | Some d =>
      match data_object d with
      | Some o => if decide (obj_type o = Some "commit") then Some o else None
      | None => None
      end
  | None => None
  end.

(** The answer GitHub gives for a branch that points at commit [sha]. *)
Definition commit_answer (sha : string) : ApiOutcome :=
  ApiOk (mk_result (Some (mk_data (Some (mk_object (Some "commit") (Some sha)))))).

Lemma commit_object_Some r o :
  commit_object r = Some o ↔
  api_data r = Some (mk_data (Some o)) ∧ obj_type o = Some "commit".
Proof.
  unfold commit_object. destruct (api_data r) as [[[o'|]]|]; simpl;
    [case_decide| |]; naive_solver.
Qed.

Lemma commit_object_answer sha :
  commit_object (mk_result (Some (mk_data (Some (mk_object (Some "commit") (Some sha)))))) =
  Some (mk_object (Some "commit") (Some sha)).
Proof. reflexivity. Qed.
