(* ===== verification/Resolver.v ===== *)
(** * The request handlers of [src/index.js] (lines 22-31, 58-104)

    [resolve.get] runs in two steps, because the GitHub call is
    asynchronous: [resolve_get] is the handler up to the call (the
    query check, the cache read, the dispatch on the service), and
    returns the response, the pending call, or [Raise] when the
    conversion of the [ref] value to a string throws; [resolve_cb] is
    the callback [cb], run later with the answer and the cache as it is
    then.  [pathderef_get] always answers "Unknown service".  The
    responses are those of [unknown_service], [unknown_repository] and
    [resolve_ref]. *)

From S2P Require Import Prelude Store RefCache GhApi.

(** The JSON bodies: [{ref: ref}] (an undefined [ref] is dropped by
    JSON, giving [{}]) and [{err: msg}]. *)
Inductive Body :=
| BodyRef (ref : option string)
| BodyErr (err : string).

Record Response := mk_response { res_status : Z; res_body : Body }.

Definition unknown_service : Response := mk_response 404 (BodyErr "Unknown service").

Definition unknown_repository : Response :=
  mk_response 404 (BodyErr "Unknown repository/reference").

(** [res.json({ref: ref})], with Express's default status 200. *)
Definition resolve_ref (ref : option string) : Response := mk_response 200 (BodyRef ref).

(** The path parameters and the [ref] query of a request. *)
Record Request := mk_request {
  p_service : string;
  p_user : string;
  p_repo : string;
  q_ref : option QueryVal;
}.

(** [req.query.ref] is truthy: [undefined] and [""] are not. *)
Definition query_truthy (o : option QueryVal) : bool :=
  match o with Some v => js_truthy v | None => false end.

(** What the callback [cb] closes over, and the call it waits for. *)
Record Pending := mk_pending {
  pd_user : string;
  pd_repo : string;
  pd_origref : QueryVal;
  pd_params : GetReferenceParams;
}.

(** What the first step of [resolve.get] ends with: a response, a
    GitHub call whose callback is pending, or an exception thrown out of
    the handler (a query value whose conversion to a string throws),
    which Express's error handler answers. *)
Inductive Outcome :=
| Respond (r : Response)
| Await (p : Pending)
| Raise.

Section Handlers.
Context `{RefStoreLaws C}.

(** [resolve.get] up to the GitHub call. *)
Definition resolve_get (req : Request) (now : Time) (c : C) : Outcome * C :=
  match q_ref req with
  | Some origref =>
      if js_truthy origref then
        match ref_cache_read (p_service req) (p_user req) (p_repo req) origref now c with
        | Some (cached, c1) =>
            if opt_truthy cached then (Respond (resolve_ref cached), c1)
            else if String.eqb (p_service req) "gh" then
              match js_string origref with
              | Some h =>
                  (Await (mk_pending (p_user req) (p_repo req) origref
                            (get_reference_params (p_user req) (p_repo req) h)), c1)
              | None => (Raise, c1)
              end
            else (Respond unknown_service, c1)
        | None => (Raise, c)
        end
      else (Respond unknown_repository, c)
  | None => (Respond unknown_repository, c)
  end.

(** The callback [cb(error, apiresult)]; [None] when [ref_cache_enter]
    throws, before [resolve_ref] runs. *)
Definition resolve_cb (p : Pending) (o : ApiOutcome) (now : Time) (c : C)
    : option (Response * C) :=
  match o with
  | ApiError => Some (unknown_repository, c)
  | ApiOk r =>
      match commit_object r with
      | Some obj =>
          (λ c', (resolve_ref (obj_sha obj), c')) <$>
            ref_cache_enter "gh" (pd_user p) (pd_repo p) (pd_origref p) (obj_sha obj) now c
      | None => Some (unknown_repository, c)
      end
  end.

(** [pathderef.get]. *)
Definition pathderef_get (req : Request) : Response := unknown_service.

(** ** The first step of [resolve.get] *)

Lemma resolve_get_no_ref req now c :
  query_truthy (q_ref req) = false →
  resolve_get req now c = (Respond unknown_repository, c).
Proof. unfold resolve_get. destruct (q_ref req) as [o|]; simpl; [|done]. by intros ->. Qed.

(** A cache hit answers at once: no GitHub call is issued. *)
Lemma resolve_get_hit req origref now c v c1 :
  q_ref req = Some origref →
  ref_cache_read (p_service req) (p_user req) (p_repo req) origref now c = Some (Some v, c1) →
  resolve_get req now c = (Respond (resolve_ref (Some v)), c1).
Proof.
  intros Hq Hr. pose proof (ref_cache_read_hit_key _ _ _ _ _ _ _ _ Hr) as Hk.
  pose proof (ref_cache_read_hit_holds _ _ _ _ _ _ _ _ Hr) as [Hv _].
  unfold key_truthy in Hk. rewrite !andb_true_iff in Hk.
  unfold resolve_get. rewrite Hq. destruct Hk as [_ ->]. rewrite Hr. simpl.
  apply str_truthy_iff in Hv. by rewrite Hv.
Qed.

(** C29: A request without a (non-empty) [ref] query is answered 404
    "Unknown repository/reference" and leaves the cache as it was. *)
Theorem resolve_missing_ref req now c :
  query_truthy (q_ref req) = false →
  resolve_get req now c = (Respond unknown_repository, c).
Proof. exact (resolve_get_no_ref req now c). Qed.

(** A miss for "gh" issues [getReference] for the branch [heads/ref]. *)
Theorem resolve_gh_miss req origref h now c c1 :
  q_ref req = Some origref → js_truthy origref = true → js_string origref = Some h →
  p_service req = "gh" →
  ref_cache_read (p_service req) (p_user req) (p_repo req) origref now c = Some (None, c1) →
  resolve_get req now c =
    (Await (mk_pending (p_user req) (p_repo req) origref
              (mk_params (p_user req) (p_repo req) ("heads/" +:+ h))), c1).
Proof.
  intros Hq Ho Hh Hs Hr. unfold resolve_get. rewrite Hq, Ho, Hr. simpl. by rewrite Hs, Hh.
Qed.

(** C32: The missing-ref check rejects only an absent [ref] and the
    empty string.  An array [ref] whose conversion is the empty string
    ([?ref[]=] gives [[""]]) passes it.  For "gh" with a user and a
    repository, the handler answers a hash the cache holds under the key
    ["gh/user/repo/"], or asks GitHub for the reference ["heads/"]. *)
Theorem resolve_empty_array_ref req l now c :
  q_ref req = Some (QArr l) → js_string (QArr l) = Some "" → p_service req = "gh" →
  p_user req ≠ "" → p_repo req ≠ "" →
  (∃ v, (resolve_get req now c).1 = Respond (resolve_ref (Some v)) ∧
        store_holds c (ref_cache_getkey "gh" (p_user req) (p_repo req) "") v) ∨
  (resolve_get req now c).1 =
    Await (mk_pending (p_user req) (p_repo req) (QArr l) (mk_params (p_user req) (p_repo req) "heads/")).
Proof.
  intros Hq Hh Hs Hu Hr. apply str_truthy_iff in Hu, Hr.
  assert (key_truthy "gh" (p_user req) (p_repo req) (QArr l) = true) as Hk
    by (unfold key_truthy; simpl; by rewrite Hu, Hr).
  destruct (ref_cache_read "gh" (p_user req) (p_repo req) (QArr l) now c) as [[[v|] c1]|] eqn:R.
  - left. exists v. destruct (ref_cache_read_hit_holds _ _ _ _ _ _ _ _ R) as (_ & h & Hh' & Hv).
    rewrite Hh in Hh'. injection Hh' as <-. split; [|done].
    rewrite <- Hs in R. by rewrite (resolve_get_hit _ _ _ _ _ _ Hq R).
  - right. rewrite <- Hs in R. by rewrite (resolve_gh_miss _ _ "" _ _ _ Hq eq_refl Hh Hs R).
  - apply (ref_cache_read_throws _ _ _ _ now c Hk) in R. congruence.
Qed.

(** A miss for any other service is "Unknown service". *)
Lemma resolve_get_other req origref now c c1 :
  q_ref req = Some origref → js_truthy origref = true → p_service req ≠ "gh" →
  ref_cache_read (p_service req) (p_user req) (p_repo req) origref now c = Some (None, c1) →
  resolve_get req now c = (Respond unknown_service, c1).
Proof.
  intros Hq Ho Hs Hr. unfold resolve_get. rewrite Hq, Ho, Hr. simpl.
  destruct (String.eqb_spec (p_service req) "gh"); [done|]. done.
Qed.

(** A cache miss for a service other than "gh" is answered 404
    "Unknown service", and no GitHub call is issued. *)
Theorem resolve_other_miss req origref now c c1 :
  q_ref req = Some origref → js_truthy origref = true → p_service req ≠ "gh" →
  ref_cache_read (p_service req) (p_user req) (p_repo req) origref now c = Some (None, c1) →
  resolve_get req now c = (Respond unknown_service, c1).
Proof. exact (resolve_get_other req origref now c c1). Qed.

(** The exception path of the first step. *)
Lemma resolve_get_raise req now c :
  ((resolve_get req now c).1 = Raise ↔
   ∃ origref, q_ref req = Some origref ∧ js_string origref = None ∧
     (key_truthy (p_service req) (p_user req) (p_repo req) origref = true ∨
      p_service req = "gh")) ∧
  ((resolve_get req now c).1 = Raise → (resolve_get req now c).2 = c).
Proof.
  unfold resolve_get. destruct (q_ref req) as [o|]; [|naive_solver].
  destruct (js_truthy o) eqn:T;
    [|split; [|done]; split; [done|]; intros (? & [= <-] & ?%js_string_None_truthy & _); congruence].
  destruct (key_truthy (p_service req) (p_user req) (p_repo req) o) eqn:K.
  - pose proof (ref_cache_read_throws _ _ _ o now c K) as Ht.
    destruct (ref_cache_read _ _ _ o now c) as [[cached c1]|] eqn:R; [|naive_solver].
    destruct (js_string o) as [h|] eqn:Hh; [|by pose proof (proj2 Ht eq_refl)].
    destruct (opt_truthy cached); [naive_solver|]. case_if; naive_solver.
  - rewrite (ref_cache_read_partial _ _ _ _ now c K). simpl.
    destruct (String.eqb_spec (p_service req) "gh") as [Hgh|Hgh];
      [destruct (js_string o) as [h|] eqn:Hh|]; (split; [split|done]).
    + done.
    + intros (? & [= <-] & Hn & _). congruence.
    + intros _. exists o. split_and!; auto.
    + done.
    + done.
    + intros (? & [= <-] & _ & [?|?]); congruence.
Qed.

(** C8: The first step of [resolve.get] throws exactly when the [ref] query is a value whose
    conversion to a string throws and the handler converts it: for the
    cache key (all four key parts present) or for ["heads/" + ref] (a
    miss for "gh"); the cache is then as it was. *)
Theorem resolve_get_throws req now c :
  ((resolve_get req now c).1 = Raise ↔
   ∃ origref, q_ref req = Some origref ∧ js_string origref = None ∧
     (key_truthy (p_service req) (p_user req) (p_repo req) origref = true ∨
      p_service req = "gh")) ∧
  ((resolve_get req now c).1 = Raise → (resolve_get req now c).2 = c).
Proof. exact (resolve_get_raise req now c). Qed.

(** The cases of the first step, with the cache read it does. *)
Lemma resolve_get_cases req now c :
  resolve_get req now c = (Respond unknown_repository, c) ∨
  (∃ origref, q_ref req = Some origref ∧ js_truthy origref = true ∧
     ((ref_cache_read (p_service req) (p_user req) (p_repo req) origref now c = None ∧
       resolve_get req now c = (Raise, c)) ∨
      ∃ cached c1,
        ref_cache_read (p_service req) (p_user req) (p_repo req) origref now c =
          Some (cached, c1) ∧ (resolve_get req now c).2 = c1)).
Proof.
  unfold resolve_get. destruct (q_ref req) as [o|]; [|by left].
  destruct (js_truthy o) eqn:T; [right|by left]. exists o. split_and!; [done..|].
  destruct (ref_cache_read _ _ _ _ now c) as [[cached c1]|]; [right|by left].
  exists cached, c1. split; [done|].
  destruct (opt_truthy cached); [done|]. case_if; [|done]. by destruct (js_string o).
Qed.

(** The first step only reads the cache: it never adds a pair. *)
Lemma resolve_get_holds req now c k v :
  store_holds (resolve_get req now c).2 k v → store_holds c k v.
Proof.
  destruct (resolve_get_cases req now c) as [->|(o & _ & _ & [[_ ->]|(? & ? & R & ->)])];
    [done|done|]. by apply ref_cache_read_holds with (1 := R).
Qed.

Lemma resolve_get_ready req now c :
  store_ready c → store_ready (resolve_get req now c).2.
Proof.
  destruct (resolve_get_cases req now c) as [->|(o & _ & _ & [[_ ->]|(? & ? & R & ->)])];
    [done|done|]. by apply ref_cache_read_ready with (1 := R).
Qed.

Lemma resolve_get_await req now c p c1 :
  resolve_get req now c = (Await p, c1) →
  p_service req = "gh" ∧ q_ref req = Some (pd_origref p) ∧ js_truthy (pd_origref p) = true ∧
  pd_user p = p_user req ∧ pd_repo p = p_repo req ∧
  ∃ h, js_string (pd_origref p) = Some h ∧
    pd_params p = get_reference_params (pd_user p) (pd_repo p) h.
Proof.
  unfold resolve_get. destruct (q_ref req) as [o|]; [|done]. case_if; [|done].
  destruct (ref_cache_read _ _ _ _ now c) as [[cached c2]|]; [|done].
  destruct (opt_truthy cached); [done|].
  destruct (String.eqb_spec (p_service req) "gh"); [|done].
  destruct (js_string o) as [h|] eqn:Hh; [|done]. intros [= <- _]. eauto 10.
Qed.

(** A hash sent by the first step comes from a cache hit. *)
Lemma resolve_get_ref req now c v c' :
  resolve_get req now c = (Respond (resolve_ref (Some v)), c') →
  ∃ origref, q_ref req = Some origref ∧
    ref_cache_read (p_service req) (p_user req) (p_repo req) origref now c = Some (Some v, c').
Proof.
  unfold resolve_get. destruct (q_ref req) as [o|]; [|done]. case_if; [|done].
  destruct (ref_cache_read _ _ _ _ now c) as [[cached c1]|] eqn:R; [|done].
  destruct (opt_truthy cached) eqn:T.
  - intros [= -> <-]. eauto.
  - case_if; [|done]. by destruct (js_string o).
Qed.

(** ** The callback *)

(** C30: An object that is not a commit (an annotated tag, a tree) is
    "Unknown repository/reference", and nothing is cached. *)
Theorem resolve_cb_not_commit p o now c :
  obj_type o ≠ Some "commit" →
  resolve_cb p (ApiOk (mk_result (Some (mk_data (Some o))))) now c = Some (unknown_repository, c).
Proof. intros Ht. unfold resolve_cb, commit_object. simpl. by case_decide. Qed.

(** A commit answer is sent back and written through to the cache. *)
Lemma resolve_cb_commit_enter p r o sha now c :
  commit_object r = Some o → obj_sha o = Some sha →
  resolve_cb p (ApiOk r) now c =
    (λ c', (resolve_ref (Some sha), c')) <$>
      ref_cache_enter "gh" (pd_user p) (pd_repo p) (pd_origref p) (Some sha) now c.
Proof. intros Hc Hs. unfold resolve_cb. by rewrite Hc, Hs. Qed.

(** C31: Whatever the request and the cache, when GitHub answers with a
    data object of type "commit" without [sha], the callback answers
    status 200 with the body [{ref: undefined}], which JSON sends as
    [{}], and caches nothing. *)
Theorem resolve_cb_commit_without_sha p res obj now c :
  api_data res = Some (mk_data (Some obj)) → obj_type obj = Some "commit" → obj_sha obj = None →
  resolve_cb p (ApiOk res) now c = Some (mk_response 200 (BodyRef None), c).
Proof.
  intros Hd Ht Hs. unfold resolve_cb.
  rewrite (proj2 (commit_object_Some res obj) (conj Hd Ht)), Hs. reflexivity.
Qed.

(** The callback of a request whose [ref] converts never throws. *)
Lemma resolve_cb_some p o now c :
  is_Some (js_string (pd_origref p)) → is_Some (resolve_cb p o now c).
Proof.
  intros Hh. unfold resolve_cb. destruct o as [|r]; [done|].
  destruct (commit_object r); [|done]. apply fmap_is_Some, ref_cache_enter_some, Hh.
Qed.

Lemma resolve_cb_holds p o now c r c' k v :
  resolve_cb p o now c = Some (r, c') → store_holds c' k v →
  (∃ res obj h, o = ApiOk res ∧ commit_object res = Some obj ∧ obj_sha obj = Some v ∧ v ≠ "" ∧
     js_string (pd_origref p) = Some h ∧
     k = ref_cache_getkey "gh" (pd_user p) (pd_repo p) h) ∨
  store_holds c k v.
Proof.
  unfold resolve_cb. destruct o as [|res]; [intros [= _ <-]; by right|].
  destruct (commit_object res) as [obj|] eqn:Hc; [|intros [= _ <-]; by right].
  intros (c1 & E & [= _ ->])%fmap_Some Hh.
  apply (ref_cache_enter_holds _ _ _ _ _ _ _ _ _ _ E) in Hh as [(h & Hh & -> & Hs & Hv)|Hh];
    [|by right].
  left. eauto 10.
Qed.

(** A hash sent by the callback is the [sha] of a commit answer. *)
Lemma resolve_cb_ref p o now c v c' :
  resolve_cb p o now c = Some (resolve_ref (Some v), c') →
  ∃ r obj, o = ApiOk r ∧ commit_object r = Some obj ∧ obj_sha obj = Some v.
Proof.
  unfold resolve_cb. destruct o as [|r]; [done|].
  destruct (commit_object r) as [obj|] eqn:Hc; [|done].
  intros (c1 & _ & [= Hs _])%fmap_Some. eauto.
Qed.

Lemma resolve_cb_ready p o now c r c' :
  resolve_cb p o now c = Some (r, c') → store_ready c → store_ready c'.
Proof.
  unfold resolve_cb. destruct o as [|res]; [by intros [= _ <-]|].
  destruct (commit_object res); [|by intros [= _ <-]].
  intros (c1 & E & [= _ <-])%fmap_Some. by apply ref_cache_enter_ready with (1 := E).
Qed.

(** ** Write-through: a repeated request is answered from the cache *)

(** The callback of a "gh" miss that receives a commit answers with it,
    and leaves a cache that gives it back for the request's own key
    within the time to live. *)
Lemma resolve_cb_then_read req now0 c0 p c1 c sha now now' :
  resolve_get req now0 c0 = (Await p, c1) →
  p_user req ≠ "" → p_repo req ≠ "" → sha ≠ "" →
  store_ready c → (now' - now < store_ttl c)%Z →
  ∃ c', resolve_cb p (commit_answer sha) now c = Some (resolve_ref (Some sha), c') ∧
    ∃ c2, ref_cache_read "gh" (p_user req) (p_repo req) (pd_origref p) now' c' = Some (Some sha, c2).
Proof.
  intros Hg Hu Hr Hsha Hready Httl.
  destruct (resolve_get_await _ _ _ _ _ Hg) as (Hs & Hq & Ho & Hpu & Hpr & h & Hh & _).
  unfold commit_answer. rewrite (resolve_cb_commit_enter p _ _ sha) by done.
  rewrite Hpu, Hpr.
  assert (key_truthy "gh" (p_user req) (p_repo req) (pd_origref p) = true) as Hk.
  { unfold key_truthy. apply str_truthy_iff in Hu, Hr. by rewrite Hu, Hr, Ho. }
  pose proof (ref_cache_enter_read_back _ _ _ _ sha now now' c Hk (mk_is_Some _ _ Hh) Hsha
                Hready Httl) as Hread.
  destruct (ref_cache_enter "gh" (p_user req) (p_repo req) (pd_origref p) (Some sha) now c)
    as [c'|]; [|done]. simpl in Hread. exists c'. split; [done|].
  destruct (ref_cache_read "gh" (p_user req) (p_repo req) (pd_origref p) now' c')
    as [[cached c2]|]; simplify_eq/=. eauto.
Qed.

(** C4: Whatever the cache is when the callback of a "gh" miss receives a
    commit, the callback answers with it without throwing, and the same
    request within the time to live is answered with that commit and
    issues no GitHub call. *)
Theorem resolve_repeat_hits req now0 c0 p c1 c sha now now' :
  resolve_get req now0 c0 = (Await p, c1) →
  p_user req ≠ "" → p_repo req ≠ "" → sha ≠ "" →
  store_ready c → (now' - now < store_ttl c)%Z →
  ∃ c', resolve_cb p (commit_answer sha) now c = Some (resolve_ref (Some sha), c') ∧
    (resolve_get req now' c').1 = Respond (resolve_ref (Some sha)).
Proof.
  intros Hg Hu Hr Hsha Hready Httl.
  destruct (resolve_cb_then_read _ _ _ _ _ _ sha now now' Hg Hu Hr Hsha Hready Httl)
    as (c' & Hcb & c2 & E).
  destruct (resolve_get_await _ _ _ _ _ Hg) as (Hs & Hq & _).
  exists c'. split; [done|]. rewrite <- Hs in E.
  by rewrite (resolve_get_hit req (pd_origref p) now' _ sha c2 Hq E).
Qed.

(** C6: The key collision of [ref_cache_getkey], for every user [u],
    repository [r] and branch [a/b]: once the callback of the "gh"
    request for the branch [a/b] of [u/r] receives the commit [sha], the
    "gh" request for the branch [b] of the other repository [r/a] (a
    [%2F] in the path) is answered [sha] from the cache within the time
    to live, without any GitHub call for it. *)
Theorem resolve_key_collision u r a b now0 c0 p c1 c sha now now' :
  resolve_get (mk_request "gh" u r (Some (QStr (a </> b)))) now0 c0 = (Await p, c1) →
  u ≠ "" → r ≠ "" → b ≠ "" → sha ≠ "" →
  store_ready c → (now' - now < store_ttl c)%Z →
  ∃ c', resolve_cb p (commit_answer sha) now c = Some (resolve_ref (Some sha), c') ∧
    (resolve_get (mk_request "gh" u (r </> a) (Some (QStr b))) now' c').1 =
      Respond (resolve_ref (Some sha)).
Proof.
  intros Hg Hu Hr Hb Hsha Hready Httl.
  destruct (resolve_cb_then_read _ _ _ _ _ _ sha now now' Hg Hu Hr Hsha Hready Httl)
    as (c' & Hcb & c2 & E).
  destruct (resolve_get_await _ _ _ _ _ Hg) as (_ & Hq & _). simpl in Hq, E.
  injection Hq as Ho. rewrite <- Ho in E. exists c'. split; [done|].
  apply str_truthy_iff in Hu, Hr, Hb.
  rewrite (ref_cache_read_key "gh" u r (QStr (a </> b)) "gh" u (r </> a) (QStr b) (a </> b) b)
    in E; [|unfold key_truthy; simpl; by rewrite Hu, Hr, str_truthy_sep |
            unfold key_truthy; simpl; by rewrite Hu, Hb, str_truthy_sep | done | done |].
  - by rewrite (resolve_get_hit (mk_request "gh" u (r </> a) (Some (QStr b))) (QStr b) now' _ sha c2 eq_refl E).
  - unfold ref_cache_getkey. by rewrite !string_app_assoc.
Qed.

End Handlers.
