(* ===== verification/Json.v ===== *)
(** * The JSON text of the responses ([res.json], lines 23-31)

    The handlers answer with [res.json(obj)], which sends
    [JSON.stringify(obj)].  The objects are [{err: msg}] and
    [{ref: ref}]; when [ref] is [undefined] (a commit answer without
    [sha]) [JSON.stringify] drops the field and sends [{}].
    [json_escape] is the QuoteJSONString operation of ECMAScript on the
    UTF-8 bytes of a string: the short escapes, [\u00XX] in lower-case
    hexadecimal for the other control characters, every other byte as
    it is.

    [json_unquote] and [parse_body] are the reader on the client's
    side, for the escapes [JSON.stringify] produces and [\u] escapes of
    ASCII characters.  [parse_body_json_body] is the round trip: a
    client reads back exactly the body the handler built, so the
    [{ref: hash}] it receives carries the hash unchanged. *)

From S2P Require Import Prelude Uri Resolver.
From Stdlib Require Import Ascii.

#[export] Instance Body_eq_dec : EqDecision Body.
Proof. solve_decision. Defined.
#[export] Instance Response_eq_dec : EqDecision Response.
Proof. solve_decision. Defined.

(** The two characters JSON escapes by a backslash and itself. *)
Definition dq : ascii := ascii_of_nat 34.
Definition bsl : ascii := ascii_of_nat 92.

(** A lower-case hexadecimal digit, as [Number.prototype.toString(16)]. *)
Definition hex_lower (v : Z) : ascii :=
  if (v <? 10)%Z then char_of (48 + v)%Z else char_of (87 + v)%Z.

(** QuoteJSONString, one code unit. *)
Definition json_escape_char (c : ascii) : string :=
  let n := byte_of c in
  if (n =? 8)%Z then String bsl "b"
  else if (n =? 9)%Z then String bsl "t"
  else if (n =? 10)%Z then String bsl "n"
  else if (n =? 12)%Z then String bsl "f"
  else if (n =? 13)%Z then String bsl "r"
  else if (n =? 34)%Z then String bsl (String dq "")
  else if (n =? 92)%Z then String bsl (String bsl "")
  else if (n <? 32)%Z then
    String bsl (String "u" (String "0" (String "0"
      (String (hex_lower (n / 16)) (String (hex_lower (n mod 16)) "")))))
  else String c "".

Fixpoint json_escape (s : string) : string :=
  match s with
  | EmptyString => EmptyString
  | String c r => json_escape_char c +:+ json_escape r
  end.

(** A JSON string literal. *)
Definition json_quote (s : string) : string := String dq (json_escape s +:+ String dq "").

(** [JSON.stringify] of the three bodies. *)
Definition json_body (b : Body) : string :=
  match b with
  | BodyRef (Some r) => String "{" (json_quote "ref" +:+ String ":" (json_quote r +:+ "}"))
  | BodyRef None => "{}"
  | BodyErr e => String "{" (json_quote "err" +:+ String ":" (json_quote e +:+ "}"))
  end.

(** ** The client's reader *)

(** The character a one-letter escape stands for. *)
Definition short_escape (e : ascii) : option ascii :=
  if Ascii.eqb e dq then Some dq
  else if Ascii.eqb e bsl then Some bsl
  else if Ascii.eqb e "/"%char then Some "/"%char
  else if Ascii.eqb e "b"%char then Some (ascii_of_nat 8)
  else if Ascii.eqb e "t"%char then Some (ascii_of_nat 9)
  else if Ascii.eqb e "n"%char then Some (ascii_of_nat 10)
  else if Ascii.eqb e "f"%char then Some (ascii_of_nat 12)
  else if Ascii.eqb e "r"%char then Some (ascii_of_nat 13)
  else None.

Definition hex4 (a b c d : ascii) : option Z :=
  match hex_val a, hex_val b, hex_val c, hex_val d with
  | Some w, Some x, Some y, Some z => Some (((w * 16 + x) * 16 + y) * 16 + z)%Z
  | _, _, _, _ => None
  end.

Definition prepend (c : ascii) (o : option (string * string)) : option (string * string) :=
  (λ '(t, r), (String c t, r)) <$> o.

(** The rest of a string literal after its opening quote: the string
    and what follows the closing quote. *)
Fixpoint json_unquote (s : string) : option (string * string) :=
  match s with
  | EmptyString => None
  | String c rest =>
      if Ascii.eqb c dq then Some (EmptyString, rest)
      else if Ascii.eqb c bsl then
        match rest with
        | String e rest' =>
            match short_escape e with
            | Some d => prepend d (json_unquote rest')
            | None =>
                if Ascii.eqb e "u"%char then
                  match rest' with
                  | String h1 (String h2 (String h3 (String h4 rest''))) =>
                      match hex4 h1 h2 h3 h4 with
                      | Some n => if (n <? 128)%Z then prepend (char_of n) (json_unquote rest'')
                                  else None
                      | None => None
                      end
                  | _ => None
                  end
                else None
            end
        | EmptyString => None
        end
      else if (byte_of c <? 32)%Z then None
      else prepend c (json_unquote rest)
  end.

(** The field of a one-field object, after its opening brace. *)
Definition parse_field (s : string) : option (string * string) :=
  match s with
  | String q rest =>
      if Ascii.eqb q dq then
        match json_unquote rest with
        | Some (k, String colon (String q2 rest2)) =>
            if Ascii.eqb colon ":"%char && Ascii.eqb q2 dq then
              match json_unquote rest2 with
              | Some (v, close) => if String.eqb close "}" then Some (k, v) else None
              | None => None
              end
            else None
        | _ => None
        end
      else None
  | EmptyString => None
  end.

Definition parse_body (s : string) : option Body :=
  match s with
  | String o rest =>
      if Ascii.eqb o "{"%char then
        if String.eqb rest "}" then Some (BodyRef None)
        else match parse_field rest with
             | Some (k, v) =>
                 if String.eqb k "ref" then Some (BodyRef (Some v))
                 else if String.eqb k "err" then Some (BodyErr v)
                 else None
             | None => None
             end
      else None
  | EmptyString => None
  end.

(** ** Lemmas *)

(** One escaped character is read back, whatever follows; checked on
    each of the 256 characters. *)
Lemma json_unquote_escape_char c t :
  json_unquote (json_escape_char c +:+ t) = prepend c (json_unquote t).
Proof. destruct c as [[] [] [] [] [] [] [] []]; reflexivity. Qed.

Lemma json_unquote_escape s t : json_unquote (json_escape s +:+ String dq t) = Some (s, t).
Proof.
  induction s as [|c s IH]; [reflexivity|].
  cbn [json_escape]. by rewrite string_app_assoc, json_unquote_escape_char, IH.
Qed.

Lemma json_quote_app s t : json_quote s +:+ t = String dq (json_escape s +:+ String dq t).
Proof. unfold json_quote. rewrite str_app_cons, string_app_assoc. reflexivity. Qed.

Lemma parse_field_quote k v :
  parse_field (json_quote k +:+ String ":" (json_quote v +:+ "}")) = Some (k, v).
Proof.
  rewrite !json_quote_app. unfold parse_field. cbn [Ascii.eqb dq Bool.eqb andb].
  rewrite Ascii.eqb_refl. rewrite json_unquote_escape. cbn [Ascii.eqb dq Bool.eqb andb].
  rewrite json_unquote_escape. reflexivity.
Qed.

(** The reader gives back every body. *)
Lemma json_body_roundtrip b : parse_body (json_body b) = Some b.
Proof.
  destruct b as [[r|]|e]; [|reflexivity|]; unfold json_body, parse_body;
    rewrite (json_quote_app _ (String ":" _)); cbn [Ascii.eqb Bool.eqb dq String.eqb];
    rewrite <- json_quote_app, parse_field_quote; reflexivity.
Qed.

(** ** Theorems *)

(** C11: Round trip of the response bodies: the client's reader gives back
    exactly the body [res.json] was called with, for every hash and
    every message, the body [{}] of a commit without [sha] included;
    so two different bodies are never sent as the same text. *)
Theorem parse_body_json_body b b' :
  parse_body (json_body b) = Some b ∧ (json_body b = json_body b' → b = b').
Proof.
  split; [apply json_body_roundtrip|]. intros E.
  pose proof (json_body_roundtrip b) as Hb. rewrite E, json_body_roundtrip in Hb. by injection Hb.
Qed.
