(* ===== verification/Routes.v ===== *)
(** * The route table of [src/index.js] (lines 115-131)

    [openapi_args.paths] maps the templates
    ["/{service}/{user}/{repo}/resolve"] and
    ["/{service}/{user}/{repo}/pathderef"] to the modules [resolve] and
    [pathderef].  express-openapi prefixes each template with the base
    path of the API document ([api.json], which is not in the
    repository, so the base path is a parameter [base] here) and hands
    it to Express with [{x}] written [:x].  Express matches a request
    path against it as path-to-regexp does with Express's defaults:
    segment by segment, literals without regard to ASCII case, each
    parameter a non-empty segment, one trailing ['/'] allowed.  It then
    decodes each parameter with [decodeURIComponent] ([Uri]); a
    [URIError] becomes a 400 answer and the handler is not called.

    [route] is the outcome for a request path and its [ref] query: the
    handler called with its [req.params] and [req.query.ref], a 400, or
    no route of the table (Express or express-openapi answer it
    without the application's code). *)

From S2P Require Import Prelude Uri Resolver.
From Stdlib Require Import Ascii.

(** A segment of a route template. *)
Inductive Seg :=
| Lit (s : string)
| Param (name : string).

#[export] Instance Seg_eq_dec : EqDecision Seg.
Proof. solve_decision. Defined.

(** The modules of [openapi_args.paths]. *)
Inductive Handler := HResolve | HPathderef.

#[export] Instance Handler_eq_dec : EqDecision Handler.
Proof. solve_decision. Defined.

(** Lines 118-128. *)
Definition openapi_paths : list (string * Handler) :=
  [("/{service}/{user}/{repo}/resolve", HResolve);
   ("/{service}/{user}/{repo}/pathderef", HPathderef)].

(** A request as it reaches Express: its path and its [ref] query. *)
Record HttpReq := mk_http { h_path : string; h_ref : option QueryVal }.

(** What Express does with a request. *)
Inductive Route :=
| RouteTo (h : Handler) (req : Request)
| RouteBadParam
| RouteNone.

(** The segments between the ['/'] of a string. *)
Fixpoint split_segments (s : string) : list string :=
  match s with
  | EmptyString => [EmptyString]
  | String c r =>
      if Ascii.eqb c slash then EmptyString :: split_segments r
      else match split_segments r with
           | seg :: segs => String c seg :: segs
           | [] => [String c EmptyString]
           end
  end.

Fixpoint ends_with_brace (s : string) : option string :=
  match s with
  | EmptyString => None
  | String c EmptyString => if Ascii.eqb c "}"%char then Some EmptyString else None
  | String c r => String c <$> ends_with_brace r
  end.

(** ["{name}"] is a parameter, any other segment a literal. *)
Definition parse_seg (seg : string) : Seg :=
  match seg with
  | String c r =>
      if Ascii.eqb c "{"%char then
        match ends_with_brace r with
        | Some name => Param name
        | None => Lit seg
        end
      else Lit seg
  | EmptyString => Lit seg
  end.

Definition template (base path : string) : list Seg :=
  parse_seg <$> split_segments (base +:+ path).

(** ASCII case folding, as the [i] flag of the route's regular expression. *)
Definition lower_char (c : ascii) : ascii :=
  let n := nat_of_ascii c in
  if (65 <=? n) && (n <=? 90) then ascii_of_nat (n + 32) else c.

Fixpoint lower (s : string) : string :=
  match s with
  | EmptyString => EmptyString
  | String c r => String (lower_char c) (lower r)
  end.

(** The match of path segments against a template: the raw parameters. *)
Fixpoint match_segs (t : list Seg) (ps : list string) : option (list (string * string)) :=
  match t, ps with
  | [], [] => Some []
  | [], [EmptyString] => Some []
  | Lit l :: t', p :: ps' => if String.eqb (lower l) (lower p) then match_segs t' ps' else None
  | Param n :: t', p :: ps' => if str_truthy p then (λ m, (n, p) :: m) <$> match_segs t' ps' else None
  | _, _ => None
  end.

(** [decode_param] on each parameter. *)
Definition decode_params (ps : list (string * string)) : option (list (string * string)) :=
  mapM (λ '(n, v), pair n <$> decodeURIComponent v) ps.

(** [req.params[n]]. *)
Fixpoint param (ps : list (string * string)) (n : string) : string :=
  match ps with
  | [] => EmptyString
  | (k, v) :: ps' => if String.eqb k n then v else param ps' n
  end.

Definition request_of (ps : list (string * string)) (ref : option QueryVal) : Request :=
  mk_request (param ps "service") (param ps "user") (param ps "repo") ref.

(** The first path of the table that matches, as Express tries them. *)
Fixpoint route_in (base : string) (table : list (string * Handler)) (h : HttpReq) : Route :=
  match table with
  | [] => RouteNone
  | (p, hd) :: table' =>
      match match_segs (template base p) (split_segments (h_path h)) with
      | Some ps =>
          match decode_params ps with
          | Some ps' => RouteTo hd (request_of ps' (h_ref h))
          | None => RouteBadParam
          end
      | None => route_in base table' h
      end
  end.

Definition route (base : string) (h : HttpReq) : Route := route_in base openapi_paths h.

(** The base path has only literal segments. *)
Definition base_literal (base : string) : bool :=
  forallb (λ seg, bool_decide (parse_seg seg = Lit seg)) (split_segments base).

(** The path a client builds for the [resolve] or [pathderef] of a
    repository, encoding each parameter. *)
Definition client_url (base service user repo op : string) : string :=
  base +:+ "/" +:+ encodeURIComponent service +:+ "/" +:+ encodeURIComponent user +:+ "/" +:+
  encodeURIComponent repo +:+ "/" +:+ op.

(** The path of a request for [op]: the base path, the three raw
    parameters, the final literal and maybe one trailing ['/']. *)
Definition trail (trailing : bool) : string := if trailing then "/" else "".

Definition op_path (base s u r lit : string) (trailing : bool) : string :=
  base +:+ "/" +:+ s +:+ "/" +:+ u +:+ "/" +:+ r +:+ "/" +:+ lit +:+ trail trailing.

(** ** Segments *)

Lemma str_app_nil_r (s : string) : s +:+ "" = s.
Proof. induction s as [|c s IH]; [done|]. by rewrite str_app_cons, IH. Qed.

Lemma split_segments_nonempty s : split_segments s ≠ [].
Proof.
  induction s as [|c s IH]; simpl; [done|].
  destruct (Ascii.eqb c slash); [done|]. by destruct (split_segments s).
Qed.

Lemma split_segments_app a b :
  split_segments (a +:+ "/" +:+ b) = split_segments a ++ split_segments b.
Proof.
  induction a as [|c a IH]; [done|]. rewrite str_app_cons. simpl.
  destruct (Ascii.eqb c slash); [by rewrite IH|].
  rewrite IH. pose proof (split_segments_nonempty a).
  by destruct (split_segments a).
Qed.

Lemma split_segments_no_slash s : has_slash s = false → split_segments s = [s].
Proof.
  induction s as [|c s IH]; simpl; [done|].
  destruct (Ascii.ascii_dec c slash) as [->|Hc]; [done|]. intros Hs.
  destruct (Ascii.eqb_spec c slash); [done|]. by rewrite IH.
Qed.

Lemma split_op_path base s u r lit trailing :
  has_slash s = false → has_slash u = false → has_slash r = false → has_slash lit = false →
  split_segments (op_path base s u r lit trailing) =
    split_segments base ++ [s; u; r; lit] ++ (if trailing then [""] else []).
Proof.
  intros Hs Hu Hr Hl. unfold op_path, trail.
  rewrite !split_segments_app, (split_segments_no_slash s), (split_segments_no_slash u),
    (split_segments_no_slash r) by done.
  destruct trailing.
  - change (lit +:+ "/") with (lit +:+ "/" +:+ ""). rewrite split_segments_app.
    by rewrite (split_segments_no_slash lit).
  - by rewrite str_app_nil_r, (split_segments_no_slash lit).
Qed.

(** The template of a path of the table, under any base path. *)
Lemma template_app base p :
  template base ("/" +:+ p) = (parse_seg <$> split_segments base) ++ (parse_seg <$> split_segments p).
Proof. unfold template. by rewrite split_segments_app, fmap_app. Qed.

Lemma base_literal_template base :
  base_literal base = true → parse_seg <$> split_segments base = Lit <$> split_segments base.
Proof.
  unfold base_literal. rewrite forallb_forall. intros Hb.
  apply list_fmap_ext. intros i seg Hi. apply list_elem_of_lookup_2 in Hi.
  apply list_elem_of_In in Hi. specialize (Hb seg Hi). by apply bool_decide_eq_true in Hb.
Qed.

Lemma String_eqb_lower_refl l : String.eqb (lower l) (lower l) = true.
Proof. apply String.eqb_refl. Qed.

Lemma match_segs_lits l t ps : match_segs ((Lit <$> l) ++ t) (l ++ ps) = match_segs t ps.
Proof. induction l as [|seg l IH]; [done|]. simpl. by rewrite String_eqb_lower_refl. Qed.

(** A literal of the template is matched by the segment at its position. *)
Lemma match_segs_lit_at t ps m i l :
  match_segs t ps = Some m → t !! i = Some (Lit l) →
  ∃ p, ps !! i = Some p ∧ lower l = lower p.
Proof.
  revert ps m i. induction t as [|sg t IH]; intros ps m i Hm Hi; [done|].
  destruct ps as [|p ps]; [by destruct sg; simpl in Hm|]. destruct i as [|i]; simpl in Hi.
  - simplify_eq. simpl in Hm. destruct (String.eqb_spec (lower l) (lower p)); [|done].
    by exists p.
  - destruct sg as [l'|n]; simpl in Hm.
    + destruct (String.eqb (lower l') (lower p)); [|done]. exact (IH ps m i Hm Hi).
    + destruct (str_truthy p); [|done].
      apply fmap_Some in Hm as (m' & Hm & _). exact (IH ps m' i Hm Hi).
Qed.

(** The two paths of the table, under any base path. *)
Lemma template_op base op :
  op = "resolve" ∨ op = "pathderef" →
  template base ("/{service}/{user}/{repo}/" +:+ op) =
    (parse_seg <$> split_segments base) ++ [Param "service"; Param "user"; Param "repo"; Lit op].
Proof.
  intros Hop. change ("/{service}/{user}/{repo}/" +:+ op) with ("/" +:+ ("{service}/{user}/{repo}/" +:+ op)).
  rewrite template_app. by destruct Hop as [->| ->].
Qed.

Lemma openapi_paths_ops :
  openapi_paths = [("/{service}/{user}/{repo}/" +:+ "resolve", HResolve);
                   ("/{service}/{user}/{repo}/" +:+ "pathderef", HPathderef)].
Proof. reflexivity. Qed.

Lemma match_op_path base s u r lit trailing op :
  base_literal base = true → s ≠ "" → u ≠ "" → r ≠ "" →
  has_slash s = false → has_slash u = false → has_slash r = false → has_slash lit = false →
  match_segs ((parse_seg <$> split_segments base) ++ [Param "service"; Param "user"; Param "repo"; Lit op])
    (split_segments (op_path base s u r lit trailing)) =
  if String.eqb (lower op) (lower lit) then Some [("service", s); ("user", u); ("repo", r)] else None.
Proof.
  intros Hb Hs Hu Hr Hs' Hu' Hr' Hl.
  rewrite split_op_path, base_literal_template, match_segs_lits by done.
  apply str_truthy_iff in Hs, Hu, Hr. simpl. rewrite Hs, Hu, Hr.
  destruct (String.eqb (lower op) (lower lit)); [|done]. by destruct trailing.
Qed.

Lemma decode_params_three s u r :
  decode_params [("service", s); ("user", u); ("repo", r)] =
  match decodeURIComponent s, decodeURIComponent u, decodeURIComponent r with
  | Some s', Some u', Some r' => Some [("service", s'); ("user", u'); ("repo", r')]
  | _, _, _ => None
  end.
Proof.
  unfold decode_params. simpl.
  destruct (decodeURIComponent s), (decodeURIComponent u), (decodeURIComponent r); done.
Qed.

Lemma lower_resolve : lower "resolve" = "resolve".
Proof. reflexivity. Qed.

Lemma lower_pathderef : lower "pathderef" = "pathderef".
Proof. reflexivity. Qed.

Section RouteTheorems.
Variables (base s u r lit : string) (trailing : bool) (ref : option QueryVal).
Hypothesis base_lit : base_literal base = true.
Hypotheses (Hs : s ≠ "") (Hu : u ≠ "") (Hr : r ≠ "").
Hypotheses (Hs' : has_slash s = false) (Hu' : has_slash u = false) (Hr' : has_slash r = false).
Hypothesis Hl : has_slash lit = false.

Lemma route_op_path :
  route base (mk_http (op_path base s u r lit trailing) ref) =
  if String.eqb "resolve" (lower lit) then
    match decode_params [("service", s); ("user", u); ("repo", r)] with
    | Some ps => RouteTo HResolve (request_of ps ref)
    | None => RouteBadParam
    end
  else if String.eqb "pathderef" (lower lit) then
    match decode_params [("service", s); ("user", u); ("repo", r)] with
    | Some ps => RouteTo HPathderef (request_of ps ref)
    | None => RouteBadParam
    end
  else RouteNone.
Proof.
  unfold route. rewrite openapi_paths_ops. cbn [route_in h_path h_ref].
  rewrite !template_op by auto. rewrite !match_op_path by done.
  rewrite lower_resolve, lower_pathderef.
  destruct (String.eqb "resolve" (lower lit)); [done|].
  by destruct (String.eqb "pathderef" (lower lit)).
Qed.

(** C18: A path made of the base path, three non-empty segments and a last
    segment equal to resolve up to ASCII case, with at most one trailing
    slash, reaches [resolve.get] with the three segments decoded. *)
Theorem route_resolve s'' u'' r'' :
  lower lit = "resolve" →
  decodeURIComponent s = Some s'' → decodeURIComponent u = Some u'' → decodeURIComponent r = Some r'' →
  route base (mk_http (op_path base s u r lit trailing) ref) = RouteTo HResolve (mk_request s'' u'' r'' ref).
Proof.
  intros Hlit Ds Du Dr. rewrite route_op_path, Hlit, decode_params_three, Ds, Du, Dr.
  reflexivity.
Qed.

(** A path made of the base path, three non-empty segments and a last
    segment equal to pathderef up to ASCII case reaches [pathderef.get]
    with the three segments decoded. *)
Theorem route_pathderef s'' u'' r'' :
  lower lit = "pathderef" →
  decodeURIComponent s = Some s'' → decodeURIComponent u = Some u'' → decodeURIComponent r = Some r'' →
  route base (mk_http (op_path base s u r lit trailing) ref) = RouteTo HPathderef (mk_request s'' u'' r'' ref).
Proof.
  intros Hlit Ds Du Dr. rewrite route_op_path, Hlit, decode_params_three, Ds, Du, Dr.
  reflexivity.
Qed.

(** C19: If one of the three parameters of a resolve or pathderef path is
    not a valid percent-encoding, Express answers 400 and no handler runs. *)
Theorem route_bad_param :
  lower lit = "resolve" ∨ lower lit = "pathderef" →
  decodeURIComponent s = None ∨ decodeURIComponent u = None ∨ decodeURIComponent r = None →
  route base (mk_http (op_path base s u r lit trailing) ref) = RouteBadParam.
Proof.
  intros Hlit Hd. rewrite route_op_path, decode_params_three.
  destruct (decodeURIComponent s), (decodeURIComponent u), (decodeURIComponent r);
    try (destruct Hlit as [->| ->]; reflexivity).
  by destruct Hd as [?|[?|?]].
Qed.

End RouteTheorems.

(** A client that encodes service, user and repository with
    [encodeURIComponent] reaches [resolve.get] with exactly those strings,
    slashes included. *)
Theorem route_roundtrip base s u r ref :
  base_literal base = true → s ≠ "" → u ≠ "" → r ≠ "" →
  is_ascii s = true → is_ascii u = true → is_ascii r = true →
  route base (mk_http (client_url base s u r "resolve") ref) = RouteTo HResolve (mk_request s u r ref).
Proof.
  intros Hb Hs Hu Hr As Au Ar.
  change (client_url base s u r "resolve") with
    (op_path base (encodeURIComponent s) (encodeURIComponent u) (encodeURIComponent r) "resolve" false).
  apply route_resolve; auto using encode_nonempty, has_slash_encode, decode_encode_ascii.
Qed.

(** The two paths of the table never match the same request. *)
Lemma table_exclusive base ps m1 m2 :
  match_segs (template base ("/{service}/{user}/{repo}/" +:+ "resolve")) ps = Some m1 →
  match_segs (template base ("/{service}/{user}/{repo}/" +:+ "pathderef")) ps = Some m2 → False.
Proof.
  rewrite !template_op by auto. intros H1 H2.
  set (i := length (parse_seg <$> split_segments base) + 3).
  assert (∀ op, ((parse_seg <$> split_segments base) ++ [Param "service"; Param "user"; Param "repo"; Lit op])
                  !! i = Some (Lit op)) as Hi.
  { intros op. subst i. rewrite lookup_app_r by lia. by rewrite Nat.add_sub_swap, Nat.sub_diag by lia. }
  destruct (match_segs_lit_at _ _ _ i _ H1 (Hi _)) as (p1 & E1 & L1).
  destruct (match_segs_lit_at _ _ _ i _ H2 (Hi _)) as (p2 & E2 & L2).
  rewrite E1 in E2. injection E2 as <-. rewrite <- L1 in L2. discriminate.
Qed.

(** C20: The two paths of the table never match the same request, so the
    order in which they are registered does not change the routing. *)
Theorem route_order base h : route_in base (reverse openapi_paths) h = route base h.
Proof.
  unfold route. rewrite openapi_paths_ops. cbn [reverse rev_append route_in].
  destruct (match_segs (template base (_ +:+ "pathderef")) _) as [m2|] eqn:E2;
  destruct (match_segs (template base (_ +:+ "resolve")) _) as [m1|] eqn:E1; try done.
  exfalso. by eapply table_exclusive.
Qed.
