(* ===== verification/Server.v ===== *)
(** * The server: concurrent requests over one shared cache

    Express runs many [resolve.get] handlers at once; each one runs
    without interruption up to its GitHub call, and its callback runs
    later, between any two other steps.  [ServerState] holds the shared
    [ref_cache], the callbacks still waiting (by request number), the
    requests received, the responses sent and the answers GitHub gave.
    [server_request] is a request arriving and running its first step
    ([None] when the handler throws: the application is left as it was
    and Express answers), [server_callback] the callback of a waiting
    request receiving an answer.  [step] lets any request arrive, and any waiting callback
    receive any answer, at any time, in any order.

    The theorems hold in every reachable state: every value the cache
    may return, and every hash sent to a client, was announced by
    GitHub as the commit of a branch whose key equals the request's
    key, in the very words of the answers GitHub gave ([confirmed]
    states the call's parameters, the type ["commit"] and the hash
    literally); and a request for another service is never answered
    with a hash, whatever the cache holds. *)

From stdpp Require Import gmap.
From S2P Require Import Prelude Store LruCache RefCache GhApi Resolver.

Record ServerState (C : Type) := mk_server {
  sv_cache : C;
  sv_next : nat;
  sv_pending : gmap nat Pending;
  sv_requests : gmap nat Request;
  sv_sent : list (nat * Response);
  sv_log : list (GetReferenceParams * ApiOutcome);
}.
Arguments mk_server {C}.
Arguments sv_cache {C}.
Arguments sv_next {C}.
Arguments sv_pending {C}.
Arguments sv_requests {C}.
Arguments sv_sent {C}.
Arguments sv_log {C}.

Section Server.
Context `{RefStoreLaws C}.

(** The process right after start-up, with the cache [c]. *)
Definition server_init (c : C) : ServerState C := mk_server c 0 ∅ ∅ [] [].

(** Request number [sv_next s] arrives and runs up to the GitHub call.
    [None]: the handler throws; the exception leaves the application,
    whose state it did not change ([resolve_get_throws]), and Express
    answers the request. *)
Definition server_request (req : Request) (now : Time) (s : ServerState C)
    : option (ServerState C) :=
  let i := sv_next s in
  let reqs := <[i := req]> (sv_requests s) in
  match resolve_get req now (sv_cache s) with
  | (Respond r, c') => Some (mk_server c' (S i) (sv_pending s) reqs ((i, r) :: sv_sent s) (sv_log s))
  | (Await p, c') => Some (mk_server c' (S i) (<[i := p]> (sv_pending s)) reqs (sv_sent s) (sv_log s))
  | (Raise, _) => None
  end.

(** GitHub answers [o] to the call of request [i]; its callback runs.
    When the callback throws, it sends nothing; this never happens in a
    reachable state, since the [ref] of a waiting call converts
    ([pending_ok]). *)
Definition server_callback (i : nat) (o : ApiOutcome) (now : Time) (s : ServerState C)
    : option (ServerState C) :=
  match sv_pending s !! i with
  | Some p =>
      match resolve_cb p o now (sv_cache s) with
      | Some (r, c') =>
          Some (mk_server c' (sv_next s) (delete i (sv_pending s)) (sv_requests s)
                  ((i, r) :: sv_sent s) ((pd_params p, o) :: sv_log s))
      | None =>
          Some (mk_server (sv_cache s) (sv_next s) (delete i (sv_pending s)) (sv_requests s)
                  (sv_sent s) ((pd_params p, o) :: sv_log s))
      end
  | None => None
  end.

Inductive step : ServerState C → ServerState C → Prop :=
| step_request req now s s' : server_request req now s = Some s' → step s s'
| step_callback i o now s s' : server_callback i o now s = Some s' → step s s'.

Definition reachable (c0 : C) (s : ServerState C) : Prop := rtc step (server_init c0) s.

(** GitHub announced [v] as the commit of branch [h] of [u/r]: it
    answered the call for [{owner: u, repo: r, ref: "heads/" + h}] with a
    data object of type "commit" whose [sha] is [v]. *)
Definition confirmed (log : list (GetReferenceParams * ApiOutcome)) (u r h v : string) : Prop :=
  ∃ res obj, (mk_params u r ("heads/" +:+ h), ApiOk res) ∈ log ∧
    api_data res = Some (mk_data (Some obj)) ∧ obj_type obj = Some "commit" ∧ obj_sha obj = Some v.

(** The cache holds only confirmed values, under the key of the branch. *)
Definition cache_confirmed (s : ServerState C) : Prop :=
  ∀ k v, store_holds (sv_cache s) k v →
    v ≠ "" ∧ ∃ u r h, k = ref_cache_getkey "gh" u r h ∧ confirmed (sv_log s) u r h v.

(** A waiting callback belongs to a "gh" request and asks for its branch. *)
Definition pending_ok (s : ServerState C) : Prop :=
  ∀ i p, sv_pending s !! i = Some p → ∃ req,
    sv_requests s !! i = Some req ∧ p_service req = "gh" ∧
    q_ref req = Some (pd_origref p) ∧ pd_user p = p_user req ∧ pd_repo p = p_repo req ∧
    ∃ h, js_string (pd_origref p) = Some h ∧
      pd_params p = get_reference_params (pd_user p) (pd_repo p) h.

(** A hash sent to a client was confirmed under the request's key. *)
Definition answers_confirmed (s : ServerState C) : Prop :=
  ∀ i v, (i, resolve_ref (Some v)) ∈ sv_sent s → ∃ req origref head,
    sv_requests s !! i = Some req ∧ q_ref req = Some origref ∧ js_string origref = Some head ∧
    ∃ u r h, ref_cache_getkey "gh" u r h =
               ref_cache_getkey (p_service req) (p_user req) (p_repo req) head ∧
             confirmed (sv_log s) u r h v.

(** Request numbers: each request received is waiting or answered,
    never both, and answered at most once. *)
Definition requests_ok (s : ServerState C) : Prop :=
  (∀ i, is_Some (sv_requests s !! i) ↔ i < sv_next s) ∧
  (∀ i, is_Some (sv_pending s !! i) ∨ i ∈ (sv_sent s).*1 ↔ i < sv_next s) ∧
  (∀ i, is_Some (sv_pending s !! i) → i ∉ (sv_sent s).*1) ∧
  NoDup (sv_sent s).*1.

(** ** What one step does *)

Lemma server_request_spec req now s s' :
  server_request req now s = Some s' →
  sv_next s' = S (sv_next s) ∧ sv_requests s' = <[sv_next s := req]> (sv_requests s) ∧
  sv_log s' = sv_log s ∧
  ((∃ r, resolve_get req now (sv_cache s) = (Respond r, sv_cache s') ∧
         sv_pending s' = sv_pending s ∧ sv_sent s' = (sv_next s, r) :: sv_sent s) ∨
   (∃ p, resolve_get req now (sv_cache s) = (Await p, sv_cache s') ∧
         sv_pending s' = <[sv_next s := p]> (sv_pending s) ∧ sv_sent s' = sv_sent s)).
Proof.
  unfold server_request. destruct (resolve_get req now (sv_cache s)) as [[r|p|] c']; [..|done];
    intros [= <-]; simpl; split_and!; eauto.
Qed.

(** A request is refused by the application exactly when its handler throws. *)
Lemma server_request_None req now s :
  server_request req now s = None ↔ (resolve_get req now (sv_cache s)).1 = Raise.
Proof. unfold server_request. by destruct (resolve_get req now (sv_cache s)) as [[]]. Qed.

(** What a callback does to the request numbers, whatever it sends. *)
Lemma server_callback_common i o now s s' :
  server_callback i o now s = Some s' →
  ∃ p, sv_pending s !! i = Some p ∧ sv_next s' = sv_next s ∧ sv_requests s' = sv_requests s ∧
    sv_pending s' = delete i (sv_pending s) ∧ sv_log s' = (pd_params p, o) :: sv_log s ∧
    ((∃ r, resolve_cb p o now (sv_cache s) = Some (r, sv_cache s') ∧
           sv_sent s' = (i, r) :: sv_sent s) ∨
     (resolve_cb p o now (sv_cache s) = None ∧ sv_cache s' = sv_cache s ∧
      sv_sent s' = sv_sent s)).
Proof.
  unfold server_callback. destruct (sv_pending s !! i) as [p|] eqn:P; [|done].
  destruct (resolve_cb p o now (sv_cache s)) as [[r c']|] eqn:G; intros [= <-]; exists p;
    simpl; split_and!; eauto.
Qed.

(** The callback of a waiting call sends its response. *)
Lemma server_callback_spec i o now s s' :
  pending_ok s → server_callback i o now s = Some s' →
  ∃ p r, sv_pending s !! i = Some p ∧ resolve_cb p o now (sv_cache s) = Some (r, sv_cache s') ∧
    sv_next s' = sv_next s ∧ sv_requests s' = sv_requests s ∧
    sv_pending s' = delete i (sv_pending s) ∧ sv_sent s' = (i, r) :: sv_sent s ∧
    sv_log s' = (pd_params p, o) :: sv_log s.
Proof.
  intros HP. unfold server_callback. destruct (sv_pending s !! i) as [p|] eqn:P; [|done].
  destruct (HP i p P) as (_ & _ & _ & _ & _ & _ & h & Hh & _).
  destruct (resolve_cb_some p o now (sv_cache s) (mk_is_Some _ _ Hh)) as [[r c'] G].
  rewrite G. intros [= <-]. exists p, r. by simpl.
Qed.

(** The request number of a response. *)
Lemma sent_id (i : nat) (r : Response) (l : list (nat * Response)) : (i, r) ∈ l → i ∈ l.*1.
Proof. intros Hin. apply list_elem_of_fmap. by exists (i, r). Qed.

Lemma confirmed_cons x log u r h v :
  confirmed log u r h v → confirmed (x :: log) u r h v.
Proof. intros (res & obj & Hin & Hc). exists res, obj. split; [by right|done]. Qed.

(** The commit answer a callback receives confirms its branch. *)
Lemma confirmed_answer log p h res obj v :
  pd_params p = get_reference_params (pd_user p) (pd_repo p) h →
  commit_object res = Some obj → obj_sha obj = Some v →
  confirmed ((pd_params p, ApiOk res) :: log) (pd_user p) (pd_repo p) h v.
Proof.
  intros Hpar [Hd Ht]%commit_object_Some Hs. exists res, obj. rewrite Hpar.
  split_and!; [by left | done..].
Qed.

#[local] Hint Resolve confirmed_cons : anon.

(** ** Request numbers *)

Lemma cover_succ (P Q : Prop) (n i : nat) : (P ∨ Q ↔ i < n) → (i = n ∨ P ∨ Q ↔ i < S n).
Proof. intros HPQ. destruct (decide (i = n)) as [->|Hne]; [split; [lia|auto]|]. rewrite HPQ. lia. Qed.

Lemma requests_ok_init c : requests_ok (server_init c).
Proof.
  unfold requests_ok, server_init. simpl. split_and!.
  - intros j. rewrite lookup_empty. split; [by intros ?%is_Some_None | lia].
  - intros j. rewrite lookup_empty. split; [by intros [?%is_Some_None|?%elem_of_nil] | lia].
  - intros j. rewrite lookup_empty. by intros ?%is_Some_None.
  - constructor.
Qed.

Lemma requests_ok_request req now s s' :
  requests_ok s → server_request req now s = Some s' → requests_ok s'.
Proof.
  intros (R1 & R2 & R3 & R4) Hs.
  destruct (server_request_spec req now s s' Hs) as (Hn & Hr & _ & Hcase).
  unfold requests_ok. rewrite Hn, Hr.
  assert (sv_next s ∉ (sv_sent s).*1) as Hfresh.
  { intros Hin. pose proof (proj1 (R2 (sv_next s)) (or_intror Hin)). lia. }
  assert (∀ i, is_Some (sv_pending s !! i) → i < sv_next s) as Hlt.
  { intros i Hi. by apply R2; left. }
  destruct Hcase as [(r & _ & -> & ->)|(p & _ & -> & ->)]; split_and!.
  - intros i. rewrite lookup_insert_is_Some', (R1 i). lia.
  - intros i. rewrite fmap_cons, elem_of_cons. simpl.
    transitivity (i = sv_next s ∨ is_Some (sv_pending s !! i) ∨ i ∈ (sv_sent s).*1);
      [naive_solver | by apply cover_succ].
  - intros i Hi. rewrite fmap_cons, elem_of_cons. pose proof (Hlt i Hi).
    intros [Heq|Hin]; [simpl in Heq; lia | by apply (R3 i)].
  - rewrite fmap_cons. by constructor.
  - intros i. rewrite lookup_insert_is_Some', (R1 i). lia.
  - intros i. rewrite lookup_insert_is_Some'.
    transitivity (i = sv_next s ∨ is_Some (sv_pending s !! i) ∨ i ∈ (sv_sent s).*1);
      [naive_solver | by apply cover_succ].
  - intros i. rewrite lookup_insert_is_Some'. intros [<-|Hi]; [done|]. by apply R3.
  - done.
Qed.

Lemma requests_ok_callback i o now s s' :
  pending_ok s → requests_ok s → server_callback i o now s = Some s' → requests_ok s'.
Proof.
  intros HP (R1 & R2 & R3 & R4) Hc. unfold requests_ok.
  destruct (server_callback_spec _ _ _ _ _ HP Hc) as (p & r & Hp & _ & -> & -> & -> & -> & _).
  assert (i ∉ (sv_sent s).*1) as Hi by (apply R3; eauto).
  split_and!.
  - done.
  - intros j. rewrite lookup_delete_is_Some, fmap_cons, elem_of_cons. simpl.
    rewrite <- (R2 j). destruct (decide (i = j)); subst; naive_solver.
  - intros j. rewrite lookup_delete_is_Some, fmap_cons, elem_of_cons.
    intros [Hne Hj]. pose proof (R3 j Hj). naive_solver.
  - rewrite fmap_cons. by constructor.
Qed.

(** ** Waiting callbacks *)

Lemma pending_ok_init c : pending_ok (server_init c).
Proof. intros i p Hp. simpl in Hp. by rewrite lookup_empty in Hp. Qed.

Lemma pending_ok_request req now s s' :
  requests_ok s → pending_ok s → server_request req now s = Some s' → pending_ok s'.
Proof.
  intros (_ & R2 & _ & _) HP Hs.
  destruct (server_request_spec req now s s' Hs) as (_ & Hr & _ & Hcase).
  unfold pending_ok. rewrite Hr.
  assert (∀ i p, sv_pending s !! i = Some p → sv_next s ≠ i) as Hne.
  { intros i p Hi <-. pose proof (proj1 (R2 (sv_next s)) (or_introl (mk_is_Some _ _ Hi))). lia. }
  destruct Hcase as [(r & _ & -> & _)|(p & G & -> & _)].
  - intros i p Hi. rewrite lookup_insert_ne by eauto. by apply HP.
  - intros i p' Hi. apply lookup_insert_Some in Hi as [[<- <-]|[Hne' Hi]].
    + rewrite lookup_insert_eq. exists req.
      destruct (resolve_get_await _ _ _ _ _ G) as (? & ? & _ & ? & ? & ?). done.
    + rewrite lookup_insert_ne by done. by apply HP.
Qed.

Lemma pending_ok_callback i o now s s' :
  pending_ok s → server_callback i o now s = Some s' → pending_ok s'.
Proof.
  intros HP Hc. unfold pending_ok.
  destruct (server_callback_common _ _ _ _ _ Hc) as (p & _ & _ & -> & -> & _).
  intros j p' [_ Hj]%lookup_delete_Some. by apply HP.
Qed.

(** Request numbers and waiting callbacks, whatever the cache at start-up. *)
Lemma requests_pending_reachable c0 s : reachable c0 s → requests_ok s ∧ pending_ok s.
Proof.
  intros Hr. refine (rtc_invariant step (λ s, requests_ok s ∧ pending_ok s) _ _ _ Hr _);
    [|split; [apply requests_ok_init | apply pending_ok_init]].
  intros x y Hxy [R P]. destruct Hxy as [req now x y Hs|i o now x y Hc].
  - split; [by eapply requests_ok_request | by eapply pending_ok_request].
  - split; [by eapply requests_ok_callback | by eapply pending_ok_callback].
Qed.

(** ** What the cache holds *)

Lemma cache_confirmed_init c :
  (∀ k v, ¬ store_holds c k v) → cache_confirmed (server_init c).
Proof. intros Hc k v Hh. by apply Hc in Hh. Qed.

Lemma cache_confirmed_request req now s s' :
  cache_confirmed s → server_request req now s = Some s' → cache_confirmed s'.
Proof.
  intros HC Hs. destruct (server_request_spec req now s s' Hs) as (_ & _ & Hl & Hcase).
  unfold cache_confirmed. rewrite Hl.
  assert (sv_cache s' = (resolve_get req now (sv_cache s)).2) as Hc.
  { by destruct Hcase as [(? & -> & _)|(? & -> & _)]. }
  rewrite Hc. intros k v Hh. apply HC. by eapply resolve_get_holds.
Qed.

Lemma cache_confirmed_callback i o now s s' :
  pending_ok s → cache_confirmed s → server_callback i o now s = Some s' → cache_confirmed s'.
Proof.
  intros HP HC Hc. unfold cache_confirmed.
  destruct (server_callback_spec _ _ _ _ _ HP Hc) as (p & r & Hp & G & _ & _ & _ & _ & ->).
  intros k v Hh.
  destruct (resolve_cb_holds _ _ _ _ _ _ k v G Hh)
    as [(res & obj & h & -> & Hco & Hs & Hv & Hh' & ->)|Hold].
  - destruct (HP i p Hp) as (req & _ & _ & _ & _ & _ & h' & Hh'' & Hpar).
    rewrite Hh' in Hh''. injection Hh'' as <-.
    split; [done|]. exists (pd_user p), (pd_repo p), h. split; [done|].
    by eapply confirmed_answer.
  - destruct (HC k v Hold) as [Hv (u & rp & h & -> & Hcf)]. split; [done|].
    exists u, rp, h. eauto with anon.
Qed.

(** ** What the clients receive *)

Lemma answers_confirmed_init c : answers_confirmed (server_init c).
Proof. intros i v Hin. by apply elem_of_nil in Hin. Qed.

Lemma answers_confirmed_request req now s s' :
  requests_ok s → cache_confirmed s → answers_confirmed s →
  server_request req now s = Some s' → answers_confirmed s'.
Proof.
  intros (_ & R2 & _ & _) HC HA Hs.
  destruct (server_request_spec req now s s' Hs) as (_ & Hr & Hl & Hcase).
  unfold answers_confirmed. rewrite Hr, Hl.
  assert (∀ i v, (i, resolve_ref (Some v)) ∈ sv_sent s → sv_next s ≠ i) as Hne.
  { intros i v Hi <-. apply sent_id in Hi.
    pose proof (proj1 (R2 (sv_next s)) (or_intror Hi)). lia. }
  assert (∀ i v, (i, resolve_ref (Some v)) ∈ sv_sent s → ∃ req0 origref head,
    <[sv_next s := req]> (sv_requests s) !! i = Some req0 ∧ q_ref req0 = Some origref ∧
    js_string origref = Some head ∧
    ∃ u r h, ref_cache_getkey "gh" u r h =
               ref_cache_getkey (p_service req0) (p_user req0) (p_repo req0) head ∧
             confirmed (sv_log s) u r h v) as Hold.
  { intros i v Hi. rewrite lookup_insert_ne by eauto. by apply HA. }
  destruct Hcase as [(r & G & _ & ->)|(p & _ & _ & ->)]; [|done].
  intros i v [[= -> <-]|Hi]%elem_of_cons; [|by eapply Hold].
  rewrite lookup_insert_eq.
  destruct (resolve_get_ref _ _ _ _ _ G) as (origref & Hq & R).
  destruct (ref_cache_read_hit_holds _ _ _ _ _ _ _ _ R) as (_ & head & Hhead & Hh).
  destruct (HC _ _ Hh) as [_ (u & rp & h & Hk & Hcf)].
  exists req, origref, head. split_and!; [done..|]. exists u, rp, h. by rewrite Hk.
Qed.

Lemma answers_confirmed_callback i o now s s' :
  pending_ok s → answers_confirmed s → server_callback i o now s = Some s' →
  answers_confirmed s'.
Proof.
  intros HP HA Hc. unfold answers_confirmed.
  destruct (server_callback_spec _ _ _ _ _ HP Hc) as (p & r & Hp & G & _ & -> & _ & -> & ->).
  intros j v [[= -> <-]|Hj]%elem_of_cons.
  - destruct (resolve_cb_ref _ _ _ _ _ _ G) as (res & obj & -> & Hco & Hs).
    destruct (HP i p Hp) as (req & Hreq & Hsv & Hq & Hu & Hrp & h & Hh & Hpar).
    exists req, (pd_origref p), h. split_and!; [done..|].
    exists (pd_user p), (pd_repo p), h. split.
    + by rewrite Hsv, Hu, Hrp.
    + by eapply confirmed_answer.
  - destruct (HA j v Hj) as (req & origref & head & Hreq & Hq & Hhead & u & rp & h & Hk & Hcf).
    exists req, origref, head. split_and!; [done..|]. exists u, rp, h. eauto with anon.
Qed.

End Server.

(** ** The theorems, in every reachable state *)

Section ServerTheorems.
Context `{RefStoreLaws C}.

(** The cache at start-up holds nothing. *)
Variable c0 : C.
Hypothesis c0_empty : ∀ k v, ¬ store_holds c0 k v.

Definition server_inv (s : ServerState C) : Prop :=
  requests_ok s ∧ pending_ok s ∧ cache_confirmed s ∧ answers_confirmed s.

Lemma server_inv_init : server_inv (server_init c0).
Proof.
  split_and!; [apply requests_ok_init | apply pending_ok_init |
               by apply cache_confirmed_init | apply answers_confirmed_init].
Qed.

Lemma server_inv_step s s' : server_inv s → step s s' → server_inv s'.
Proof.
  intros (R & P & Cc & A) Hstep. destruct Hstep as [req now s s' Hs|i o now s s' Hc].
  - split_and!; eauto using requests_ok_request, pending_ok_request,
      cache_confirmed_request, answers_confirmed_request.
  - split_and!; eauto using requests_ok_callback, pending_ok_callback,
      cache_confirmed_callback, answers_confirmed_callback.
Qed.

Lemma server_inv_steps s s' : rtc step s s' → server_inv s → server_inv s'.
Proof. induction 1; eauto using server_inv_step. Qed.

Lemma server_inv_reachable s : reachable c0 s → server_inv s.
Proof. intros Hr. eapply server_inv_steps; [exact Hr | apply server_inv_init]. Qed.

(** C2: Every value the shared cache may return is a non-empty hash that
    GitHub announced as the commit of a branch, stored under that
    branch's key. *)
Theorem server_cache_confirmed s : reachable c0 s → cache_confirmed s.
Proof. intros Hr. apply (server_inv_reachable s Hr). Qed.

(** C1: Every hash sent to a client, from the cache or from GitHub, was
    announced by GitHub as the commit of a branch whose cache key is the
    key of the client's request. *)
Theorem server_answers_confirmed s : reachable c0 s → answers_confirmed s.
Proof. intros Hr. apply (server_inv_reachable s Hr). Qed.

(** C7: A request for a service other than "gh" (whose name has no ['/'])
    is never answered with a hash, whatever the cache holds: it gets
    Unknown service, Unknown repository/reference, or its handler
    throws. *)
Theorem server_unknown_service s req now :
  reachable c0 s → has_slash (p_service req) = false → p_service req ≠ "gh" →
  (resolve_get req now (sv_cache s)).1 = Respond unknown_service ∨
  (resolve_get req now (sv_cache s)).1 = Respond unknown_repository ∨
  (resolve_get req now (sv_cache s)).1 = Raise.
Proof.
  intros Hr Hs Hgh. pose proof (proj1 (proj2 (proj2 (server_inv_reachable s Hr)))) as HC.
  destruct (query_truthy (q_ref req)) eqn:Ho; [|right; left; by rewrite resolve_get_no_ref].
  destruct (q_ref req) as [origref|] eqn:Hq; [|done]. simpl in Ho.
  destruct (ref_cache_read (p_service req) (p_user req) (p_repo req) origref now (sv_cache s))
    as [[[v|] c1]|] eqn:R.
  - exfalso. destruct (ref_cache_read_hit_holds _ _ _ _ _ _ _ _ R) as (_ & h & _ & Hh).
    destruct (HC _ _ Hh) as [_ (u & rp & h' & Hk & _)].
    apply Hgh. by apply getkey_service in Hk.
  - left. by rewrite (resolve_get_other req origref now _ c1).
  - right; right. unfold resolve_get. by rewrite Hq, Ho, R.
Qed.

End ServerTheorems.
