(* ===== verification/Http.v ===== *)
(** * The server seen from HTTP

    Requests arrive as a path and a [ref] query.  [http_request] routes
    each one with the table of [Routes]: a request for [resolve] runs
    [resolve.get] as the application-level step [server_request] does,
    a request for [pathderef] is answered at once by [pathderef.get], a
    parameter that does not decode is answered 400 by Express, a
    request whose handler throws is answered 500 by Express, and a path
    outside the table never reaches the application.  Callbacks of
    GitHub calls run as in [Server].

    [http_step_server] projects every HTTP step onto steps of
    [Server], so the application state of an HTTP run is a run of
    [Server]; [http_direct_answers] shows that an answer given without
    [resolve.get] is Unknown service, a 400, or a 500 for a [resolve]
    request whose [ref] does not convert to a string. *)

From stdpp Require Import gmap.
From S2P Require Import Prelude Store GhApi Resolver Routes Server.

(** An answer that does not go through [resolve.get]: one of the
    application's responses, or a status Express sends by itself. *)
Inductive Direct :=
| DirectApp (r : Response)
| DirectStatus (status : Z).

Record HttpState (C : Type) := mk_hstate {
  hs_server : ServerState C;
  hs_direct : list (HttpReq * Direct);
}.
Arguments mk_hstate {C}.
Arguments hs_server {C}.
Arguments hs_direct {C}.

Section Http.
Context `{RefStoreLaws C}.
(** The base path of the API document. *)
Variable base : string.

Definition http_request (h : HttpReq) (now : Time) (s : HttpState C) : HttpState C :=
  match route base h with
  | RouteTo HResolve req =>
      match server_request req now (hs_server s) with
      | Some s' => mk_hstate s' (hs_direct s)
      | None => mk_hstate (hs_server s) ((h, DirectStatus 500) :: hs_direct s)
      end
  | RouteTo HPathderef req => mk_hstate (hs_server s) ((h, DirectApp (pathderef_get req)) :: hs_direct s)
  | RouteBadParam => mk_hstate (hs_server s) ((h, DirectStatus 400) :: hs_direct s)
  | RouteNone => s
  end.

Definition http_callback (i : nat) (o : ApiOutcome) (now : Time) (s : HttpState C)
    : option (HttpState C) :=
  (λ s', mk_hstate s' (hs_direct s)) <$> server_callback i o now (hs_server s).

Inductive http_step : HttpState C → HttpState C → Prop :=
| hstep_request h now s : http_step s (http_request h now s)
| hstep_callback i o now s s' : http_callback i o now s = Some s' → http_step s s'.

Definition http_init (c : C) : HttpState C := mk_hstate (server_init c) [].

Definition http_reachable (c0 : C) (s : HttpState C) : Prop := rtc http_step (http_init c0) s.

(** Every answer sent without a response of [resolve.get]. *)
Definition direct_ok (s : HttpState C) : Prop :=
  ∀ h d, (h, d) ∈ hs_direct s →
    d = DirectApp unknown_service ∨ d = DirectStatus 400 ∨
    (d = DirectStatus 500 ∧ ∃ req origref, route base h = RouteTo HResolve req ∧
       q_ref req = Some origref ∧ js_string origref = None).

(** ** One HTTP step is at most one application step *)

Lemma http_step_server s s' : http_step s s' → rtc step (hs_server s) (hs_server s').
Proof.
  destruct 1 as [h now s|i o now s s' Hc].
  - unfold http_request. destruct (route base h) as [[] req| |]; simpl; [|done..].
    destruct (server_request req now (hs_server s)) eqn:E; [|done].
    apply rtc_once. by eapply step_request.
  - unfold http_callback in Hc. apply fmap_Some in Hc as (s1 & Hc & ->).
    apply rtc_once. by eapply step_callback.
Qed.

Lemma http_step_direct s s' : http_step s s' → direct_ok s → direct_ok s'.
Proof.
  intros Hs Hok h d. destruct Hs as [h' now s|i o now s s' Hc].
  - unfold http_request. destruct (route base h') as [[] req| |] eqn:Er; simpl; try apply Hok.
    + destruct (server_request req now (hs_server s)) eqn:E; simpl; [apply Hok|].
      rewrite elem_of_cons. intros [[= <- ->]|Hin]; [|by apply (Hok h)].
      right; right. split; [done|]. apply server_request_None, (proj1 (resolve_get_raise _ _ _)) in E.
      destruct E as (origref & Hq & Hn & _). eauto.
    + rewrite elem_of_cons. intros [[= _ ->]|Hin]; [by left | by apply (Hok h)].
    + rewrite elem_of_cons. intros [[= _ ->]|Hin]; [by right; left | by apply (Hok h)].
  - unfold http_callback in Hc. apply fmap_Some in Hc as (s1 & _ & ->). apply Hok.
Qed.

End Http.

Section HttpTheorems.
Context `{RefStoreLaws C}.
Variable base : string.

(** C21: Every answer sent without a response of [resolve.get] is the
    Unknown service of [pathderef.get], the 400 of Express, or the 500
    of Express's error handler, to a request routed to [resolve.get]
    whose [ref] value throws when converted to a string. *)
Theorem http_direct_answers (c0 : C) s : http_reachable base c0 s → direct_ok base s.
Proof.
  intros Hr. apply (rtc_invariant _ _ (http_step_direct base) _ _ Hr).
  intros h d Hin. by apply elem_of_nil in Hin.
Qed.

End HttpTheorems.
