(* ===== verification/Wire.v ===== *)
(** * The HTTP messages on the wire (lines 106-113 and 133)

    Around the application, Express runs a chain of middleware for every
    request: its own [expressInit] (the header [X-Powered-By]), the
    [cors] middleware installed by [app.use(cors(cors_options))], then
    the routes express-openapi registered with [app.get], then its final
    handler, which answers 404 to what no route took and the status of
    an error (400 for a parameter that does not decode, 500 for the
    TypeError a handler throws).  A route's
    handler answers with [res.json], which serialises the body, sets the
    content type, computes an ETag when the application setting [etag]
    is on (it is turned off at line 133), and turns the response into a
    304 when the request is fresh (the [fresh] test of conditional GET).

    Header maps are [gmap]s with lower-case names, as Node keeps them.
    [cors] is the cors package with the options of lines 108-111 and
    its defaults (no [preflightContinue], [optionsSuccessStatus] 204);
    [fresh] is the package of the same name.  Headers no property reads
    (Date, Content-Length of a body, Connection) are not modelled.

    [WireState] extends the HTTP state of [Http] with, for each request
    handed to [resolve.get], the wire request and the headers set before
    the handler ran, so that the response the server sends later is
    rendered by [res_json] for that request ([wire_sent]). *)

From stdpp Require Import gmap.
From S2P Require Import Prelude Store GhApi Resolver Json Routes Server Http.
From Stdlib Require Import Ascii.

Inductive Method := GET | HEAD | OPTIONS | OtherMethod (name : string).

Abbreviation headers := (gmap string string) (only parsing).

Record WireReq := mk_wreq { w_method : Method; w_headers : headers; w_http : HttpReq }.

(** What follows the status line and the headers. *)
Inductive Payload :=
| PBody (text : string)
| PErrorPage
| PEmpty.

Record WireResp := mk_wresp { wr_status : Z; wr_headers : headers; wr_payload : Payload }.

#[export] Instance HttpReq_eq_dec : EqDecision HttpReq.
Proof. solve_decision. Defined.
#[export] Instance Method_eq_dec : EqDecision Method.
Proof. solve_decision. Defined.
#[export] Instance WireReq_eq_dec : EqDecision WireReq.
Proof. solve_decision. Defined.
#[export] Instance Payload_eq_dec : EqDecision Payload.
Proof. solve_decision. Defined.
#[export] Instance WireResp_eq_dec : EqDecision WireResp.
Proof. solve_decision. Defined.

(** ** The application's settings *)

(** [cors_options], lines 108-111. *)
Record CorsOptions := mk_cors_options { cors_origin : string; cors_methods : string }.

Definition cors_options : CorsOptions := mk_cors_options "*" "GET".

(** The values of the Express setting [etag]: on by default, weak. *)
Inductive EtagSetting := EtagWeak | EtagStrong | EtagOff.

(** [app.disable("etag")], line 133. *)
Definition app_etag : EtagSetting := EtagOff.

(** ** Header helpers *)

(** [vary(res, field)]: append [field] to the [Vary] header. *)
Definition vary (field : string) (h : headers) : headers :=
  match h !! "vary" with
  | Some old => <["vary" := old +:+ ", " +:+ field]> h
  | None => <["vary" := field]> h
  end.

(** [s.split(sep)]. *)
Fixpoint split_on (sep : ascii) (s : string) : list string :=
  match s with
  | EmptyString => [EmptyString]
  | String c r =>
      if Ascii.eqb c sep then EmptyString :: split_on sep r
      else match split_on sep r with
           | t :: ts => String c t :: ts
           | [] => [String c EmptyString]
           end
  end.

Fixpoint drop_while (p : ascii → bool) (s : string) : string :=
  match s with
  | EmptyString => EmptyString
  | String c r => if p c then drop_while p r else s
  end.

(** Remove the characters [p] holds of at both ends. *)
Definition trim_by (p : ascii → bool) (s : string) : string :=
  String.rev (drop_while p (String.rev (drop_while p s))).

Definition is_sp (c : ascii) : bool := Ascii.eqb c " "%char.

(** [\s] of a regular expression, on ASCII. *)
Definition is_ws (c : ascii) : bool := bool_decide (nat_of_ascii c ∈ [9; 10; 11; 12; 13; 32]).

(** ** Express's own middleware *)

(** [expressInit], with the default setting [x-powered-by]. *)
Definition express_init : headers := <["x-powered-by" := "Express"]> ∅.

(** ** The cors middleware *)

Inductive CorsOutcome :=
| CorsEnd (r : WireResp)
| CorsNext (h : headers).

(** [configureOrigin] for a string origin. *)
Definition cors_allow_origin (o : CorsOptions) (h : headers) : headers :=
  if negb (str_truthy (cors_origin o)) || String.eqb (cors_origin o) "*" then
    <["access-control-allow-origin" := "*"]> h
  else vary "Origin" (<["access-control-allow-origin" := cors_origin o]> h).

(** [configureAllowedHeaders] without [allowedHeaders]: reflect the
    request's [Access-Control-Request-Headers]. *)
Definition cors_allow_headers (w : WireReq) (h : headers) : headers :=
  let h' := vary "Access-Control-Request-Headers" h in
  match w_headers w !! "access-control-request-headers" with
  | Some a => if str_truthy a then <["access-control-allow-headers" := a]> h' else h'
  | None => h'
  end.

(** A preflight [OPTIONS] is answered here; any other request goes on
    with the [Access-Control-Allow-Origin] header set. *)
Definition cors (o : CorsOptions) (w : WireReq) (h : headers) : CorsOutcome :=
  match w_method w with
  | OPTIONS =>
      let h1 := cors_allow_headers w
                  (<["access-control-allow-methods" := cors_methods o]> (cors_allow_origin o h)) in
      CorsEnd (mk_wresp 204 (<["content-length" := "0"]> h1) PEmpty)
  | _ => CorsNext (cors_allow_origin o h)
  end.

(** ** Conditional GET: the fresh package and [req.fresh] *)

(** [parseTokenList]: the comma-separated tokens, spaces trimmed. *)
Definition parse_token_list (s : string) : list string := map (trim_by is_sp) (split_on "," s).

(** [/(?:^|,)\s*?no-cache\s*?(?:,|$)/.test(cc)]. *)
Definition no_cache (cc : string) : bool :=
  existsb (λ t, String.eqb (trim_by is_ws t) "no-cache") (split_on "," cc).

Definition etag_matches (inm etag : string) : bool :=
  existsb (λ m, String.eqb m etag || String.eqb m ("W/" +:+ etag) || String.eqb ("W/" +:+ m) etag)
    (parse_token_list inm).

(** [fresh(reqHeaders, {etag, 'last-modified'})]; [res.send] never sets
    [Last-Modified], so an [If-Modified-Since] is always stale. *)
Definition fresh (rh : headers) (etag : option string) : bool :=
  let ims := rh !! "if-modified-since" in
  let inm := rh !! "if-none-match" in
  if negb (opt_truthy ims || opt_truthy inm) then false
  else if opt_truthy (rh !! "cache-control") && no_cache (default "" (rh !! "cache-control"))
  then false
  else
    let etag_ok :=
      match inm with
      | Some t =>
          if str_truthy t && negb (String.eqb t "*") then
            match etag with Some e => str_truthy e && etag_matches t e | None => false end
          else true
      | None => true
      end in
    etag_ok && negb (opt_truthy ims).

Definition is_get_head (m : Method) : bool :=
  match m with GET | HEAD => true | _ => false end.

Definition is_head (m : Method) : bool :=
  match m with HEAD => true | _ => false end.

(** [req.fresh]: only for GET and HEAD, and a 2xx or 304 status. *)
Definition req_fresh (w : WireReq) (status : Z) (etag : option string) : bool :=
  is_get_head (w_method w) &&
  ((200 <=? status)%Z && (status <? 300)%Z || (status =? 304)%Z) &&
  fresh (w_headers w) etag.

(** ** Sending a response *)

Section Send.
(** The entity tag Express computes from a body (a hash of it). *)
Variable entity_tag : string → string.

Definition etag_of (e : EtagSetting) (body : string) : option string :=
  match e with
  | EtagWeak => Some ("W/" +:+ entity_tag body)
  | EtagStrong => Some (entity_tag body)
  | EtagOff => None
  end.

(** [res.send(body)]: ETag, freshness, and the stripping of the body of
    a 204, a 304 or the answer to a HEAD. *)
Definition res_send (e : EtagSetting) (w : WireReq) (h : headers) (status : Z) (body : string)
    : WireResp :=
  let et := etag_of e body in
  let h1 := match et with Some t => <["etag" := t]> h | None => h end in
  let st := if req_fresh w status et then 304%Z else status in
  if (st =? 204)%Z || (st =? 304)%Z then mk_wresp st (delete "content-type" h1) PEmpty
  else mk_wresp st h1 (if is_head (w_method w) then PEmpty else PBody body).

(** [res.status(s).json(obj)]. *)
Definition res_json (e : EtagSetting) (w : WireReq) (h : headers) (r : Response) : WireResp :=
  let h1 := match h !! "content-type" with
            | Some _ => h
            | None => <["content-type" := "application/json; charset=utf-8"]> h
            end in
  res_send e w h1 (res_status r) (json_body (res_body r)).

End Send.

(** The final handler of Express: an HTML page with the status. *)
Definition error_page (w : WireReq) (status : Z) (h : headers) : WireResp :=
  let h1 := <["content-security-policy" := "default-src 'none'"]>
              (<["x-content-type-options" := "nosniff"]>
                 (<["content-type" := "text/html; charset=utf-8"]> h)) in
  mk_wresp status h1 (if is_head (w_method w) then PEmpty else PErrorPage).

(** The request without its conditional headers. *)
Definition unconditional (w : WireReq) : WireReq :=
  mk_wreq (w_method w) (delete "if-modified-since" (delete "if-none-match" (w_headers w))) (w_http w).

Definition with_method (m : Method) (w : WireReq) : WireReq := mk_wreq m (w_headers w) (w_http w).

Definition strip_payload (r : WireResp) : WireResp := mk_wresp (wr_status r) (wr_headers r) PEmpty.

(** ** The process seen from the wire *)

Record WireState (C : Type) := mk_wstate {
  ws_http : HttpState C;
  (** For each request handed to [resolve.get], by its number: the wire
      request and the headers set before the handler ran. *)
  ws_conns : gmap nat (WireReq * headers);
  (** The responses sent by the middleware, Express or [pathderef.get]. *)
  ws_out : list (WireReq * WireResp);
}.
Arguments mk_wstate {C}.
Arguments ws_http {C}.
Arguments ws_conns {C}.
Arguments ws_out {C}.

Ltac hdr_simpl :=
  repeat first [ rewrite lookup_insert_ne by discriminate
               | rewrite lookup_delete_ne by discriminate ].

Section Wire.
Context `{RefStoreLaws C}.
Variable base : string.
Variable entity_tag : string → string.

Definition wire_answer (w : WireReq) (r : WireResp) (s : WireState C) : WireState C :=
  mk_wstate (ws_http s) (ws_conns s) ((w, r) :: ws_out s).

(** One request through the whole chain. *)
Definition wire_request (w : WireReq) (now : Time) (s : WireState C) : WireState C :=
  match cors cors_options w express_init with
  | CorsEnd r => wire_answer w r s
  | CorsNext h =>
      if is_get_head (w_method w) then
        let hs' := http_request base (w_http w) now (ws_http s) in
        match route base (w_http w) with
        | RouteTo HResolve req =>
            match server_request req now (hs_server (ws_http s)) with
            | Some _ =>
                mk_wstate hs' (<[sv_next (hs_server (ws_http s)) := (w, h)]> (ws_conns s)) (ws_out s)
            | None => mk_wstate hs' (ws_conns s) ((w, error_page w 500 h) :: ws_out s)
            end
        | RouteTo HPathderef req =>
            mk_wstate hs' (ws_conns s)
              ((w, res_json entity_tag app_etag w h (pathderef_get req)) :: ws_out s)
        | RouteBadParam => mk_wstate hs' (ws_conns s) ((w, error_page w 400 h) :: ws_out s)
        | RouteNone => mk_wstate hs' (ws_conns s) ((w, error_page w 404 h) :: ws_out s)
        end
      else wire_answer w (error_page w 404 h) s
  end.

Definition wire_callback (i : nat) (o : ApiOutcome) (now : Time) (s : WireState C)
    : option (WireState C) :=
  (λ hs', mk_wstate hs' (ws_conns s) (ws_out s)) <$> http_callback i o now (ws_http s).

Inductive wire_step : WireState C → WireState C → Prop :=
| wstep_request w now s : wire_step s (wire_request w now s)
| wstep_callback i o now s s' : wire_callback i o now s = Some s' → wire_step s s'.

Definition wire_init (c : C) : WireState C := mk_wstate (http_init c) ∅ [].

Definition wire_reachable (c0 : C) (s : WireState C) : Prop := rtc wire_step (wire_init c0) s.

(** Every response on the wire: those of [ws_out], and those the server
    sent, each rendered by [res.json] for the request it answers. *)
Definition wire_sent (s : WireState C) : list (WireReq * WireResp) :=
  ws_out s ++
  omap (λ '(i, r), (λ '(w, h), (w, res_json entity_tag app_etag w h r)) <$> ws_conns s !! i)
    (sv_sent (hs_server (ws_http s))).

(** ** Header lemmas *)

Lemma vary_lookup_ne f h k : k ≠ "vary" → vary f h !! k = h !! k.
Proof. intros Hk. unfold vary. by destruct (h !! "vary"); rewrite lookup_insert_ne by done. Qed.

(** With [origin: "*"], [configureOrigin] sets the header to [*]. *)
Lemma cors_allow_origin_star h :
  cors_allow_origin cors_options h = <["access-control-allow-origin" := "*"]> h.
Proof. reflexivity. Qed.

(** The two headers the properties of the wire are about: CORS allows
    every origin, and there is no entity tag. *)
Definition hdr_ok (h : headers) : Prop :=
  h !! "access-control-allow-origin" = Some "*" ∧ h !! "etag" = None.

Lemma express_init_ok : express_init !! "etag" = None.
Proof. done. Qed.

Lemma cors_next_ok w h h' : h !! "etag" = None → cors cors_options w h = CorsNext h' → hdr_ok h'.
Proof.
  unfold cors. rewrite cors_allow_origin_star. intros He.
  destruct (w_method w); intros [= <-]; (split; [apply lookup_insert_eq | by hdr_simpl]).
Qed.

Lemma cors_end_ok w h r : h !! "etag" = None → cors cors_options w h = CorsEnd r → hdr_ok (wr_headers r).
Proof.
  unfold cors. rewrite cors_allow_origin_star. intros He.
  destruct (w_method w); intros [= <-]. simpl. unfold cors_allow_headers.
  destruct (w_headers w !! "access-control-request-headers") as [a|]; [destruct (str_truthy a)|];
    (split; hdr_simpl; rewrite vary_lookup_ne by discriminate; hdr_simpl;
     [apply lookup_insert_eq | done]).
Qed.

Lemma res_json_ok tag w h r : hdr_ok h → hdr_ok (wr_headers (res_json tag app_etag w h r)).
Proof.
  intros [Ha He]. unfold res_json, res_send. simpl.
  destruct (h !! "content-type"), (req_fresh _ _ _), (_ || _); simpl; split; by hdr_simpl.
Qed.

Lemma error_page_ok w st h : hdr_ok h → hdr_ok (wr_headers (error_page w st h)).
Proof. intros [Ha He]. unfold error_page. simpl. split; by hdr_simpl. Qed.

Lemma res_json_payload tag e w h r text :
  wr_payload (res_json tag e w h r) = PBody text → text = json_body (res_body r).
Proof. unfold res_json, res_send. repeat case_match; simpl; intros; by simplify_eq. Qed.

(** A response sent outside [resolve.get]: the headers, and a body, if
    any, that is the Unknown service error. *)
Definition out_ok (r : WireResp) : Prop :=
  hdr_ok (wr_headers r) ∧
  ∀ text, wr_payload r = PBody text → text = json_body (res_body unknown_service).

Lemma cors_end_out_ok w r : cors cors_options w express_init = CorsEnd r → out_ok r.
Proof.
  intros Hc. split; [exact (cors_end_ok _ _ _ express_init_ok Hc)|].
  revert Hc. unfold cors. destruct (w_method w); by intros [= <-].
Qed.

Lemma error_page_out_ok w st h : hdr_ok h → out_ok (error_page w st h).
Proof.
  intros Hh. split; [by apply error_page_ok|]. unfold error_page. simpl. by case_match.
Qed.

Lemma pathderef_out_ok tag w h req : hdr_ok h → out_ok (res_json tag app_etag w h (pathderef_get req)).
Proof. intros Hh. split; [by apply res_json_ok | apply res_json_payload]. Qed.

Lemma http_callback_server i o now (hs hs' : HttpState C) :
  http_callback i o now hs = Some hs' → server_callback i o now (hs_server hs) = Some (hs_server hs').
Proof. unfold http_callback. intros (s1 & Hc & ->)%fmap_Some. done. Qed.

(** ** What one step does *)

Lemma http_request_server h now (s : HttpState C) :
  hs_server (http_request base h now s) =
    match route base h with
    | RouteTo HResolve req => default (hs_server s) (server_request req now (hs_server s))
    | _ => hs_server s
    end.
Proof.
  unfold http_request. destruct (route base h) as [[] ?| |]; [|done..]. by case_match.
Qed.

Lemma wire_step_http s s' : wire_step s s' → rtc (http_step base) (ws_http s) (ws_http s').
Proof.
  destruct 1 as [w now s|i o now s s' Hc].
  - unfold wire_request, wire_answer.
    destruct (cors cors_options w express_init); [done|].
    destruct (is_get_head (w_method w)); [|done].
    destruct (route base (w_http w)) as [[] ?| |]; [case_match|..]; apply rtc_once, hstep_request.
  - unfold wire_callback in Hc. apply fmap_Some in Hc as (hs' & Hc & ->).
    apply rtc_once. by eapply hstep_callback.
Qed.

(** ** The invariant of the wire *)

Definition wire_inv (s : WireState C) : Prop :=
  requests_ok (hs_server (ws_http s)) ∧ pending_ok (hs_server (ws_http s)) ∧
  (∀ w r, (w, r) ∈ ws_out s → out_ok r) ∧
  (∀ i w h, ws_conns s !! i = Some (w, h) →
     hdr_ok h ∧
     ∃ req, route base (w_http w) = RouteTo HResolve req ∧
       sv_requests (hs_server (ws_http s)) !! i = Some req) ∧
  (∀ i, i < sv_next (hs_server (ws_http s)) → is_Some (ws_conns s !! i)).

Lemma wire_inv_init c : wire_inv (wire_init c).
Proof.
  split_and!; [apply requests_ok_init | apply pending_ok_init | by intros ?? ?%elem_of_nil |
               done | simpl; lia].
Qed.

(** A response added to [ws_out] that carries the header. *)
Lemma wire_inv_out s hs' w r :
  wire_inv s → hs_server hs' = hs_server (ws_http s) →
  out_ok r →
  wire_inv (mk_wstate hs' (ws_conns s) ((w, r) :: ws_out s)).
Proof.
  intros (R & P & O & Cn & Cv) Hhs Hr. unfold wire_inv; simpl. rewrite Hhs.
  split_and!; [done | done | | done | done].
  intros w' r'. rewrite elem_of_cons. intros [[= -> ->]|Hin]; [done | by eapply O].
Qed.

Lemma wire_inv_resolve s w h now req s' :
  wire_inv s → hdr_ok h →
  route base (w_http w) = RouteTo HResolve req →
  server_request req now (hs_server (ws_http s)) = Some s' →
  wire_inv (mk_wstate (http_request base (w_http w) now (ws_http s))
              (<[sv_next (hs_server (ws_http s)) := (w, h)]> (ws_conns s)) (ws_out s)).
Proof.
  intros (R & P & O & Cn & Cv) Hh Hroute Hs. unfold wire_inv; simpl.
  rewrite http_request_server, Hroute, Hs. simpl.
  destruct (server_request_spec req now _ _ Hs) as (Hn & Hrq & _).
  rewrite Hn, Hrq.
  split_and!; [by eapply requests_ok_request | by eapply pending_ok_request | done | |].
  - intros i w' h'. destruct (decide (i = sv_next (hs_server (ws_http s)))) as [->|Hne].
    + rewrite lookup_insert_eq. intros [= <- <-]. split; [done|]. exists req.
      by rewrite lookup_insert_eq.
    + rewrite !lookup_insert_ne by done. apply Cn.
  - intros i Hi. rewrite lookup_insert_is_Some'.
    destruct (decide (i = sv_next (hs_server (ws_http s)))); [by left | right; apply Cv; lia].
Qed.

Lemma wire_inv_step s s' : wire_step s s' → wire_inv s → wire_inv s'.
Proof.
  destruct 1 as [w now s|i o now s s' Hc]; intros Hinv.
  - unfold wire_request, wire_answer. destruct (cors cors_options w express_init) eqn:Ec.
    { apply wire_inv_out; [done..|]. by apply (cors_end_out_ok w). }
    apply cors_next_ok in Ec; [|exact express_init_ok].
    destruct (is_get_head (w_method w)); [|apply wire_inv_out; auto using error_page_out_ok].
    destruct (route base (w_http w)) as [[] req| |] eqn:Er.
    + destruct (server_request req now (hs_server (ws_http s))) as [s1|] eqn:Hs.
      * by apply (wire_inv_resolve _ _ _ _ req s1).
      * apply wire_inv_out; [done | by rewrite http_request_server, Er, Hs |
                             by apply error_page_out_ok].
    + apply wire_inv_out; [done | by rewrite http_request_server, Er | by apply pathderef_out_ok].
    + apply wire_inv_out; [done | by rewrite http_request_server, Er | by apply error_page_out_ok].
    + apply wire_inv_out; [done | by rewrite http_request_server, Er | by apply error_page_out_ok].
  - unfold wire_callback in Hc. apply fmap_Some in Hc as (hs' & Hc & ->).
    apply http_callback_server in Hc.
    destruct (server_callback_common _ _ _ _ _ Hc) as (_ & _ & Hn & Hrq & _).
    destruct Hinv as (R & P & O & Cn & Cv). unfold wire_inv; simpl. rewrite Hn, Hrq.
    split_and!; [by eapply requests_ok_callback | by eapply pending_ok_callback | done..].
Qed.

Lemma wire_inv_reachable c0 s : wire_reachable c0 s → wire_inv s.
Proof. intros Hr. apply (rtc_invariant _ _ wire_inv_step _ _ Hr), wire_inv_init. Qed.

End Wire.

(** ** Sending: conditional requests and HEAD *)

(** Without an entity tag, only [If-None-Match: *] makes a request fresh. *)
Lemma fresh_no_etag rh : fresh rh None = true → rh !! "if-none-match" = Some "*".
Proof.
  unfold fresh. intros Hf.
  destruct (opt_truthy (rh !! "if-modified-since")); [by repeat (case_match; simpl in * )|].
  destruct (rh !! "if-none-match") as [t|]; [f_equal|]; repeat (case_match; simpl in * ); try done.
  destruct (str_truthy t), (String.eqb_spec t "*"); simpl in *; done.
Qed.

Lemma fresh_unconditional rh :
  fresh (delete "if-modified-since" (delete "if-none-match" rh)) None = false.
Proof.
  unfold fresh. rewrite lookup_delete_eq, lookup_delete_ne, lookup_delete_eq by done.
  done.
Qed.

Section WireTheorems.
Context `{RefStoreLaws C}.
Variable base : string.
Variable entity_tag : string → string.

(** C12: Every response on the wire, whatever its route, status or
    method (preflights, Express's 404 and 400 pages, [pathderef.get] and
    every response of [resolve.get]), allows every origin by CORS and
    carries no ETag. *)
Theorem wire_headers_everywhere (c0 : C) s w r :
  wire_reachable base entity_tag c0 s → (w, r) ∈ wire_sent entity_tag s →
  wr_headers r !! "access-control-allow-origin" = Some "*" ∧ wr_headers r !! "etag" = None.
Proof.
  intros Hr. destruct (wire_inv_reachable base entity_tag c0 s Hr) as (_ & _ & O & Cn & _).
  unfold wire_sent. rewrite elem_of_app, list_elem_of_omap.
  intros [Hin|([i r'] & _ & Hf)]; [by eapply O|].
  destruct (ws_conns s !! i) as [[w' h]|] eqn:E; simplify_eq/=.
  apply res_json_ok. by eapply Cn.
Qed.

(** C14: A request that is neither GET nor HEAD never reaches the
    application (no cache read, no GitHub call): a preflight [OPTIONS]
    is answered 204 by cors, allowing GET only, and any other method
    gets Express's 404. *)
Theorem wire_not_get w now (s : WireState C) :
  is_get_head (w_method w) = false →
  ∃ r, wire_request base entity_tag w now s = wire_answer w r s ∧
    ((w_method w = OPTIONS ∧ wr_status r = 204%Z ∧ wr_payload r = PEmpty ∧
      wr_headers r !! "access-control-allow-methods" = Some "GET") ∨
     (w_method w ≠ OPTIONS ∧ wr_status r = 404%Z)).
Proof.
  intros Hm. unfold wire_request, cors. rewrite cors_allow_origin_star.
  destruct (w_method w) eqn:Em; try done.
  - eexists. split; [reflexivity|]. left. split_and!; [done..|]. simpl.
    unfold cors_allow_headers.
    destruct (w_headers w !! "access-control-request-headers") as [a|]; [destruct (str_truthy a)|];
      hdr_simpl; rewrite vary_lookup_ne by discriminate; apply lookup_insert_eq.
  - rewrite Hm. eexists. split; [reflexivity|]. by right.
Qed.

End WireTheorems.

(** C13: With ETags turned off (line 133), the conditional headers of a
    request change nothing in the response of [res.json], unless it
    is [If-None-Match: *]: no request is ever answered 304 by
    revalidation. *)
Theorem res_json_unconditional tag w h r :
  w_headers w !! "if-none-match" ≠ Some "*" →
  res_json tag app_etag w h r = res_json tag app_etag (unconditional w) h r.
Proof.
  intros Hinm. unfold res_json, res_send, req_fresh, etag_of, app_etag.
  cbn [w_method w_headers unconditional]. rewrite fresh_unconditional, !andb_false_r.
  destruct (fresh (w_headers w) None) eqn:E; [by apply fresh_no_etag in E|].
  by rewrite !andb_false_r.
Qed.

(** A HEAD request runs [resolve.get] exactly as the GET request on
    the same path (the GitHub call and the cache write included), and
    its response is that of the GET without the body. *)
Theorem wire_head `{RefStoreLaws C} base tag w now (s : WireState C) :
  ws_http (wire_request base tag (with_method HEAD w) now s) =
    ws_http (wire_request base tag (with_method GET w) now s) ∧
  ∀ h r, res_json tag app_etag (with_method HEAD w) h r =
           strip_payload (res_json tag app_etag (with_method GET w) h r).
Proof.
  split.
  - unfold wire_request, cors. simpl. destruct (route base (w_http w)) as [[] req| |]; [destruct (server_request _ _ _)|..]; done.
  - intros h r. unfold res_json, res_send, req_fresh. simpl.
    by destruct (_ && fresh _ _), (_ || _).
Qed.
