(* ===== verification/ServerProps.v ===== *)
(** * Further properties of the server

    - Causes: every response sent is [{ref: ref}] with status 200, a 404
      "Unknown service" to a request for a service other than "gh", or a
      404 "Unknown repository/reference" to a request without a truthy
      [ref] or to a "gh" request whose GitHub call failed or did not
      give a commit ([server_response_types]).  The statuses, bodies and
      causes are written out, not taken from the handlers' helpers.
    - Store invariants: any property of the cache that [store_get] and
      [store_set] preserve holds in every reachable state
      ([reachable_cache_pred]); [Deploy] uses it for the bound on the
      size of the deployed cache. *)

From stdpp Require Import gmap relations.
From S2P Require Import Prelude Store RefCache GhApi Resolver Server.

(** GitHub's answer [o] is not a commit: an error, or an answer whose
    [data.object] is missing or of another type. *)
Definition not_commit (o : ApiOutcome) : Prop :=
  o = ApiError ∨
  ∃ res, o = ApiOk res ∧ ∀ obj, api_data res = Some (mk_data (Some obj)) → obj_type obj ≠ Some "commit".

(** Why response [r] was sent to request [req], given the answers GitHub gave. *)
Definition response_cause (log : list (GetReferenceParams * ApiOutcome)) (req : Request)
    (r : Response) : Prop :=
  (∃ v, r = mk_response 200 (BodyRef v)) ∨
  (r = mk_response 404 (BodyErr "Unknown service") ∧ p_service req ≠ "gh") ∨
  (r = mk_response 404 (BodyErr "Unknown repository/reference") ∧
   (query_truthy (q_ref req) = false ∨
    ∃ origref h o, q_ref req = Some origref ∧ js_string origref = Some h ∧ p_service req = "gh" ∧
      (mk_params (p_user req) (p_repo req) ("heads/" +:+ h), o) ∈ log ∧ not_commit o)).

Section Props.
Context `{RefStoreLaws C}.

Definition sent_causes (s : ServerState C) : Prop :=
  ∀ i r, (i, r) ∈ sv_sent s → ∃ req, sv_requests s !! i = Some req ∧ response_cause (sv_log s) req r.

(** ** The causes of the responses *)

Lemma response_cause_log x log req r : response_cause log req r → response_cause (x :: log) req r.
Proof.
  intros [Hr|[Hr|[Hr [Hq|(o & h & a & Hq & Hh & Hs & Hin & Ha)]]]]; [by left|by right; left| |].
  - right; right. by split; [|left].
  - right; right. split; [done|]. right. exists o, h, a. split_and!; [done..| by right | done].
Qed.

Lemma resolve_get_cause log req now c r c' :
  resolve_get req now c = (Respond r, c') → response_cause log req r.
Proof.
  unfold resolve_get, response_cause. destruct (q_ref req) as [o|];
    [|intros [= <- _]; right; right; split; [done|]; by left].
  destruct (js_truthy o) eqn:T;
    [|intros [= <- _]; right; right; split; [done|]; left; simpl; by rewrite T].
  destruct (ref_cache_read _ _ _ _ now c) as [[cached c1]|]; [|done].
  destruct (opt_truthy cached); [intros [= <- _]; by left; eexists|].
  destruct (String.eqb_spec (p_service req) "gh"); [by destruct (js_string o)|].
  intros [= <- _]. by right; left.
Qed.

Lemma not_commit_answer res : commit_object res = None → not_commit (ApiOk res).
Proof.
  intros Hc. right. exists res. split; [done|]. intros obj Hd Ht.
  assert (commit_object res = Some obj) as Hc' by (by apply commit_object_Some). congruence.
Qed.

Lemma resolve_cb_cause log p req h o now c r c' :
  q_ref req = Some (pd_origref p) → p_service req = "gh" →
  pd_user p = p_user req → pd_repo p = p_repo req → js_string (pd_origref p) = Some h →
  pd_params p = get_reference_params (pd_user p) (pd_repo p) h →
  resolve_cb p o now c = Some (r, c') → response_cause ((pd_params p, o) :: log) req r.
Proof.
  intros Hq Hs Hu Hrp Hh Hpar. unfold response_cause.
  assert (∀ o', not_commit o' → o = o' →
    ∃ origref h o, q_ref req = Some origref ∧ js_string origref = Some h ∧ p_service req = "gh" ∧
      (mk_params (p_user req) (p_repo req) ("heads/" +:+ h), o) ∈ (pd_params p, o') :: log ∧
      not_commit o) as Hcause.
  { intros o' Ho' ->. exists (pd_origref p), h, o'. rewrite Hpar, <- Hu, <- Hrp.
    split_and!; [done..| by left | done]. }
  unfold resolve_cb. destruct o as [|res].
  - intros [= <- _]. right; right. split; [done|]. right. apply Hcause; [by left|done].
  - destruct (commit_object res) eqn:Hc.
    + intros (c1 & _ & [= -> _])%fmap_Some. by left; eexists.
    + intros [= <- _]. right; right. split; [done|]. right.
      apply Hcause; [by apply not_commit_answer|done].
Qed.

Lemma sent_causes_init c : sent_causes (server_init c).
Proof. intros i r Hin. by apply elem_of_nil in Hin. Qed.

Lemma sent_causes_request req now s s' :
  requests_ok s → sent_causes s → server_request req now s = Some s' → sent_causes s'.
Proof.
  intros (_ & R2 & _) HS Hs.
  destruct (server_request_spec req now s s' Hs) as (_ & Hr & Hl & Hcase).
  unfold sent_causes. rewrite Hr, Hl.
  assert (∀ i r, (i, r) ∈ sv_sent s → ∃ req0, <[sv_next s := req]> (sv_requests s) !! i = Some req0 ∧
            response_cause (sv_log s) req0 r) as Hold.
  { intros i r Hi. rewrite lookup_insert_ne; [by apply HS|].
    intros <-. apply sent_id in Hi. pose proof (proj1 (R2 (sv_next s)) (or_intror Hi)). lia. }
  destruct Hcase as [(r & G & _ & ->)|(p & _ & _ & ->)]; [|done].
  intros i r' [[= -> <-]|Hi]%elem_of_cons; [|by apply Hold].
  rewrite lookup_insert_eq. eexists; split; [done|]. by eapply resolve_get_cause.
Qed.

Lemma sent_causes_callback i o now s s' :
  pending_ok s → sent_causes s → server_callback i o now s = Some s' → sent_causes s'.
Proof.
  intros HP HS Hc. unfold sent_causes.
  destruct (server_callback_spec _ _ _ _ _ HP Hc) as (p & r & Hp & G & _ & -> & _ & -> & ->).
  intros j r' [[= -> <-]|Hj]%elem_of_cons.
  - destruct (HP i p Hp) as (req & Hreq & Hsv & Hq & Hu & Hrp & h & Hh & Hpar).
    exists req. split; [done|]. by eapply resolve_cb_cause.
  - destruct (HS j r' Hj) as (req & Hreq & Hcause). exists req. split; [done|].
    by apply response_cause_log.
Qed.

Lemma sent_causes_reachable (c0 : C) s : reachable c0 s → sent_causes s.
Proof.
  intros Hr. cut (requests_ok s ∧ pending_ok s ∧ sent_causes s); [naive_solver|].
  refine (rtc_invariant step (λ s, requests_ok s ∧ pending_ok s ∧ sent_causes s) _ _ _ Hr _);
    [|split_and!; [apply requests_ok_init | apply pending_ok_init | apply sent_causes_init]].
  intros x y Hxy (R & P & S). destruct Hxy as [req now x y Hs|j o now x y Hc].
  - split_and!; [by eapply requests_ok_request | by eapply pending_ok_request |
                 by eapply sent_causes_request].
  - split_and!; [by eapply requests_ok_callback | by eapply pending_ok_callback |
                 by eapply sent_causes_callback].
Qed.

(** C10: In every reachable state, every response sent is a 200 with body
    [{ref: ref}]; or a 404 [{err: "Unknown service"}] to a request for a
    service other than "gh"; or a 404 [{err: "Unknown repository/reference"}]
    to a request whose [ref] is missing or empty, or to a "gh" request
    for which GitHub answered the call for its branch [heads/ref] with an
    error or with something that is not a commit. *)
Theorem server_response_types (c0 : C) s : reachable c0 s → sent_causes s.
Proof. exact (sent_causes_reachable c0 s). Qed.

(** ** A property of the cache kept by the store's operations *)

Section CachePred.
Variable P : C → Prop.
Hypothesis P_get : ∀ k t c, P c → P (store_get k t c).2.
Hypothesis P_set : ∀ k v t c, P c → P (store_set k v t c).

Lemma ref_cache_read_pred service user repo head now c r c' :
  ref_cache_read service user repo head now c = Some (r, c') → P c → P c'.
Proof. intros [->|[k ->]]%ref_cache_read_after; auto. Qed.

Lemma ref_cache_enter_pred service user repo head ref now c c' :
  ref_cache_enter service user repo head ref now c = Some c' → P c → P c'.
Proof.
  unfold ref_cache_enter. destruct ref; [case_if|]; [|by intros [= <-]..].
  intros (h & _ & ->)%fmap_Some. auto.
Qed.

Lemma resolve_get_pred req now c : P c → P (resolve_get req now c).2.
Proof.
  destruct (resolve_get_cases req now c) as [->|(o & _ & _ & [[_ ->]|(? & ? & R & ->)])];
    [done|done|]. by apply ref_cache_read_pred with (1 := R).
Qed.

Lemma resolve_cb_pred p o now c r c' : resolve_cb p o now c = Some (r, c') → P c → P c'.
Proof.
  unfold resolve_cb. destruct o as [|res]; [by intros [= _ <-]|].
  destruct (commit_object res); [|by intros [= _ <-]].
  intros (c1 & E & [= _ <-])%fmap_Some. by apply ref_cache_enter_pred with (1 := E).
Qed.

Lemma step_cache_pred s s' : step s s' → P (sv_cache s) → P (sv_cache s').
Proof.
  destruct 1 as [req now s s' Hs|i o now s s' Hc]; intros Hp.
  - destruct (server_request_spec req now s s' Hs) as (_ & _ & _ & [(r & G & _)|(p & G & _)]);
      pose proof (resolve_get_pred req now _ Hp) as Hg; by rewrite G in Hg.
  - destruct (server_callback_common _ _ _ _ _ Hc)
      as (p & _ & _ & _ & _ & _ & [(r & G & _)|(_ & -> & _)]); [|done].
    by apply resolve_cb_pred with (1 := G).
Qed.

Lemma reachable_cache_pred (c0 : C) s : reachable c0 s → P c0 → P (sv_cache s).
Proof.
  unfold reachable. intros Hr. change c0 with (sv_cache (server_init c0)).
  induction Hr; eauto using step_cache_pred.
Qed.

End CachePred.

End Props.
