(* ===== verification/WireProps.v ===== *)
(** * What a client reads on the wire

    The composition of the layers: the JSON text a client receives in a
    response, read with the reader of [Json], names only hashes GitHub
    announced as the commit of the branch asked for, under the key of
    the request the response answers.  The proof goes down the layers:
    the steps of the wire project onto steps of HTTP, and those onto
    steps of the server
    ([Wire], [Http]); a response on the wire is either one of Express's
    or [pathderef.get]'s, whose only body is the Unknown service error,
    or a response of the server rendered by [res.json] for the request
    it answers; and the server's invariant confirms its hashes
    ([Server], [ServerProps]). *)

From stdpp Require Import gmap.
From S2P Require Import Prelude Store RefCache GhApi Resolver Json Routes Server Http Wire ServerProps.

(** What the clients read: each response on the wire that has a body,
    with the body the client's reader finds in its text. *)
Definition client_reads `{RefStore C} (entity_tag : string → string) (s : WireState C)
    : list (WireReq * Body) :=
  omap (λ '(w, r), match wr_payload r with
                   | PBody text => pair w <$> parse_body text
                   | _ => None
                   end) (wire_sent entity_tag s).

Section WireProps.
Context `{RefStoreLaws C}.
Variable base : string.
Variable entity_tag : string → string.

(** The cache at start-up holds nothing. *)
Variable c0 : C.
Hypothesis c0_empty : ∀ k v, ¬ store_holds c0 k v.

Lemma wire_reachable_server s :
  wire_reachable base entity_tag c0 s → reachable c0 (hs_server (ws_http s)).
Proof.
  intros Hr.
  exact (rtc_lift hs_server _ _ (http_step_server base) (http_init c0) _
           (rtc_lift ws_http _ _ (wire_step_http base entity_tag) (wire_init c0) s Hr)).
Qed.

(** A response of the application whose JSON text reads as [{ref: v}]
    is [resolve_ref (Some v)]. *)
Lemma sent_body_ref (s : ServerState C) i r v :
  sent_causes s → (i, r) ∈ sv_sent s →
  parse_body (json_body (res_body r)) = Some (BodyRef (Some v)) → r = resolve_ref (Some v).
Proof.
  intros Hs Hin. rewrite json_body_roundtrip.
  destruct (Hs i r Hin) as (req & _ & [[v' ->]|[[-> _]|[-> _]]]); simpl; by intros [= ->].
Qed.

(** C3: Every JSON text [{ref: v}] a client reads in a response on the
    wire names a hash [v] that GitHub announced as the commit of a
    branch whose cache key is the key of the request the response
    answers: the one whose path was routed to [resolve.get]. *)
Theorem wire_hashes_confirmed s w v :
  wire_reachable base entity_tag c0 s → (w, BodyRef (Some v)) ∈ client_reads entity_tag s →
  ∃ req origref head, route base (w_http w) = RouteTo HResolve req ∧ q_ref req = Some origref ∧
    js_string origref = Some head ∧
    ∃ u rp h, ref_cache_getkey "gh" u rp h =
                ref_cache_getkey (p_service req) (p_user req) (p_repo req) head ∧
              confirmed (sv_log (hs_server (ws_http s))) u rp h v.
Proof.
  intros Hr Hread. unfold client_reads in Hread. rewrite list_elem_of_omap in Hread.
  destruct Hread as ([w' r] & Hin & Hread).
  destruct (wr_payload r) as [text| |] eqn:Hp; [|done..].
  destruct (parse_body text) as [b|] eqn:Hparse; simplify_eq/=.
  destruct (wire_inv_reachable base entity_tag c0 s Hr) as (_ & _ & O & Cn & _).
  pose proof (wire_reachable_server s Hr) as Hsrv.
  unfold wire_sent in Hin. rewrite elem_of_app, list_elem_of_omap in Hin.
  destruct Hin as [Hin|([i resp] & Hsent & Hf)].
  - destruct (O w r Hin) as [_ Hbody]. rewrite (Hbody text Hp), json_body_roundtrip in Hparse.
    discriminate.
  - destruct (ws_conns s !! i) as [[w' h]|] eqn:E; simplify_eq/=.
    apply res_json_payload in Hp as ->.
    assert (resp = resolve_ref (Some v)) as ->.
    { eapply sent_body_ref; [|exact Hsent|exact Hparse].
      exact (sent_causes_reachable c0 _ Hsrv). }
    destruct (server_inv_reachable c0 c0_empty _ Hsrv) as (_ & _ & _ & A).
    destruct (A i v Hsent) as (req & origref & head & Hreq & Href & Hhead & Hconf).
    destruct (Cn i w h E) as (_ & req' & Hroute & Hreq'). simplify_eq.
    exists req, origref, head. by split_and!.
Qed.

End WireProps.
