(* ===== verification/Deploy.v ===== *)
(** * The deployed configuration

    [ref_cache] is the cache of line 34 of [src/index.js].
    [deployed_scenario] runs the spec's end-to-end scenario
    ([run_events], a list of events) on it for any user, repository,
    branch, hash and times, by symbolic evaluation ([run_symbolic]):
    a miss, a hit before 5000 ms, and a miss again at 5000 ms.  Two
    concrete runs are evaluated by [vm_compute]: an answered request,
    and two requests whose keys collide.  [deployed_cache_bounded]
    bounds the size of the cache in every state the deployed server
    can reach. *)

From stdpp Require Import gmap.
From S2P Require Import Prelude Store LruCache RefCache GhApi Resolver Server ServerProps.

(** ** The deployed configuration *)

(** [var ref_cache = LRU({ max: 5000, maxAge: 1000 * 5 })] *)
Definition ref_cache : Lru.lru := Lru.LRU 5000 (1000 * 5).

Definition octo_main : Request := mk_request "gh" "octo" "hello-world" (Some (QStr "main")).

(** A run of the server: requests arriving and callbacks receiving
    GitHub's answers, in this order. *)
Inductive ServerEvent :=
| ERequest (req : Request) (now : Time)
| ECallback (i : nat) (o : ApiOutcome) (now : Time).

Definition run_event `{RefStoreLaws C} (e : ServerEvent) (s : ServerState C) : option (ServerState C) :=
  match e with
  | ERequest req now => server_request req now s
  | ECallback i o now => server_callback i o now s
  end.

Fixpoint run_events `{RefStoreLaws C} (l : list ServerEvent) (s : ServerState C)
    : option (ServerState C) :=
  match l with
  | [] => Some s
  | e :: l' => run_event e s ≫= run_events l'
  end.

(** The spec's end-to-end scenario: a miss at t = 1000 ms, GitHub's
    answer at 1200 ms, the same request at 3000 ms (a hit, answered at
    once) and at 6500 ms (expired: a new GitHub call). *)
Definition octo_final : ServerState Lru.lru :=
  default (server_init ref_cache)
    (run_events [ERequest octo_main 1000; ECallback 0 (commit_answer "abc123") 1200;
                 ERequest octo_main 3000; ERequest octo_main 6500] (server_init ref_cache)).

(** Three requests around a branch with a ['/'] in its name: the
    branch "feature/x" of octo/hello is resolved through GitHub; then a
    request for the branch "x" of a repository "hello/feature" (a [%2F]
    in the path) and a request for the service "gh/octo" hit the same
    cache key. *)
Definition feature_x : Request := mk_request "gh" "octo" "hello" (Some (QStr "feature/x")).
Definition repo_with_slash : Request := mk_request "gh" "octo" "hello/feature" (Some (QStr "x")).
Definition service_with_slash : Request := mk_request "gh/octo" "hello" "feature" (Some (QStr "x")).

Definition collision_final : ServerState Lru.lru :=
  default (server_init ref_cache)
    (run_events [ERequest feature_x 1000; ECallback 0 (commit_answer "abc123") 1100;
                 ERequest repo_with_slash 2000; ERequest service_with_slash 2500]
       (server_init ref_cache)).

(** Concrete inputs of the witnesses below. *)
Definition lru1 : Lru.lru := Lru.lru_set "a" "1" 0 (Lru.LRU 2 100).
Definition lru2 : Lru.lru := Lru.lru_set "b" "2" 1 lru1.
Definition octo_pending : Pending :=
  mk_pending "octo" "hello-world" (QStr "main") (mk_params "octo" "hello-world" "heads/main").
Definition svn_req : Request := mk_request "svn" "acme" "widgets" (Some (QStr "main")).
Definition noref_req : Request := mk_request "gh" "acme" "widgets" None.
Definition tag_object : GitObject := mk_object (Some "tag") (Some "abc123").

(** Closes a hypothesis about concrete data by evaluation. *)
Ltac concrete :=
  solve [ reflexivity
        | vm_compute; reflexivity
        | vm_compute; lia
        | vm_compute; intros ?; discriminate
        | apply (bool_decide_unpack _); vm_compute; reflexivity ].

(** ** Runs *)

Lemma ref_cache_empty k v : ¬ store_holds ref_cache k v.
Proof. intros [t Ht]. by apply elem_of_nil in Ht. Qed.

Lemma run_events_steps `{RefStoreLaws C} l (s s' : ServerState C) :
  run_events l s = Some s' → rtc step s s'.
Proof.
  revert s. induction l as [|[req now|i o now] l IH]; intros s; simpl; [by intros [= <-]|..];
    intros (s1 & E & Hr)%bind_Some; (eapply rtc_l; [|by apply IH]).
  - by eapply step_request.
  - by eapply step_callback.
Qed.

(** The state a run ends in is reachable from the state it starts in. *)
Lemma run_events_reachable `{RefStoreLaws C} (c0 : C) l :
  reachable c0 (default (server_init c0) (run_events l (server_init c0))).
Proof.
  destruct (run_events l (server_init c0)) eqn:E; simpl; [|apply rtc_refl].
  by apply run_events_steps in E.
Qed.

Lemma octo_final_reachable : reachable ref_cache octo_final.
Proof. apply run_events_reachable. Qed.

Lemma collision_final_reachable : reachable ref_cache collision_final.
Proof. apply run_events_reachable. Qed.

(** The spec's end-to-end example: the first request is answered with
    GitHub's commit, the same request 1.8 s later is answered from the
    cache, and only one GitHub call has been made; 5.3 s after the
    write the entry has expired and the request waits for a new call. *)
Theorem octo_end_to_end :
  sv_sent octo_final =
    [(1, resolve_ref (Some "abc123")); (0, resolve_ref (Some "abc123"))] ∧
  length (sv_log octo_final) = 1 ∧
  sv_pending octo_final !! 2 =
    Some (mk_pending "octo" "hello-world" (QStr "main") (mk_params "octo" "hello-world" "heads/main")).
Proof. vm_compute. split_and!; reflexivity. Qed.

(** Evaluates a run on symbolic names, hashes and times: unfolds the
    steps and the cache, and decides the truthiness, key and age tests
    from the hypotheses. *)
Ltac run_symbolic :=
  repeat first [ progress simpl
               | progress unfold Lru.lru_get, Lru.lru_set, Lru.trim, Lru.is_stale, Lru.with_list
               | rewrite lookup_insert_eq
               | match goal with H : str_truthy ?x = true |- context [str_truthy ?x] => rewrite H end
               | rewrite decide_True by done
               | rewrite bool_decide_false by lia
               | rewrite bool_decide_true by lia ].

(** C5: The spec's end-to-end scenario on the deployed cache, for every
    user, repository, branch and hash (all non-empty) and all times: the
    first request waits for GitHub, whose commit answer is sent back;
    the same request less than 5 s after the answer is answered from the
    cache without a GitHub call; once 5 s have passed the entry has
    expired and the request waits for a new call. *)
Theorem deployed_scenario u r b sha t0 t1 t2 t3 :
  u ≠ "" → r ≠ "" → b ≠ "" → sha ≠ "" →
  (t2 - t1 < 5000)%Z → (5000 ≤ t3 - t1)%Z →
  ∃ s, run_events [ERequest (mk_request "gh" u r (Some (QStr b))) t0;
                   ECallback 0 (commit_answer sha) t1;
                   ERequest (mk_request "gh" u r (Some (QStr b))) t2;
                   ERequest (mk_request "gh" u r (Some (QStr b))) t3] (server_init ref_cache) = Some s ∧
    sv_sent s = [(1, resolve_ref (Some sha)); (0, resolve_ref (Some sha))] ∧
    sv_log s = [(mk_params u r ("heads/" +:+ b), commit_answer sha)] ∧
    sv_pending s !! 2 = Some (mk_pending u r (QStr b) (mk_params u r ("heads/" +:+ b))).
Proof.
  intros Hu Hr Hb Hsha H2 H3. apply str_truthy_iff in Hu, Hr, Hb, Hsha.
  unfold run_events, run_event, server_request, server_callback, resolve_get, resolve_cb,
    ref_cache_read, ref_cache_enter, server_init, ref_cache.
  run_symbolic.
  eexists. split; [reflexivity|]. simpl. split_and!; [done | done | by rewrite lookup_insert_eq].
Qed.

(** The key collision: after GitHub announced "abc123" for the branch
    "feature/x" of octo/hello only, the repository "hello/feature" and
    the unsupported service "gh/octo" are both answered "abc123". *)
Theorem collision_answers :
  sv_sent collision_final =
    [(2, resolve_ref (Some "abc123")); (1, resolve_ref (Some "abc123"));
     (0, resolve_ref (Some "abc123"))] ∧
  sv_log collision_final = [(mk_params "octo" "hello" "heads/feature/x", commit_answer "abc123")].
Proof. vm_compute. split_and!; reflexivity. Qed.

(** ** The deployed cache never holds more than 5000 entries *)

Definition deployed_ok (c : Lru.lru) : Prop := Lru.lru_wf c ∧ Lru.lru_max c = 5000.

Lemma deployed_ok_get k t c : deployed_ok c → deployed_ok (store_get k t c).2.
Proof.
  intros [Hwf Hmax]. split; [by apply Lru.lru_get_wf|].
  simpl. by rewrite (proj1 (lru_get_config k t c)).
Qed.

Lemma deployed_ok_set k v t c : deployed_ok c → deployed_ok (store_set k v t c).
Proof. intros [Hwf Hmax]. split; [by apply Lru.lru_set_wf | done]. Qed.

(** C9: The cache of every state the deployed server can reach holds
    at most 5000 entries. *)
Theorem deployed_cache_bounded s :
  reachable ref_cache s → length (Lru.lru_list (sv_cache s)) ≤ 5000.
Proof.
  intros Hr.
  destruct (reachable_cache_pred deployed_ok deployed_ok_get deployed_ok_set ref_cache s Hr)
    as [[_ Hlen] <-]; [|done].
  split; [split; [constructor | simpl; lia] | done].
Qed.

(** ** Witnesses: each theorem applied where its hypotheses hold *)

Lemma server_answers_confirmed_witness :
  reachable ref_cache collision_final ∧ answers_confirmed collision_final.
Proof.
  split; [apply collision_final_reachable|].
  apply (server_answers_confirmed ref_cache); [apply ref_cache_empty | apply collision_final_reachable].
Defined.

Lemma server_cache_confirmed_witness :
  reachable ref_cache octo_final ∧ cache_confirmed octo_final.
Proof.
  split; [apply octo_final_reachable|].
  apply (server_cache_confirmed ref_cache); [apply ref_cache_empty | apply octo_final_reachable].
Defined.

Lemma server_unknown_service_witness :
  has_slash (p_service svn_req) = false ∧ p_service svn_req ≠ "gh" ∧
  ((resolve_get svn_req 7000 (sv_cache octo_final)).1 = Respond unknown_service ∨
   (resolve_get svn_req 7000 (sv_cache octo_final)).1 = Respond unknown_repository ∨
   (resolve_get svn_req 7000 (sv_cache octo_final)).1 = Raise).
Proof.
  split_and!; [concrete | concrete |].
  apply (server_unknown_service ref_cache ref_cache_empty octo_final svn_req 7000
           octo_final_reachable); concrete.
Defined.

Lemma resolve_repeat_hits_witness :
  resolve_get octo_main 1000 ref_cache =
    (Await octo_pending, (resolve_get octo_main 1000 ref_cache).2) ∧
  ∃ c', resolve_cb octo_pending (commit_answer "abc123") 1200 ref_cache =
          Some (resolve_ref (Some "abc123"), c') ∧
    (resolve_get octo_main 3000 c').1 = Respond (resolve_ref (Some "abc123")).
Proof.
  split; [concrete|].
  apply (resolve_repeat_hits octo_main 1000 ref_cache octo_pending
           (resolve_get octo_main 1000 ref_cache).2); concrete.
Defined.

Lemma lru_get_expired_witness :
  (Lru.lru_maxAge lru2 ≤ 150 - 0)%Z ∧ (Lru.lru_get "c" 150 (Lru.lru_set "c" "3" 0 lru2)).1 = None.
Proof. split; [concrete|]. apply Lru.lru_get_expired. concrete. Defined.

Lemma lru_set_evicts_lru_witness :
  Lru.lru_wf lru2 ∧ length (Lru.lru_list lru2) = Lru.lru_max lru2 ∧ 0 < Lru.lru_max lru2 ∧
  ("c" ∉ Lru.keys (Lru.lru_list lru2)) ∧
  ∃ rest victim, Lru.lru_list lru2 = rest ++ [victim] ∧
    Lru.lru_list (Lru.lru_set "c" "3" 2 lru2) = Lru.mk_entry "c" "3" 2 :: rest.
Proof.
  assert (Lru.lru_wf lru2) as Hwf by (split; concrete).
  split_and!; [done | concrete | concrete | concrete |].
  apply Lru.lru_set_evicts_lru; [done | concrete | concrete | concrete].
Defined.

Lemma lru_wf_preserved_witness :
  Lru.lru_wf lru1 ∧
  Lru.lru_wf (Lru.lru_get "a" 5 lru1).2 ∧ Lru.lru_wf (Lru.lru_set "a" "2" 6 lru1).
Proof.
  assert (Lru.lru_wf lru1) as Hwf by (split; concrete).
  split; [done|]. by apply Lru.lru_wf_preserved.
Defined.

Lemma lru_sim_set_witness :
  Lru.lru_sim lru1 (Lru.lru_abs lru1) ∧
  Lru.lru_sim (Lru.lru_set "b" "2" 1 lru1) (IdealCache.ideal_set "b" "2" 1 (Lru.lru_abs lru1)).
Proof.
  assert (Lru.lru_sim lru1 (Lru.lru_abs lru1)) as Hsim by (split; [split; concrete | done]).
  split; [done|]. by apply Lru.lru_sim_set.
Defined.

Lemma ref_cache_enter_partial_witness :
  key_truthy "gh" "" "widgets" (QStr "main") && opt_truthy (Some "abc123") = false ∧
  ref_cache_enter "gh" "" "widgets" (QStr "main") (Some "abc123") 0 ref_cache = Some ref_cache.
Proof. split; [concrete|]. apply ref_cache_enter_partial. concrete. Defined.

Lemma ref_cache_enter_read_witness :
  key_truthy "gh" "octo" "hello-world" (QStr "main") = true ∧
  is_Some (js_string (QStr "main")) ∧
  fst <$> (ref_cache_enter "gh" "octo" "hello-world" (QStr "main") (Some "abc123") 1200 ref_cache ≫=
           ref_cache_read "gh" "octo" "hello-world" (QStr "main") 3000) = Some (Some "abc123").
Proof. split_and!; [concrete | by eexists |]. apply ref_cache_enter_read; [concrete | by eexists | concrete..]. Defined.

Lemma resolve_missing_ref_witness :
  query_truthy (q_ref noref_req) = false ∧
  resolve_get noref_req 0 ref_cache = (Respond unknown_repository, ref_cache).
Proof. split; [concrete|]. apply resolve_missing_ref. concrete. Defined.

Lemma resolve_cb_not_commit_witness :
  obj_type tag_object ≠ Some "commit" ∧
  resolve_cb octo_pending (ApiOk (mk_result (Some (mk_data (Some tag_object))))) 1200 ref_cache =
    Some (unknown_repository, ref_cache).
Proof. split; [concrete|]. apply resolve_cb_not_commit. concrete. Defined.

Lemma deployed_scenario_witness :
  ("octo" ≠ "" ∧ "hello-world" ≠ "" ∧ "main" ≠ "" ∧ "abc123" ≠ "" ∧
   (3000 - 1200 < 5000)%Z ∧ (5000 ≤ 6500 - 1200)%Z) ∧
  ∃ s, run_events [ERequest octo_main 1000; ECallback 0 (commit_answer "abc123") 1200;
                   ERequest octo_main 3000; ERequest octo_main 6500] (server_init ref_cache) = Some s ∧
    sv_sent s = [(1, resolve_ref (Some "abc123")); (0, resolve_ref (Some "abc123"))] ∧
    sv_log s = [(mk_params "octo" "hello-world" ("heads/" +:+ "main"), commit_answer "abc123")] ∧
    sv_pending s !! 2 =
      Some (mk_pending "octo" "hello-world" (QStr "main")
              (mk_params "octo" "hello-world" ("heads/" +:+ "main"))).
Proof.
  split; [split_and!; [discriminate..| lia | lia]|].
  apply (deployed_scenario "octo" "hello-world" "main" "abc123" 1000 1200 3000 6500);
    [discriminate..| lia | lia].
Defined.
