(* ===== verification/DeployHttp.v ===== *)
(** * The deployed process, from start-up to HTTP requests

    Concrete runs on the configuration of [Deploy], now starting from
    the environment and the raw HTTP requests, with the base path of
    the API document taken empty: start-up, the key collision reached
    through an encoded ['/'] in a path, the 500 of a [ref] that does
    not convert to a string, the GitHub call of [?ref[]=], and the
    witnesses of the theorems of [Config], [Routes], [Http],
    [ServerProps] and of the error branches of [Resolver]. *)

From stdpp Require Import gmap.
From S2P Require Import Prelude Config Uri Store LruCache RefCache GhApi Resolver Routes Server Http ServerProps Deploy.

(** ** Start-up *)

Definition prod_env : env := <["GH_KEY" := "ghp_secret"]> (<["PORT" := "8080"]> ∅).
Definition keyless_env : env := <["PORT" := "8080"]> ∅.

(** The directory of [src/index.js] as deployed, with its API document. *)
Definition deployed_files : files := <["api.json" := "{}"]> ∅.

(** Deployed without [api.json], the process authenticates, then dies
    of the exception of [readFileSync] without listening. *)
Theorem startup_missing_api_doc :
  startup prod_env ∅ =
    [Authenticate (mk_auth "token" "ghp_secret"); Uncaught "ENOENT"; ProcessExit 1].
Proof. reflexivity. Qed.

(** ** HTTP requests *)

Definition feature_x_http : HttpReq := mk_http "/gh/octo/hello/resolve" (Some (QStr "feature/x")).
Definition encoded_slash_http : HttpReq := mk_http "/gh/octo/hello%2Ffeature/resolve" (Some (QStr "x")).

(** The branch "feature/x" of octo/hello is resolved through GitHub;
    then a client asks for the branch "x" of the repository
    "hello/feature", encoding its ['/'] as [%2F]. *)
Definition http_collision_trace : option (HttpState Lru.lru) :=
  let s1 := http_request "" feature_x_http 1000 (http_init ref_cache) in
  match http_callback 0 (commit_answer "abc123") 1100 s1 with
  | Some s2 => Some (http_request "" encoded_slash_http 2000 s2)
  | None => None
  end.

Definition http_collision_final : HttpState Lru.lru :=
  match http_collision_trace with Some s => s | None => http_init ref_cache end.

Lemma http_collision_final_reachable : http_reachable "" ref_cache http_collision_final.
Proof.
  unfold http_collision_final, http_collision_trace.
  destruct (http_callback 0 (commit_answer "abc123") 1100
              (http_request "" feature_x_http 1000 (http_init ref_cache))) eqn:E;
    [|vm_compute in E; discriminate].
  eapply rtc_l; [apply hstep_request|]. eapply rtc_l; [eapply hstep_callback; exact E|].
  eapply rtc_l; [apply hstep_request|]. apply rtc_refl.
Qed.

(** ** Theorems on the deployed process *)

(** The key collision from HTTP: after GitHub announced "abc123"
    for the branch "feature/x" of octo/hello only, the request
    [/gh/octo/hello%2Ffeature/resolve?ref=x] is answered "abc123" from
    the cache, without a GitHub call. *)
Theorem http_collision :
  sv_sent (hs_server http_collision_final) =
    [(1, resolve_ref (Some "abc123")); (0, resolve_ref (Some "abc123"))] ∧
  sv_log (hs_server http_collision_final) =
    [(mk_params "octo" "hello" "heads/feature/x", commit_answer "abc123")] ∧
  sv_requests (hs_server http_collision_final) !! 1 =
    Some (mk_request "gh" "octo" "hello/feature" (Some (QStr "x"))).
Proof. vm_compute. split_and!; reflexivity. Qed.

(** [?ref[toString]=x]: with [allowPrototypes], qs gives the object
    [{toString: "x"}], whose conversion to a string throws. *)
Definition tostring_http : HttpReq := mk_http "/gh/octo/hello/resolve" (Some (QObj true)).

(** [?ref[]=]: qs gives the array [[""]], truthy, whose string is empty. *)
Definition empty_array_http : HttpReq := mk_http "/gh/octo/hello/resolve" (Some (QArr [Some ""])).

(** The request [tostring_http] routes to. *)
Definition tostring_req : Request := mk_request "gh" "octo" "hello" (Some (QObj true)).

Definition http_error_final : HttpState Lru.lru :=
  http_request "" tostring_http 3000 http_collision_final.

(** The request [?ref[toString]=x] makes [resolve.get] throw: Express
    answers 500, and the application is left as it was. *)
Theorem http_tostring_500 :
  hs_direct http_error_final = [(tostring_http, DirectStatus 500)] ∧
  hs_server http_error_final = hs_server http_collision_final.
Proof. vm_compute. split; reflexivity. Qed.

(** The request [?ref[]=] passes the check for a missing [ref] and asks
    GitHub for the reference [heads/], under the cache key
    ["gh/octo/hello/"]. *)
Theorem http_empty_array_ref :
  sv_pending (hs_server (http_request "" empty_array_http 3000 (http_init ref_cache))) !! 0 =
    Some (mk_pending "octo" "hello" (QArr [Some ""]) (mk_params "octo" "hello" "heads/")).
Proof. vm_compute. reflexivity. Qed.

(** ** Witnesses: each theorem applied where its hypotheses hold *)

Lemma startup_without_key_witness :
  opt_truthy (config_gh_key keyless_env) = false ∧
  startup keyless_env deployed_files = [ConsoleError "Huh?"; ProcessExit 1].
Proof. split; [concrete|]. apply startup_without_key. concrete. Defined.

Lemma startup_listen_authenticated_witness :
  Listen (PortString "8080") ∈ startup prod_env deployed_files ∧
  ∃ k, config_gh_key prod_env = Some k ∧ k ≠ "" ∧ is_Some (read_api_doc deployed_files) ∧
    PortString "8080" = config_port prod_env ∧
    ∃ pre post, startup prod_env deployed_files = pre ++ Listen (PortString "8080") :: post ∧
      Authenticate (mk_auth "token" k) ∈ pre.
Proof.
  assert (Listen (PortString "8080") ∈ startup prod_env deployed_files) as Hin.
  { vm_compute. right. left. }
  split; [exact Hin|]. apply startup_listen_authenticated. exact Hin.
Defined.

Lemma route_resolve_witness :
  base_literal "" = true ∧ lower "RESOLVE" = "resolve" ∧
  decodeURIComponent "hello%2Ffeature" = Some "hello/feature" ∧
  route "" (mk_http (op_path "" "gh" "octo" "hello%2Ffeature" "RESOLVE" true) (Some (QStr "x"))) =
    RouteTo HResolve (mk_request "gh" "octo" "hello/feature" (Some (QStr "x"))).
Proof.
  split_and!; [concrete | concrete | concrete |].
  apply (route_resolve "" "gh" "octo" "hello%2Ffeature" "RESOLVE" true (Some (QStr "x"))); concrete.
Defined.

Lemma route_bad_param_witness :
  decodeURIComponent "hello%E0%80%80" = None ∧
  route "" (mk_http (op_path "" "gh" "octo" "hello%E0%80%80" "resolve" false) None) = RouteBadParam.
Proof.
  split; [concrete|].
  apply (route_bad_param "" "gh" "octo" "hello%E0%80%80" "resolve" false None); concrete.
Defined.

Lemma http_error_final_reachable : http_reachable "" ref_cache http_error_final.
Proof.
  eapply rtc_r; [apply http_collision_final_reachable | apply hstep_request].
Qed.

Lemma http_direct_answers_witness :
  http_reachable "" ref_cache http_error_final ∧ direct_ok "" http_error_final.
Proof.
  split; [apply http_error_final_reachable|].
  apply (http_direct_answers "" ref_cache). apply http_error_final_reachable.
Defined.

Lemma server_response_types_witness :
  reachable ref_cache octo_final ∧ sent_causes octo_final.
Proof. split; [apply octo_final_reachable|]. apply (server_response_types ref_cache), octo_final_reachable. Defined.

Lemma deployed_cache_bounded_witness :
  reachable ref_cache collision_final ∧ length (Lru.lru_list (sv_cache collision_final)) ≤ 5000.
Proof. split; [apply collision_final_reachable|]. apply deployed_cache_bounded, collision_final_reachable. Defined.

Lemma resolve_get_throws_witness :
  (resolve_get tostring_req 0 ref_cache).1 = Raise ∧
  (resolve_get tostring_req 0 ref_cache).2 = ref_cache.
Proof.
  assert ((resolve_get tostring_req 0 ref_cache).1 = Raise) as Hr.
  { apply (proj2 (proj1 (resolve_get_throws tostring_req 0 ref_cache))).
    exists (QObj true). split_and!; [reflexivity | reflexivity | left; reflexivity]. }
  split; [exact Hr | exact (proj2 (resolve_get_throws tostring_req 0 ref_cache) Hr)].
Defined.

Lemma resolve_cb_commit_without_sha_witness :
  api_data (mk_result (Some (mk_data (Some (mk_object (Some "commit") None))))) =
    Some (mk_data (Some (mk_object (Some "commit") None))) ∧
  resolve_cb (mk_pending "octo" "hello" (QStr "main") (mk_params "octo" "hello" "heads/main"))
    (ApiOk (mk_result (Some (mk_data (Some (mk_object (Some "commit") None)))))) 0 ref_cache =
    Some (mk_response 200 (BodyRef None), ref_cache).
Proof.
  split; [reflexivity|]. apply (resolve_cb_commit_without_sha _ _ (mk_object (Some "commit") None)); reflexivity.
Defined.

(** The requests of the collision, read by [resolve.get]. *)
Definition feature_req : Request := mk_request "gh" "octo" "hello" (Some (QStr ("feature" </> "x"))).
Definition feature_pending : Pending :=
  mk_pending "octo" "hello" (QStr ("feature" </> "x"))
    (mk_params "octo" "hello" ("heads/" +:+ ("feature" </> "x"))).

Lemma resolve_key_collision_witness :
  resolve_get feature_req 1000 ref_cache =
    (Await feature_pending, (resolve_get feature_req 1000 ref_cache).2) ∧
  ∃ c', resolve_cb feature_pending (commit_answer "abc123") 1100 ref_cache =
          Some (resolve_ref (Some "abc123"), c') ∧
    (resolve_get (mk_request "gh" "octo" ("hello" </> "feature") (Some (QStr "x"))) 2000 c').1 =
      Respond (resolve_ref (Some "abc123")).
Proof.
  split; [concrete|].
  apply (resolve_key_collision "octo" "hello" "feature" "x" 1000 ref_cache feature_pending
           (resolve_get feature_req 1000 ref_cache).2); concrete.
Defined.

Definition empty_array_req : Request := mk_request "gh" "octo" "hello" (Some (QArr [Some ""])).

Lemma resolve_empty_array_ref_witness :
  js_string (QArr [Some ""]) = Some "" ∧
  ((∃ v, (resolve_get empty_array_req 0 ref_cache).1 = Respond (resolve_ref (Some v)) ∧
         store_holds ref_cache (ref_cache_getkey "gh" "octo" "hello" "") v) ∨
   (resolve_get empty_array_req 0 ref_cache).1 =
     Await (mk_pending "octo" "hello" (QArr [Some ""]) (mk_params "octo" "hello" "heads/"))).
Proof.
  split; [reflexivity|].
  apply (resolve_empty_array_ref empty_array_req [Some ""]); concrete.
Defined.
