(* ===== verification/DeployWire.v ===== *)
(** * The deployed process on the wire

    A concrete run of the configuration of [Deploy] driven by HTTP
    messages, evaluated with [vm_compute]: a GET answered through
    GitHub, a CORS preflight, a HEAD answered from the cache, a POST,
    and a GET with [If-None-Match: *]; and the witnesses of the
    theorems of [Json] and [Wire]. *)

From stdpp Require Import gmap.
From S2P Require Import Prelude Store LruCache RefCache GhApi Resolver Json Routes Server Http Wire WireProps Deploy.

(** Express's ETag is a hash of the body; with ETags off it is never
    computed, so any function stands for it. *)
Definition body_tag (body : string) : string := body.

Definition main_path : HttpReq := mk_http "/gh/octo/hello-world/resolve" (Some (QStr "main")).

Definition get_main : WireReq := mk_wreq GET ∅ main_path.
Definition head_main : WireReq := with_method HEAD get_main.
Definition post_main : WireReq := with_method (OtherMethod "POST") get_main.
Definition preflight : WireReq :=
  mk_wreq OPTIONS (<["access-control-request-headers" := "x-requested-with"]> ∅) main_path.
Definition get_star : WireReq := mk_wreq GET (<["if-none-match" := "*"]> ∅) main_path.

(** [GET /gh/octo/hello-world/resolve?ref[toString]=x]. *)
Definition get_tostring : WireReq :=
  mk_wreq GET ∅ (mk_http "/gh/octo/hello-world/resolve" (Some (QObj true))).

(** A revalidation with an entity tag. *)
Definition get_revalidate : WireReq := mk_wreq GET (<["if-none-match" := "W/x"]> ∅) main_path.

(** The headers every GET has when it reaches its route. *)
Definition route_headers : headers :=
  <["access-control-allow-origin" := "*"]> express_init.

Definition wire_trace : option (WireState Lru.lru) :=
  let s1 := wire_request "" body_tag get_main 1000 (wire_init ref_cache) in
  match wire_callback 0 (commit_answer "abc123") 1200 s1 with
  | Some s2 =>
      let s3 := wire_request "" body_tag preflight 1300 s2 in
      let s4 := wire_request "" body_tag head_main 1400 s3 in
      let s5 := wire_request "" body_tag post_main 1500 s4 in
      let s6 := wire_request "" body_tag get_star 1600 s5 in
      Some (wire_request "" body_tag get_tostring 1700 s6)
  | None => None
  end.

Definition wire_final : WireState Lru.lru :=
  match wire_trace with Some s => s | None => wire_init ref_cache end.

Lemma wire_final_reachable : wire_reachable "" body_tag ref_cache wire_final.
Proof.
  unfold wire_final, wire_trace.
  destruct (wire_callback 0 (commit_answer "abc123") 1200
              (wire_request "" body_tag get_main 1000 (wire_init ref_cache))) eqn:E;
    [|vm_compute in E; discriminate].
  eapply rtc_l; [apply wstep_request|]. eapply rtc_l; [eapply wstep_callback; exact E|].
  do 5 (eapply rtc_l; [apply wstep_request|]). apply rtc_refl.
Qed.

(** The run, as the client sees it (newest first): Express's 500 to the
    request whose [ref] does not convert to a string, Express's 404 to the
    POST, the preflight's 204, a 304 without body to the GET with
    [If-None-Match: *] although the application sent the hash, the
    HEAD's 200 without body, and the first GET's 200 with the JSON
    text of [{ref: "abc123"}]; a single GitHub call. *)
Theorem wire_octo :
  map (λ '(w, r), (w_method w, wr_status r, wr_payload r)) (wire_sent body_tag wire_final) =
    [(GET, 500%Z, PErrorPage); (OtherMethod "POST", 404%Z, PErrorPage); (OPTIONS, 204%Z, PEmpty); (GET, 304%Z, PEmpty);
     (HEAD, 200%Z, PEmpty); (GET, 200%Z, PBody (json_body (BodyRef (Some "abc123"))))] ∧
  sv_sent (hs_server (ws_http wire_final)) =
    [(2, resolve_ref (Some "abc123")); (1, resolve_ref (Some "abc123"));
     (0, resolve_ref (Some "abc123"))] ∧
  length (sv_log (hs_server (ws_http wire_final))) = 1.
Proof. vm_compute. split_and!; reflexivity. Qed.

Lemma wire_headers_everywhere_witness :
  wire_reachable "" body_tag ref_cache wire_final ∧
  (get_main, res_json body_tag app_etag get_main route_headers (resolve_ref (Some "abc123")))
    ∈ wire_sent body_tag wire_final ∧
  wr_headers (res_json body_tag app_etag get_main route_headers (resolve_ref (Some "abc123")))
    !! "access-control-allow-origin" = Some "*" ∧
  wr_headers (res_json body_tag app_etag get_main route_headers (resolve_ref (Some "abc123")))
    !! "etag" = None.
Proof.
  assert ((get_main, res_json body_tag app_etag get_main route_headers (resolve_ref (Some "abc123")))
            ∈ wire_sent body_tag wire_final) as Hin by concrete.
  split_and!; [apply wire_final_reachable | exact Hin | |];
    apply (wire_headers_everywhere "" body_tag ref_cache wire_final get_main _
             wire_final_reachable Hin).
Defined.

Lemma wire_not_get_witness :
  is_get_head (w_method post_main) = false ∧
  ∃ r, wire_request "" body_tag post_main 1500 (wire_init ref_cache) =
         wire_answer post_main r (wire_init ref_cache) ∧
    ((w_method post_main = OPTIONS ∧ wr_status r = 204%Z ∧ wr_payload r = PEmpty ∧
      wr_headers r !! "access-control-allow-methods" = Some "GET") ∨
     (w_method post_main ≠ OPTIONS ∧ wr_status r = 404%Z)).
Proof. split; [concrete|]. apply wire_not_get. concrete. Defined.

Lemma res_json_unconditional_witness :
  w_headers get_revalidate !! "if-none-match" ≠ Some "*" ∧
  res_json body_tag app_etag get_revalidate route_headers (resolve_ref (Some "abc123")) =
    res_json body_tag app_etag (unconditional get_revalidate) route_headers (resolve_ref (Some "abc123")).
Proof. split; [concrete|]. apply res_json_unconditional. concrete. Defined.

Lemma wire_hashes_confirmed_witness :
  (∀ k v, ¬ store_holds ref_cache k v) ∧ wire_reachable "" body_tag ref_cache wire_final ∧
  (get_main, BodyRef (Some "abc123")) ∈ client_reads body_tag wire_final ∧
  ∃ req origref head, route "" (w_http get_main) = RouteTo HResolve req ∧ q_ref req = Some origref ∧
    js_string origref = Some head ∧
    ∃ u rp h, ref_cache_getkey "gh" u rp h =
                ref_cache_getkey (p_service req) (p_user req) (p_repo req) head ∧
              confirmed (sv_log (hs_server (ws_http wire_final))) u rp h "abc123".
Proof.
  assert ((get_main, BodyRef (Some "abc123")) ∈ client_reads body_tag wire_final) as Hin
    by concrete.
  split_and!; [exact ref_cache_empty | exact wire_final_reachable | exact Hin |].
  exact (wire_hashes_confirmed "" body_tag ref_cache ref_cache_empty wire_final get_main "abc123"
           wire_final_reachable Hin).
Defined.
